(** * FreeCAD weekly updater: a shallow embedding of [freecad_updater.py]

    The definitions follow the source file top-down:
    - [PyStr]     : the few [str] operations the program uses
                    ([strip], [splitlines], character categories);
    - [PyRe]      : the fragment of Python's [re] the program's patterns
                    need (backtracking, greedy, leftmost; one capture
                    group);
    - [Feed]      : [get_latest_weekly_asset];
    - [ProbeText] : the parsing half of [detect_installed_version];
    - [Fs]        : directory trees, [os.makedirs], [shutil.copy2],
                    [shutil.rmtree], and [copy_contents];
    - [Update]    : [download_and_extract], [detect_installed_version],
                    the worker of [run_update_thread] and
                    [check_and_update];
    - [Props]     : the vocabulary of the statements;
    - [Ui]        : [update_installed_version_label];
    - [Sample], [Trees] : concrete feeds, trees and environments.
    The facts come after, one module per component of the pipeline.

    Text is a Rocq [string]: a sequence of code points below 256.  On that
    range the character categories below are exactly the ones of CPython
    3.11 ([\d], [\s], [\w], the line boundaries of [splitlines]). *)

From Stdlib Require Import Bool Arith ZArith NArith Lia List Sorted Ascii String.
Import ListNotations.

Local Open Scope string_scope.
Local Open Scope list_scope.

Set Implicit Arguments.

(* ================================================================== *)
(** ** Strings *)

Module PyStr.

Definition code (c : ascii) : N := N_of_ascii c.

Definition in_range (lo hi : N) (c : ascii) : bool :=
  (N.leb lo (code c) && N.leb (code c) hi)%bool.

(** [str.isspace] and the [\s] category. *)
Definition is_space (c : ascii) : bool :=
  in_range 9 13 c || in_range 28 32 c
  || N.eqb (code c) 133 || N.eqb (code c) 160.

(** The [\d] category. *)
Definition is_digit (c : ascii) : bool := in_range 48 57 c.

Definition is_upper_az (c : ascii) : bool := in_range 65 90 c.
Definition is_lower_az (c : ascii) : bool := in_range 97 122 c.

(** The [\w] category: alphanumeric characters and the underscore. *)
Definition is_word (c : ascii) : bool :=
  is_digit c || is_upper_az c || is_lower_az c || N.eqb (code c) 95
  || N.eqb (code c) 170 || in_range 178 179 c || N.eqb (code c) 181
  || in_range 185 186 c || in_range 188 190 c
  || in_range 192 214 c || in_range 216 246 c || in_range 248 255 c.

(** Line boundaries recognised by [str.splitlines]. *)
Definition is_linebreak (c : ascii) : bool :=
  in_range 10 13 c || in_range 28 30 c || N.eqb (code c) 133.

(** Case mapping of the letters A-Z and a-z.  The cased literals and sets
    of the program's patterns are all in that range, and no other
    character below 256 folds into it. *)
Definition lower (c : ascii) : ascii :=
  if is_upper_az c then ascii_of_N (code c + 32) else c.

Definition upper (c : ascii) : ascii :=
  if is_lower_az c then ascii_of_N (code c - 32) else c.

Definition chars (s : string) : list ascii := list_ascii_of_string s.
Definition str (l : list ascii) : string := string_of_list_ascii l.

Fixpoint lstrip (l : list ascii) : list ascii :=
  match l with
  | c :: tl => if is_space c then lstrip tl else l
  | [] => []
  end.

Definition rstrip (l : list ascii) : list ascii := rev (lstrip (rev l)).

(** [s.strip()] *)
Definition strip (s : string) : string := str (rstrip (lstrip (chars s))).

(** [s.splitlines()[0]] for a non-empty [s]: the text before the first
    line boundary. *)
Fixpoint first_line (l : list ascii) : list ascii :=
  match l with
  | c :: tl => if is_linebreak c then [] else c :: first_line tl
  | [] => []
  end.

(** Python truthiness of a [str]. *)
Definition truthy (s : string) : bool :=
  match s with EmptyString => false | _ => true end.

End PyStr.

(* ================================================================== *)
(** ** Regular expressions *)

Module PyRe.
Import PyStr.

(** The constructs that occur in the program's five patterns.  Every
    quantifier but one applies to a single-character item, so repetition
    is over a character class; the exception is the optional group
    [(?:ision)?]. *)
Inductive regex : Type :=
| Chr (cls : ascii -> bool)
| Rep (cls : ascii -> bool) (lo : nat) (hi : option nat)
| Cat (r1 r2 : regex)
| Opt (r : regex)
| Grp (r : regex)
| Bol
| Eol
| Wb
| Emp.

(** A position in the subject: the character just before it (if any) and
    the text from it on. *)
Record cursor : Type := Cursor { prev : option ascii; rest : list ascii }.

Definition advance (c : ascii) (tl : list ascii) : cursor := Cursor (Some c) tl.

Definition word_at (o : option ascii) : bool :=
  match o with Some c => is_word c | None => false end.

Definition at_boundary (p : cursor) : bool :=
  xorb (word_at (prev p)) (word_at (hd_error (rest p))).

(** [$] without [re.MULTILINE]: at the end of the subject, or just before
    a line feed that ends the subject. *)
Definition at_end (p : cursor) : bool :=
  match rest p with
  | [] => true
  | [c] => N.eqb (code c) 10
  | _ => false
  end.

(** [^] without [re.MULTILINE]. *)
Definition at_start (p : cursor) : bool :=
  match prev p with None => true | Some _ => false end.

Definition within (hi : option nat) : bool :=
  match hi with Some 0 => false | _ => true end.

Section Matcher.
Variable R : Type.

(** Greedy repetition of a class: take one more character when allowed,
    and give back on failure of what follows. *)
Fixpoint rep (cls : ascii -> bool) (lo : nat) (hi : option nat)
    (pv : option ascii) (l : list ascii) (k : cursor -> option R)
    {struct l} : option R :=
  let stop := match lo with 0 => k (Cursor pv l) | S _ => None end in
  match l with
  | c :: tl =>
      if (cls c && within hi)%bool then
        match rep cls (pred lo) (option_map pred hi) (Some c) tl k with
        | Some r => Some r
        | None => stop
        end
      else stop
  | [] => stop
  end.

(** Group 1 is remembered as the text it matched. *)
Definition capture : Type := option (list ascii).

Definition span (from to : cursor) : list ascii :=
  firstn (List.length (rest from) - List.length (rest to)) (rest from).

Fixpoint run (r : regex) (p : cursor) (g : capture)
    (k : cursor -> capture -> option R) {struct r} : option R :=
  match r with
  | Chr cls =>
      match rest p with
      | c :: tl => if cls c then k (advance c tl) g else None
      | [] => None
      end
  | Rep cls lo hi => rep cls lo hi (prev p) (rest p) (fun q => k q g)
  | Cat r1 r2 => run r1 p g (fun q g' => run r2 q g' k)
  | Opt r1 =>
      match run r1 p g k with
      | Some x => Some x
      | None => k p g
      end
  | Grp r1 => run r1 p g (fun q _ => k q (Some (span p q)))
  | Bol => if at_start p then k p g else None
  | Eol => if at_end p then k p g else None
  | Wb => if at_boundary p then k p g else None
  | Emp => k p g
  end.

End Matcher.

(** [pattern.match(s)]: a match that starts at the beginning of [s].  The
    result is the text of group 1 (absent when the group did not take
    part). *)
Definition match_at (r : regex) (p : cursor) : option capture :=
  run r p None (fun _ g => Some g).

Definition re_match (r : regex) (s : string) : option capture :=
  match_at r (Cursor None (chars s)).

(** [re.search(r, s)]: the leftmost position where a match starts. *)
Fixpoint search_from (r : regex) (pv : option ascii) (l : list ascii)
    : option capture :=
  match match_at r (Cursor pv l) with
  | Some g => Some g
  | None =>
      match l with
      | c :: tl => search_from r (Some c) tl
      | [] => None
      end
  end.

Definition re_search (r : regex) (s : string) : option capture :=
  search_from r None (chars s).

(** Pattern builders. *)
Definition is_char (a c : ascii) : bool := Ascii.eqb a c.

Definition one_of (s : string) (c : ascii) : bool :=
  existsb (is_char c) (chars s).

(** A set compiled under [re.IGNORECASE]. *)
Definition icase (cls : ascii -> bool) (c : ascii) : bool :=
  (cls (lower c) || cls (upper (lower c)))%bool.

Fixpoint seq (items : list regex) : regex :=
  match items with
  | [] => Emp
  | [r] => r
  | r :: tl => Cat r (seq tl)
  end.

Definition lit (s : string) : regex :=
  seq (map (fun a => Chr (is_char a)) (chars s)).

Definition lit_i (s : string) : regex :=
  seq (map (fun a => Chr (icase (is_char a))) (chars s)).

Definition plus (cls : ascii -> bool) : regex := Rep cls 1 None.
Definition star (cls : ascii -> bool) : regex := Rep cls 0 None.
Definition times (n : nat) (cls : ascii -> bool) : regex := Rep cls n (Some n).
Definition between (lo hi : nat) (cls : ascii -> bool) : regex :=
  Rep cls lo (Some hi).

End PyRe.

(* ================================================================== *)
(** ** Exceptions and state *)

(** A path is the list of its components; the empty string (no folder) is
    the empty path. *)
Definition path : Type := list string.

(** The exceptions that leave the program's functions, by raise site. *)
Inductive exn : Type :=
| HTTPError (what : string)            (* requests.HTTPError *)
| RequestError (what : string)         (* any other failure of a request *)
| ValueError                           (* int() of a malformed header *)
| NoInstallDir                         (* "Installation folder not specified." *)
| OSError (p : path)                   (* a filesystem call failed on [p] *)
| ToolFailed (diag : string)           (* "7z extraction failed: ..." *)
| ToolTimeout                          (* subprocess.TimeoutExpired *)
| ExtractFailed (native shell : string) (* "Could not extract archive. ..." *)
| CopyFailed (src dst : path)          (* "Error copying src -> dst: ..." *)
| CallbackRaised.                      (* raised by the progress display *)

Inductive result (A : Type) : Type :=
| Ok (a : A)
| Raise (e : exn).
Arguments Raise {A} e.

(** Code that changes a state of type [S] and may raise.  The state
    reached when an exception is raised is kept: what was written before
    the failure stays written. *)
Definition M (S A : Type) : Type := S -> result A * S.

Definition ret {S A : Type} (a : A) : M S A := fun s => (Ok a, s).

Definition raise {S A : Type} (e : exn) : M S A := fun s => (Raise e, s).

Definition bind {S A B : Type} (m : M S A) (f : A -> M S B) : M S B :=
  fun s =>
    match m s with
    | (Ok a, s') => f a s'
    | (Raise e, s') => (Raise e, s')
    end.

Definition read {S : Type} : M S S := fun s => (Ok s, s).

(** [try: body finally: cleanup], for a cleanup that does not raise. *)
Definition finally {S A : Type} (body : M S A) (cleanup : S -> S) : M S A :=
  fun s => let (r, s') := body s in (r, cleanup s').

Notation "x <- m ;; k" := (bind m (fun x => k))
  (at level 61, m at next level, right associativity).
Notation "m ;;; k" := (bind m (fun _ => k))
  (at level 61, right associativity).

(* ================================================================== *)
(** ** VersionSource: [get_latest_weekly_asset] *)

Module Feed.
Import PyStr PyRe.

(** The JSON of the release feed, as far as the program reads it.  A
    field is [None] when the key is missing. *)
Record asset_obj : Type :=
  AssetObj { obj_name : option string; obj_url : option string }.

Record release_obj : Type :=
  ReleaseObj { rel_assets : option (list asset_obj) }.

(** The dictionary the function returns. *)
Record asset : Type := Asset { name : string; url : option string }.

(** [dict.get(key, default)] *)
Definition get {A : Type} (field : option A) (default : A) : A :=
  match field with Some v => v | None => default end.

(** [^FreeCAD_weekly-\d{4}\.\d{2}\.\d{2}-Windows-x86_64-py311\.7z$] *)
Definition pattern : regex :=
  seq [ Bol; lit "FreeCAD_weekly-";
        times 4 is_digit; lit "."; times 2 is_digit; lit "."; times 2 is_digit;
        lit "-Windows-x86_64-py311.7z"; Eol ].

Definition matches (r : regex) (s : string) : bool :=
  match re_match r s with Some _ => true | None => false end.

(** The inner loop: the assets of one release. *)
Fixpoint scan_assets (assets : list asset_obj) : option asset :=
  match assets with
  | [] => None
  | a :: tl =>
      let name := get (obj_name a) "" in
      if matches pattern name then Some (Asset name (obj_url a))
      else scan_assets tl
  end.

(** The outer loop: the releases in feed order. *)
Fixpoint scan_releases (releases : list release_obj) : option asset :=
  match releases with
  | [] => None
  | r :: tl =>
      match scan_assets (get (rel_assets r) []) with
      | Some a => Some a
      | None => scan_releases tl
      end
  end.

(** What the GET on [GITHUB_API_URL] gives. *)
Inductive response : Type :=
| Unreachable (what : string)
| BadStatus (what : string)
| Json (releases : list release_obj).

Definition get_latest_weekly_asset (r : response) : result (option asset) :=
  match r with
  | Unreachable what => Raise (RequestError what)
  | BadStatus what => Raise (HTTPError what)
  | Json releases => Ok (scan_releases releases)
  end.

End Feed.

(* ================================================================== *)
(** ** VersionProbe: parsing the output of [--version] *)

Module ProbeText.
Import PyStr PyRe.

Definition sep (c : ascii) : bool := (is_char ":" c || is_space c)%bool.

Definition ident (c : ascii) : bool :=
  (is_digit c || is_upper_az c || is_lower_az c || is_char "-" c)%bool.

Definition hex (c : ascii) : bool := (is_digit c || in_range 97 102 c)%bool.

(** [FreeCAD\s+([^\s,()]+)], re.IGNORECASE *)
Definition version_re : regex :=
  seq [ lit_i "FreeCAD"; plus is_space;
        Grp (plus (fun c => negb (is_space c || one_of ",()" c))) ].

(** The four revision patterns, in the order of [rev_patterns]. *)
Definition rev_patterns : list regex :=
  [ seq [ lit_i "Revision"; star sep; Grp (plus (icase ident)) ];
    seq [ Wb; lit_i "rev"; Opt (lit_i "ision"); star sep;
          Grp (plus (icase ident)) ];
    seq [ lit_i "commit"; star sep; Grp (between 7 40 (icase hex)) ];
    seq [ Wb; Grp (between 7 40 (icase hex)); Wb ] ].

(** [m.group(1)] of a successful match. *)
Definition group1 (g : capture) : string :=
  match g with Some l => str l | None => "" end.

(** The loop over [rev_patterns]: the first pattern found decides. *)
Fixpoint first_revision (ps : list regex) (text : string) : option string :=
  match ps with
  | [] => None
  | rp :: tl =>
      match re_search rp text with
      | Some g => Some (group1 g)
      | None => first_revision tl text
      end
  end.

Definition parse_version (text : string) : string :=
  match re_search version_re text with
  | Some g => "FreeCAD " ++ group1 g
  | None => strip (str (first_line (chars text)))
  end.

(** Lines 250-272 of the source, for a non-empty [text]. *)
Definition parse (text : string) : string * option string :=
  (parse_version text, first_revision rev_patterns text).

End ProbeText.

(* ================================================================== *)
(** ** The filesystem *)

Module Fs.

Definition bytes : Type := list Byte.byte.

Local Set Warnings "-register-all".

(** A directory lists its entries in the order [os.listdir] and [os.walk]
    report them. *)
Inductive node : Type :=
| File (data : bytes)
| Dir (entries : list (string * node)).

Definition entries : Type := list (string * node).

Fixpoint assoc (k : string) (es : entries) : option node :=
  match es with
  | [] => None
  | (k', v) :: tl => if String.eqb k k' then Some v else assoc k tl
  end.

(** Replace the entry named [k], or add it. *)
Fixpoint assoc_set (k : string) (v : node) (es : entries) : entries :=
  match es with
  | [] => [(k, v)]
  | (k', v') :: tl =>
      if String.eqb k k' then (k, v) :: tl else (k', v') :: assoc_set k v tl
  end.

Fixpoint assoc_del (k : string) (es : entries) : entries :=
  match es with
  | [] => []
  | (k', v') :: tl =>
      if String.eqb k k' then assoc_del k tl else (k', v') :: assoc_del k tl
  end.

Fixpoint lookup (p : path) (n : node) : option node :=
  match p with
  | [] => Some n
  | c :: p' =>
      match n with
      | Dir es =>
          match assoc c es with
          | Some m => lookup p' m
          | None => None
          end
      | File _ => None
      end
  end.

(** [os.path.isfile], [os.path.isdir], [os.path.getsize], [os.listdir] *)
Definition isfile (p : path) (fs : node) : bool :=
  match lookup p fs with Some (File _) => true | _ => false end.

Definition isdir (p : path) (fs : node) : bool :=
  match lookup p fs with Some (Dir _) => true | _ => false end.

Definition getsize (p : path) (fs : node) : option Z :=
  match lookup p fs with
  | Some (File data) => Some (Z.of_nat (List.length data))
  | _ => None
  end.

Definition listdir (p : path) (fs : node) : option (list string) :=
  match lookup p fs with
  | Some (Dir es) => Some (map fst es)
  | _ => None
  end.

(** [open(p, "wb")] followed by writing [data]: the parent must be a
    directory and [p] itself must not be one. *)
Fixpoint write_file (p : path) (data : bytes) (n : node) : option node :=
  match n, p with
  | File _, [] => Some (File data)
  | File _, _ :: _ => None
  | Dir _, [] => None
  | Dir es, c :: p' =>
      match assoc c es with
      | Some m =>
          match write_file p' data m with
          | Some m' => Some (Dir (assoc_set c m' es))
          | None => None
          end
      | None =>
          match p' with
          | [] => Some (Dir (assoc_set c (File data) es))
          | _ :: _ => None
          end
      end
  end.

(** [os.makedirs(p, exist_ok=True)]: fails only when a component of [p]
    is a file. *)
Fixpoint makedirs (p : path) (n : node) : option node :=
  match n, p with
  | File _, _ => None
  | Dir _, [] => Some n
  | Dir es, c :: p' =>
      match makedirs p' (match assoc c es with Some m => m | None => Dir [] end) with
      | Some m' => Some (Dir (assoc_set c m' es))
      | None => None
      end
  end.

(** [os.mkdir(p)]: the parent exists and [p] does not. *)
Definition mkdir (p : path) (fs : node) : option node :=
  match lookup p fs with
  | Some _ => None
  | None => if isdir (removelast p) fs then makedirs p fs else None
  end.

(** [shutil.rmtree(p)]: [p] must be a directory. *)
Fixpoint rmtree (p : path) (n : node) : option node :=
  match n, p with
  | Dir es, c :: p' =>
      match assoc c es with
      | Some m =>
          match p' with
          | [] => match m with
                  | Dir _ => Some (Dir (assoc_del c es))
                  | File _ => None
                  end
          | _ :: _ => match rmtree p' m with
                      | Some m' => Some (Dir (assoc_set c m' es))
                      | None => None
                      end
          end
      | None => None
      end
  | _, _ => None
  end.

(** What an extractor leaves in the directory [p]: the archive's top-level
    entries, each replacing an entry of the same name.  Nothing is
    written when [p] is not a directory. *)
Definition put_entries (content es : entries) : entries :=
  fold_left (fun acc kv => assoc_set (fst kv) (snd kv) acc) content es.

Fixpoint put_all (p : path) (content : entries) (n : node) : node :=
  match n, p with
  | File _, _ => n
  | Dir es, [] => Dir (put_entries content es)
  | Dir es, c :: p' =>
      match assoc c es with
      | Some m => Dir (assoc_set c (put_all p' content m) es)
      | None => n
      end
  end.

(** [shutil.copy2(src, dst)] for a source file named [base] holding
    [data].  When [dst] is an existing directory the copy goes into it,
    under the source's base name. *)
Definition copy2 (base : string) (data : bytes) (dst : path) (fs : node)
    : option node :=
  let target := if isdir dst fs then dst ++ [base] else dst in
  write_file target data fs.

(** A filesystem call; on failure it raises [e]. *)
Definition call (e : exn) (f : node -> option node) : M node unit :=
  fun fs =>
    match f fs with
    | Some fs' => (Ok tt, fs')
    | None => (Raise e, fs)
    end.

(** The [for f in files] loop of [copy_contents] for one directory. *)
Fixpoint copy_files (es : entries) (root dest_root : path) : M node unit :=
  match es with
  | [] => ret tt
  | (f, File data) :: tl =>
      call (CopyFailed (root ++ [f]) (dest_root ++ [f]))
           (copy2 f data (dest_root ++ [f])) ;;;
      copy_files tl root dest_root
  | (_, Dir _) :: tl => copy_files tl root dest_root
  end.

(** The [os.walk] loop of [copy_contents], top-down from the directory
    [src] found at [root]: create the destination directory, copy the
    files, then descend into the subdirectories.  The tree walked is the
    one found at [src_dir] when the walk starts. *)
Fixpoint walk (src : node) (root dest_root : path) {struct src}
    : M node unit :=
  match src with
  | File _ => ret tt
  | Dir es =>
      call (OSError dest_root) (makedirs dest_root) ;;;
      copy_files es root dest_root ;;;
      (fix descend (l : entries) {struct l} : M node unit :=
         match l with
         | [] => ret tt
         | (d, sub) :: tl =>
             walk sub (root ++ [d]) (dest_root ++ [d]) ;;; descend tl
         end) es
  end.

Definition copy_contents (src_dir dst_dir : path) : M node unit :=
  fun fs =>
    match lookup src_dir fs with
    | Some src => walk src src_dir dst_dir fs
    | None => (Ok tt, fs)
    end.

End Fs.

(* ================================================================== *)
(** ** The update pipeline *)

Module Update.
Import Fs.

Local Open Scope Z_scope.

(** *** The outside world *)

(** A [Content-Length] header: missing (or empty), not a number, or a
    number. *)
Inductive header : Type :=
| Absent
| Malformed
| Length (n : Z).

Inductive head_response : Type :=
| HeadFails
| HeadOk (content_length : header).

(** The streamed GET: the request or its status check may raise; the body
    arrives in chunks, and the stream may break after the chunks given. *)
Inductive get_response : Type :=
| GetFails (what : string)
| GetStatus (what : string)
| GetOk (content_length : header) (chunks : list bytes) (broken : option string).

(** The three extractors.  One that succeeds leaves the archive's
    top-level entries in the extraction folder; one that fails leaves
    nothing there. *)
Inductive native_result : Type :=
| Extracted (content : entries)
| NativeFails (why : string).

Inductive tool_result : Type :=
| ToolOk (content : entries)
| ToolExit (diag : string)
| ToolExpired.

Inductive shell_result : Type :=
| NoAutomation                   (* win32com cannot be imported *)
| NoNamespace                    (* the shell cannot open the archive *)
| ShellFails (why : string)      (* any other exception of the COM calls *)
| Copied (content : entries).    (* what has appeared before the deadline *)

Inductive callback_result : Type :=
| Returns
| Raises.                        (* an [Exception] *)

Definition callback : Type := Z -> Z -> callback_result.

(** The output of [exe --version]; a stream is [None] when the process
    gave none. *)
Record probe_output : Type :=
  ProbeOutput { stdout : option string; stderr : option string }.

(** Everything the program asks of its environment during one run. *)
Record env : Type := Env {
  cwd : path;
  tmpdir : path;                          (* tempfile.gettempdir() *)
  tmp_suffixes : list string;             (* the names mkdtemp draws *)
  feed : Feed.response;
  head : option string -> head_response;
  get : option string -> get_response;
  native : path -> native_result;         (* py7zr on the archive *)
  meipass : option path;                  (* sys._MEIPASS *)
  frozen : bool;                          (* sys.frozen *)
  exe_dir : path;                         (* dirname(sys.executable) *)
  which : string -> option path;          (* shutil.which *)
  program_files : option path;            (* %ProgramFiles% *)
  tool : path -> path -> tool_result;     (* 7z x -y -o<dir> <archive> *)
  shell : path -> shell_result;           (* Explorer's CopyHere *)
  run_version : path -> option probe_output; (* None: the run raised *)
  ui_progress : callback;                 (* update_progress_safe *)
  confirm : bool                          (* the answer to askyesno *)
}.

Inductive complaint : Type :=
| Text (msg : string)
| Exception (e : exn).

(** What a run does that can be observed from outside. *)
Inductive event : Type :=
| FeedQuery
| HeadRequest (url : option string)
| StreamRequest (url : option string)
| Progress (downloaded total : Z)
| ScratchCreated (dir : path)
| NativeAttempt (archive : path)
| ToolAttempt (exe : path)
| ShellAttempt
| ProbeRun (exe : path)
| VersionSaved (version : string)
| ConfigSaved
| ShowError (title : string) (what : complaint)
| ShowInfo (title : string)
| AskYesNo.

(** [last_version.json] and [config.json]. *)
Inductive version_file : Type :=
| NoVersionFile
| Unreadable                               (* not JSON, or not an object *)
| VersionRecord (version : option string). (* None: no usable "version" *)

Record config : Type :=
  Config { cfg_install_dir : option path; cfg_last_version : option string }.

(** The two JSON files are kept apart from the tree the download, the
    extraction and the merge work on. *)
Record world : Type := World {
  fs : node;
  saved : version_file;
  cfg : config;
  trace : list event
}.

Definition with_fs (w : world) (fs' : node) : world :=
  World fs' (saved w) (cfg w) (trace w).

Definition with_event (w : world) (e : event) : world :=
  World (fs w) (saved w) (cfg w) (trace w ++ [e]).

Definition emit (e : event) : M world unit :=
  fun w => (Ok tt, with_event w e).

(** Run filesystem code on the world's tree. *)
Definition on_fs {A : Type} (m : M node A) : M world A :=
  fun w => let (r, fs') := m (fs w) in (r, with_fs w fs').

(** *** [download_and_extract] *)

Definition DOWNLOADS_DIR (E : env) : path := cwd E ++ ["downloads"%string].

Definition unspecified (d : path) : bool :=
  match d with [] => true | _ :: _ => false end.

(** Lines 87-93: the size the HEAD request reports, 0 when unknown. *)
Definition remote_size_of (E : env) (a : Feed.asset) : M world Z :=
  emit (HeadRequest (Feed.url a)) ;;;
  ret (match head E (Feed.url a) with
       | HeadOk (Length n) => n
       | HeadOk Absent => 0
       | HeadOk Malformed => 0
       | HeadFails => 0
       end).

(** Lines 95-102. *)
Definition use_cached (cached_file : path) (remote_size : Z) (fs : node) : bool :=
  if (isfile cached_file fs && negb (remote_size =? 0))%bool then
    match getsize cached_file fs with
    | Some n => n =? remote_size
    | None => false
    end
  else false.

(** [tempfile.mkdtemp(prefix="freecad_updater_")]: the first name drawn
    that is free, created as an empty directory. *)
Fixpoint first_free (dir : path) (names : list string) (fs : node)
    : option path :=
  match names with
  | [] => None
  | n :: tl =>
      match lookup (dir ++ [n]) fs with
      | None => Some (dir ++ [n])
      | Some _ => first_free dir tl fs
      end
  end.

Definition mkdtemp (E : env) : M world path :=
  fs0 <- on_fs read ;;
  match first_free (tmpdir E)
          (map (String.append "freecad_updater_") (tmp_suffixes E)) fs0 with
  | None => raise (OSError (tmpdir E))
  | Some t => on_fs (call (OSError t) (mkdir t)) ;;; emit (ScratchCreated t) ;;; ret t
  end.

(** A guarded call of the progress callback. *)
Definition report (cb : option callback) (downloaded total : Z) : M world unit :=
  match cb with
  | None => ret tt
  | Some f =>
      emit (Progress downloaded total) ;;;
      match f downloaded total with
      | Returns => ret tt
      | Raises => ret tt           (* except Exception: pass *)
      end
  end.

(** [f.write] on the file opened at [p]. *)
Definition store (p : path) (data : bytes) : M world unit :=
  fun w =>
    (Ok tt, match write_file p data (fs w) with
            | Some fs' => with_fs w fs'
            | None => w
            end).

(** The loop over [resp.iter_content]: [written] is what the file holds
    so far. *)
Fixpoint receive (cb : option callback) (out_path : path) (total : Z)
    (chunks : list bytes) (written : bytes) (downloaded : Z) : M world unit :=
  match chunks with
  | [] => ret tt
  | [] :: tl => receive cb out_path total tl written downloaded
  | chunk :: tl =>
      let downloaded' := downloaded + Z.of_nat (List.length chunk) in
      store out_path (written ++ chunk) ;;;
      report cb downloaded' total ;;;
      receive cb out_path total tl (written ++ chunk) downloaded'
  end.

(** Lines 106-133: reuse the cached archive or download it into the
    cache; the result is [temp_file]. *)
Definition fetch (E : env) (a : Feed.asset) (cb : option callback)
    (cached_file : path) (usable : bool) (remote_size : Z) : M world path :=
  if usable then
    report cb remote_size remote_size ;;; ret cached_file
  else
    emit (StreamRequest (Feed.url a)) ;;;
    match get E (Feed.url a) with
    | GetFails what => raise (RequestError what)
    | GetStatus what => raise (HTTPError what)
    | GetOk content_length chunks broken =>
        total <- match content_length with
                 | Length n => ret n
                 | Absent => ret remote_size
                 | Malformed => raise ValueError
                 end ;;
        on_fs (call (OSError cached_file) (write_file cached_file [])) ;;;
        receive cb cached_file total chunks [] 0 ;;;
        match broken with
        | Some what => raise (RequestError what)
        | None => ret cached_file
        end
    end.

Definition or_else {A : Type} (a b : option A) : option A :=
  match a with Some _ => a | None => b end.

Definition existing (candidate : path) (fs : node) : option path :=
  if isfile candidate fs then Some candidate else None.

(** Lines 148-170: where [7z.exe] is looked for. *)
Definition locate_7z (E : env) (fs : node) : option path :=
  let seven :=
    match meipass E with
    | Some (c :: m) => existing ((c :: m) ++ ["7z.exe"%string]) fs
    | _ => None
    end in
  let seven :=
    match seven with
    | None => if frozen E then existing (exe_dir E ++ ["7z.exe"%string]) fs
              else None
    | Some _ => seven
    end in
  let seven :=
    match seven with
    | None => or_else (which E "7z") (which E "7z.exe")
    | Some _ => seven
    end in
  match seven with
  | None =>
      let pf := Feed.get (program_files E) ["C:"%string; "Program Files"%string] in
      existing (pf ++ ["7-Zip"%string; "7z.exe"%string]) fs
  | Some _ => seven
  end.

Definition unpack (extract_dir : path) (content : entries) : M world unit :=
  fun w => (Ok tt, with_fs w (put_all extract_dir content (fs w))).

(** Lines 139-209: the three ways of extracting the archive. *)
Definition extract (E : env) (temp_file extract_dir : path) : M world unit :=
  emit (NativeAttempt temp_file) ;;;
  match native E temp_file with
  | Extracted content => unpack extract_dir content
  | NativeFails py7zr_error =>
      fs1 <- on_fs read ;;
      match locate_7z E fs1 with
      | Some seven =>
          emit (ToolAttempt seven) ;;;
          match tool E seven temp_file with
          | ToolOk content => unpack extract_dir content
          | ToolExit diag => raise (ToolFailed diag)
          | ToolExpired => raise ToolTimeout
          end
      | None =>
          emit ShellAttempt ;;;
          match shell E temp_file with
          | NoAutomation =>
              raise (ExtractFailed py7zr_error
                "pywin32 (win32com) is not installed; cannot use Explorer shell to extract .7z archives.")
          | NoNamespace =>
              raise (ExtractFailed py7zr_error
                "Shell cannot open archive (no shell extension for .7z).")
          | ShellFails why => raise (ExtractFailed py7zr_error why)
          | Copied content =>
              unpack extract_dir content ;;;
              fs2 <- on_fs read ;;
              match listdir extract_dir fs2 with
              | Some (_ :: _) => ret tt
              | _ => raise (ExtractFailed py7zr_error "Shell extraction timed out.")
              end
          end
      end
  end.

(** Lines 211-216: the root of the extracted content. *)
Definition choose_root (extract_dir : path) (entries : list string) (fs : node)
    : path :=
  match entries with
  | e :: _ =>
      if (Nat.eqb (List.length entries) 1 && isdir (extract_dir ++ [e]) fs)%bool
      then extract_dir ++ [e]
      else extract_dir
  | [] => extract_dir
  end.

(** The [finally] clause: the removal is tried and its failure ignored. *)
Definition cleanup (temp_dir : path) (w : world) : world :=
  match rmtree temp_dir (fs w) with
  | Some fs' => with_fs w fs'
  | None => w
  end.

(** Lines 135-218: extract the archive into the scratch folder and merge
    the extracted root into the installation. *)
Definition extract_and_merge (E : env) (install_dir temp_dir temp_file : path)
    : M world unit :=
  let extract_dir := temp_dir ++ ["extracted"%string] in
  on_fs (call (OSError extract_dir) (makedirs extract_dir)) ;;;
  extract E temp_file extract_dir ;;;
  fs1 <- on_fs read ;;
  match listdir extract_dir fs1 with
  | None => raise (OSError extract_dir)
  | Some entries =>
      on_fs (copy_contents (choose_root extract_dir entries fs1) install_dir)
  end.

(** The [try] block, lines 106-218. *)
Definition transfer (E : env) (a : Feed.asset) (install_dir : path)
    (cb : option callback) (cached_file : path) (usable : bool)
    (remote_size : Z) (temp_dir : path) : M world unit :=
  temp_file <- fetch E a cb cached_file usable remote_size ;;
  extract_and_merge E install_dir temp_dir temp_file.

(** The asset's name is one path component below [DOWNLOADS_DIR]. *)
Definition download_and_extract (E : env) (a : Feed.asset) (install_dir : path)
    (cb : option callback) : M world unit :=
  if unspecified install_dir then raise NoInstallDir
  else
    on_fs (call (OSError install_dir) (makedirs install_dir)) ;;;
    on_fs (call (OSError (DOWNLOADS_DIR E)) (makedirs (DOWNLOADS_DIR E))) ;;;
    remote_size <- remote_size_of E a ;;
    let cached_file := DOWNLOADS_DIR E ++ [Feed.name a] in
    fs0 <- on_fs read ;;
    let usable := use_cached cached_file remote_size fs0 in
    temp_dir <- mkdtemp E ;;
    finally
      (transfer E a install_dir cb cached_file usable remote_size temp_dir)
      (cleanup temp_dir).

(** *** [detect_installed_version] *)

Definition exe_candidates (install_dir : path) : list path :=
  [ install_dir ++ ["bin"%string; "FreeCAD.exe"%string];
    install_dir ++ ["bin"%string; "FreeCADCmd.exe"%string];
    install_dir ++ ["FreeCAD.exe"%string];
    install_dir ++ ["FreeCADCmd.exe"%string] ].

(** The loop over the candidates: the first one that exists, runs and
    prints something decides. *)
Fixpoint probe (E : env) (exes : list path)
    : M world (option string * option string) :=
  match exes with
  | [] => ret (None, None)
  | exe :: tl =>
      fs0 <- on_fs read ;;
      if isfile exe fs0 then
        emit (ProbeRun exe) ;;;
        match run_version E exe with
        | None => probe E tl                 (* except Exception: continue *)
        | Some p =>
            let out := PyStr.strip (Feed.get (stdout p) ""%string) in
            let err := PyStr.strip (Feed.get (stderr p) ""%string) in
            let text := if PyStr.truthy out then out else err in
            if PyStr.truthy text then
              let (version, rev) := ProbeText.parse text in
              ret (Some version, rev)
            else probe E tl
        end
      else probe E tl
  end.

Definition detect_installed_version (E : env) (install_dir : path)
    : M world (option string * option string) :=
  if unspecified install_dir then ret (None, None)
  else probe E (exe_candidates install_dir).

(** *** The persisted record *)

Definition load_last_version (w : world) : option string :=
  match saved w with
  | VersionRecord version => version
  | Unreadable => None
  | NoVersionFile => None
  end.

Definition save_last_version (version : string) : M world unit :=
  fun w =>
    (Ok tt, with_event (World (fs w) (VersionRecord (Some version)) (cfg w) (trace w))
                       (VersionSaved version)).

Definition load_config : M world config := fun w => (Ok (cfg w), w).

Definition save_config (c : config) : M world unit :=
  fun w => (Ok tt, with_event (World (fs w) (saved w) c (trace w)) ConfigSaved).

(** *** [run_update_thread] and [check_and_update] *)

(** How a check ends. *)
Inductive outcome : Type :=
| CheckFailed (e : exn)      (* the feed query raised *)
| NoBuildFound
| NoFolderSelected
| UpToDate
| Declined
| Succeeded
| Failed (e : exn).          (* the update raised *)

Definition error_title (e : exn) : string :=
  match e with
  | HTTPError _ => "HTTP Error"
  | _ => "Error"
  end.

(** The first, unguarded call [self.update_progress_safe(0, 1)]. *)
Definition announce (E : env) : M world unit :=
  emit (Progress 0 1) ;;;
  match ui_progress E 0 1 with
  | Returns => ret tt
  | Raises => raise CallbackRaised
  end.

(** The body of [worker], run to its end.  The refresh of the version
    label that the success path schedules on the UI loop is not part of
    it. *)
Definition run_update_thread (E : env) (a : Feed.asset) (install_dir : path)
    (latest_version : string) : world -> outcome * world :=
  fun w =>
    match ( announce E ;;;
            download_and_extract E a install_dir (Some (ui_progress E)) ;;;
            save_last_version latest_version ;;;
            c <- load_config ;;
            (* the two keys the program keeps in the file are both set *)
            save_config {| cfg_install_dir := Some install_dir;
                           cfg_last_version := Some latest_version |} ) w with
    | (Ok _, w') => (Succeeded, with_event w' (ShowInfo "Update complete"))
    | (Raise e, w') =>
        (Failed e, with_event w' (ShowError (error_title e) (Exception e)))
    end.

Definition same_version (latest : string) (current_saved : option string) : bool :=
  match current_saved with
  | Some v => String.eqb latest v
  | None => false
  end.

(** [install_dir] is the text of the folder field when the button is
    pressed. *)
Definition check_and_update (E : env) (install_dir : path)
    : world -> outcome * world :=
  fun w =>
    let w := with_event w FeedQuery in
    match Feed.get_latest_weekly_asset (feed E) with
    | Raise e => (CheckFailed e, with_event w (ShowError (error_title e) (Exception e)))
    | Ok None =>
        (NoBuildFound, with_event w (ShowError "Error" (Text "No weekly build found.")))
    | Ok (Some a) =>
        let latest_version := Feed.name a in
        let current_saved := load_last_version w in
        if unspecified install_dir then
          (NoFolderSelected,
           with_event w (ShowError "Error" (Text "Select the FreeCAD installation folder.")))
        else
          let (_, w) := detect_installed_version E install_dir w in
          if same_version latest_version current_saved then
            (UpToDate, with_event w (ShowInfo "Up to date"))
          else
            let w := with_event w AskYesNo in
            if confirm E then run_update_thread E a install_dir latest_version w
            else (Declined, w)
    end.

End Update.

(* ================================================================== *)
(** ** Vocabulary of the statements *)

Module Props.
Import Fs Update.

(** [p] is [q] or an ancestor of [q]. *)
Definition is_prefix (p q : path) : Prop := exists r, q = p ++ r.

Definition same_kind (a b : node) : Prop :=
  match a, b with
  | File _, File _ => True
  | Dir _, Dir _ => True
  | _, _ => False
  end.

(** Nothing that exists in [fs] is missing from [fs'] or has changed from
    file to directory or back. *)
Definition extends (fs fs' : node) : Prop :=
  forall q n, lookup q fs = Some n ->
    exists n', lookup q fs' = Some n' /\ same_kind n n'.

(** The same, for what is not at or below [p]. *)
Definition extends_outside (p : path) (fs fs' : node) : Prop :=
  forall q n, ~ is_prefix p q -> lookup q fs = Some n ->
    exists n', lookup q fs' = Some n' /\ same_kind n n'.

(** A tree as [os.listdir] can report it: no two entries of a directory
    have the same name. *)
Inductive well_formed : node -> Prop :=
| wf_file data : well_formed (File data)
| wf_dir es :
    NoDup (map fst es) ->
    (forall k v, In (k, v) es -> well_formed v) ->
    well_formed (Dir es).

(** The loop over the subdirectories in [walk], by itself. *)
Fixpoint walk_all (l : entries) (root dest_root : path) : M node unit :=
  match l with
  | [] => ret tt
  | (d, sub) :: tl =>
      walk sub (root ++ [d]) (dest_root ++ [d]) ;;; walk_all tl root dest_root
  end.

(** The paths, relative to the destination, that a merge of [src] may
    write: the path of every source file, and for a source file [r/f]
    also [r/f/f], where [shutil.copy2] puts it when the destination
    [r/f] is a directory. *)
Definition may_write (src : node) (rel : path) : Prop :=
  (exists data, lookup rel src = Some (File data))
  \/ (exists r f data, rel = r ++ [f; f] /\ lookup (r ++ [f]) src = Some (File data)).

(** No source file meets a directory of the same path in the
    destination. *)
Definition no_conflict (src : node) (dest : path) (fs : node) : Prop :=
  forall rel data, lookup rel src = Some (File data) -> isdir (dest ++ rel) fs = false.

(** Whatever [m] returns or raises, the state it leaves is related by [R]
    to the state it started from. *)
Definition preserves {S A : Type} (R : S -> S -> Prop) (m : M S A) : Prop :=
  forall s, R s (snd (m s)).

(** The naming convention in the spec's words: the literal prefix, a
    four-digit year, a dot, a two-digit month, a dot, a two-digit day and
    the literal suffix.  [after_weekly_name l] is what follows such a name
    at the start of [l], if [l] starts with one. *)
Fixpoint drop_literal (lit l : list ascii) : option (list ascii) :=
  match lit, l with
  | [], _ => Some l
  | a :: lit', c :: l' => if Ascii.eqb a c then drop_literal lit' l' else None
  | _ :: _, [] => None
  end.

Fixpoint drop_digits (n : nat) (l : list ascii) : option (list ascii) :=
  match n, l with
  | 0, _ => Some l
  | S n', c :: l' => if PyStr.is_digit c then drop_digits n' l' else None
  | S _, [] => None
  end.

Definition and_then {A B : Type} (o : option A) (f : A -> option B) : option B :=
  match o with Some a => f a | None => None end.

Definition after_weekly_name (l : list ascii) : option (list ascii) :=
  and_then (drop_literal (PyStr.chars "FreeCAD_weekly-") l) (fun l =>
  and_then (drop_digits 4 l) (fun l =>
  and_then (drop_literal (PyStr.chars ".") l) (fun l =>
  and_then (drop_digits 2 l) (fun l =>
  and_then (drop_literal (PyStr.chars ".") l) (fun l =>
  and_then (drop_digits 2 l) (fun l =>
  drop_literal (PyStr.chars "-Windows-x86_64-py311.7z") l)))))).

(** A continuation of the matcher that does not look at the character
    before the position. *)
Definition blind {R : Type} (k : PyRe.cursor -> PyRe.capture -> option R) : Prop :=
  forall pv pv' l g, k (PyRe.Cursor pv l) g = k (PyRe.Cursor pv' l) g.

(** The feed read as one list of assets, in feed order. *)
Definition all_assets (releases : list Feed.release_obj) : list Feed.asset_obj :=
  flat_map (fun r => Feed.get (Feed.rel_assets r) []) releases.

(** The test of the inner loop. *)
Definition weekly (a : Feed.asset_obj) : bool :=
  Feed.matches Feed.pattern (Feed.get (Feed.obj_name a) ""%string).

Definition to_asset (a : Feed.asset_obj) : Feed.asset :=
  Feed.Asset (Feed.get (Feed.obj_name a) ""%string) (Feed.obj_url a).

(** Requests that go over the network. *)
Definition is_network (e : event) : bool :=
  match e with
  | FeedQuery | HeadRequest _ | StreamRequest _ => true
  | _ => false
  end.

(** Events of the download: the streamed request and the progress
    reports. *)
Definition fetch_event (e : event) : Prop :=
  match e with
  | StreamRequest _ | Progress _ _ => True
  | _ => False
  end.

(** Events of [download_and_extract]. *)
Definition transfer_event (e : event) : Prop :=
  match e with
  | StreamRequest _ | Progress _ _
  | NativeAttempt _ | ToolAttempt _ | ShellAttempt => True
  | _ => False
  end.

Definition download_event (e : event) : Prop :=
  match e with
  | HeadRequest _ | ScratchCreated _ => True
  | _ => transfer_event e
  end.

(** [w'] is reached from [w] without touching the two JSON files, and
    the events added all satisfy [P]. *)
Definition quiet (P : event -> Prop) (w w' : world) : Prop :=
  saved w' = saved w /\ cfg w' = cfg w
  /\ exists evs, trace w' = trace w ++ evs /\ Forall P evs.

(** The same, and outside [p] the tree has only grown. *)
Definition frame (P : event -> Prop) (p : path) (w w' : world) : Prop :=
  quiet P w w' /\ extends_outside p (fs w) (fs w').

Definition progress_event (e : event) : Prop :=
  match e with Progress _ _ => True | _ => False end.

Definition probe_event (e : event) : Prop :=
  match e with ProbeRun _ => True | _ => False end.


(** The steps of the worker before the record is written. *)
Definition update_body (E : env) (a : Feed.asset) (install_dir : path)
    : M world unit :=
  announce E ;;; download_and_extract E a install_dir (Some (ui_progress E)).

(** The state in which the user is asked, when the check gets there. *)
Definition asked (E : env) (install_dir : path) (w : world) : world :=
  with_event (snd (detect_installed_version E install_dir (with_event w FeedQuery)))
             AskYesNo.

(** A callback that never raises. *)
Definition well_behaved : callback := fun _ _ => Returns.

End Props.

(* ================================================================== *)
(** ** The label of the installed version, and the vocabulary of the
    further statements *)

Module Shapes.
Import PyRe.

(** A pattern without a capture group. *)
Fixpoint groupless (r : regex) : bool :=
  match r with
  | Grp _ => false
  | Cat r1 r2 => (groupless r1 && groupless r2)%bool
  | Opt r1 => groupless r1
  | Chr _ | Rep _ _ _ | Bol | Eol | Wb | Emp => true
  end.

(** A pattern with exactly one capture group, which is not optional and
    holds one or more characters of the class [cls]. *)
Inductive one_group (cls : ascii -> bool) : regex -> Prop :=
| group_here lo hi : 1 <= lo -> one_group cls (Grp (Rep cls lo hi))
| group_right r1 r2 :
    groupless r1 = true -> one_group cls r2 -> one_group cls (Cat r1 r2)
| group_left r1 r2 :
    one_group cls r1 -> groupless r2 = true -> one_group cls (Cat r1 r2).

(** The characters the version token cannot hold. *)
Definition token_char (c : ascii) : bool :=
  negb (PyStr.is_space c || one_of ",()" c).

End Shapes.

Module Probing.
Import PyStr Fs Update.

(** The text a candidate gives: [None] when its run raises or prints
    nothing but white space. *)
Definition printed (E : env) (exe : path) : option string :=
  match run_version E exe with
  | None => None
  | Some p =>
      let out := strip (Feed.get (stdout p) ""%string) in
      let err := strip (Feed.get (stderr p) ""%string) in
      let text := if truthy out then out else err in
      if truthy text then Some text else None
  end.

End Probing.

Module Reports.
Import Fs Update.

(** A chunk that is written: [if chunk:]. *)
Definition not_empty (chunk : bytes) : bool :=
  match chunk with [] => false | _ :: _ => true end.

(** The total the download reports: the GET's own length, or else the
    size the HEAD request gave. *)
Definition announced (h : header) (remote_size : Z) : Z :=
  match h with Length n => n | _ => remote_size end.

End Reports.

Module Ui.
Import PyStr Fs Update.

(** Python truthiness of a value that is a [str] or [None]. *)
Definition truthy_opt (o : option string) : bool :=
  match o with Some s => truthy s | None => false end.

(** [a or b]. *)
Definition py_or (a b : option string) : option string :=
  if truthy_opt a then a else b.

(** Lines 320-335: the text the label is given. *)
Definition update_installed_version_label (E : env) (install_dir : path)
    : M world string :=
  found <- detect_installed_version E install_dir ;;
  let (ver, rev) := found in
  if truthy_opt ver then
    if truthy_opt rev then
      ret ("Installed version: " ++ Feed.get ver "" ++ " (rev: "
             ++ Feed.get rev "" ++ ")")%string
    else ret ("Installed version: " ++ Feed.get ver "")%string
  else
    c <- load_config ;;
    w <- read ;;
    let last := py_or (cfg_last_version c) (load_last_version w) in
    if truthy_opt last then
      ret ("Installed version (from record): " ++ Feed.get last "")%string
    else ret "Installed version: (not detected)"%string.

End Ui.

Module Checks.
Import Fs Update.

(** The check did not start an update. *)
Definition not_started (o : outcome) : bool :=
  match o with
  | Succeeded | Failed _ => false
  | _ => true
  end.

(** Nothing but events that are no requests lies between [w] and [w']. *)
Definition idle (w w' : world) : Prop :=
  fs w' = fs w /\ saved w' = saved w /\ cfg w' = cfg w
  /\ filter Props.is_network (trace w') = filter Props.is_network (trace w).

(** A message box. *)
Definition is_box (e : event) : bool :=
  match e with
  | ShowError _ _ | ShowInfo _ => true
  | _ => false
  end.

(** The message box that tells how a check ended. *)
Definition box_of (o : outcome) : list event :=
  match o with
  | CheckFailed e => [ShowError (error_title e) (Exception e)]
  | NoBuildFound => [ShowError "Error" (Text "No weekly build found.")]
  | NoFolderSelected =>
      [ShowError "Error" (Text "Select the FreeCAD installation folder.")]
  | UpToDate => [ShowInfo "Up to date"]
  | Declined => []
  | Succeeded => [ShowInfo "Update complete"]
  | Failed e => [ShowError (error_title e) (Exception e)]
  end.

End Checks.

Module Keeping.
Import Fs Update.

(** Errors that are raised before the merge starts. *)
Definition before_merge (e : exn) : bool :=
  match e with
  | NoInstallDir | RequestError _ | HTTPError _ | ValueError
  | ToolFailed _ | ToolTimeout | ExtractFailed _ _ => true
  | OSError _ | CopyFailed _ _ | CallbackRaised => false
  end.

(** Errors of a request that was answered badly: they are raised before
    the cache file is opened. *)
Definition refused (e : exn) : bool :=
  match e with
  | HTTPError _ | ValueError => true
  | _ => false
  end.

(** Every file whose path is not excepted holds the same bytes. *)
Definition keeps_files (except : path -> Prop) (fs fs' : node) : Prop :=
  forall q data, lookup q fs = Some (File data) -> ~ except q ->
                 lookup q fs' = Some (File data).

Definition keeps (except : path -> Prop) (w w' : world) : Prop :=
  keeps_files except (fs w) (fs w').

(** When [m] raises an error of the kind [P], the state it leaves is
    related by [R] to the one it started from. *)
Definition unless {A : Type} (P : exn -> bool) (R : world -> world -> Prop)
    (m : M world A) : Prop :=
  forall w e, fst (m w) = Raise e -> P e = true -> R w (snd (m w)).

(** [m] raises only errors of the kind [P]. *)
Definition raises_only {S A : Type} (P : exn -> bool) (m : M S A) : Prop :=
  forall s e, fst (m s) = Raise e -> P e = true.

(** No path is excepted. *)
Definition nowhere (q : path) : Prop := False.

End Keeping.

Module Clash.
Import Fs Update.




End Clash.

Module Order.
Import Fs Update.

(** Events of the extraction. *)
Definition extract_event (e : event) : Prop :=
  match e with
  | NativeAttempt _ | ToolAttempt _ | ShellAttempt => True
  | _ => False
  end.

(** The size a HEAD request gives, 0 when it gives none. *)
Definition reported_size (h : head_response) : Z :=
  match h with
  | HeadOk (Length n) => n
  | _ => 0%Z
  end.

(** The events of the fetch: the cached archive is reused, with at most
    one report of its size, or the archive is requested and the reports
    of the download follow. *)
Definition fetched (u : option string) (size : Z) (evs : list event) : Prop :=
  (size <> 0%Z /\ (evs = [] \/ evs = [Progress size size]))
  \/ exists rest, evs = StreamRequest u :: rest /\ Forall Props.progress_event rest.

(** The events of one call of [download_and_extract], in order. *)
Definition in_order (u : option string) (size : Z) (evs : list event) : Prop :=
  evs = []
  \/ evs = [HeadRequest u]
  \/ exists t pre post,
       evs = HeadRequest u :: ScratchCreated t :: pre ++ post
       /\ fetched u size pre /\ Forall extract_event post.

End Order.

(* ================================================================== *)
(** ** Concrete feeds, trees and environments *)

Module Sample.
Import Fs Update.

Definition weekly_name : string :=
  "FreeCAD_weekly-2024.03.15-Windows-x86_64-py311.7z".

Definition line_feed : string := String "010"%char EmptyString.

Definition weekly_url : option string :=
  Some "https://github.com/FreeCAD/FreeCAD/releases/download/weekly/a.7z".

Definition feed_of (name : string) : Feed.response :=
  Feed.Json [ Feed.ReleaseObj (Some [ Feed.AssetObj (Some name) weekly_url ]) ].

Definition weekly_asset : Feed.asset := Feed.Asset weekly_name weekly_url.

Definition probe_text : string := "FreeCAD 0.21.1, Revision: abc1234".

Definition b (n : N) : Byte.byte :=
  match Byte.of_N n with Some x => x | None => Byte.x00 end.

Definition old_bytes : bytes := [b 111; b 108; b 100].
Definition new_bytes : bytes := [b 110; b 101; b 119].

(** The machine before the first run: the program's folder, the temporary
    folder, and an installation with a file of the user's. *)
Definition install_dir : path := ["C:"; "FreeCAD"].
Definition scratch : path := ["C:"; "Temp"; "freecad_updater_k3j2x9qa"].
Definition cache_file : path := ["C:"; "updater"; "downloads"; weekly_name].

Definition disk : node :=
  Dir [ ("C:", Dir [ ("updater", Dir []);
                     ("Temp", Dir []);
                     ("FreeCAD", Dir [ ("user.cfg", File old_bytes) ]) ]) ].


(** An archive that wraps its content in one top-level folder. *)
Definition archive_content : entries :=
  [ ("FreeCAD_weekly",
     Dir [ ("bin", Dir [ ("FreeCAD.exe", File new_bytes) ]);
           ("README", File new_bytes) ]) ].

(** An extraction folder with that content in it. *)
Definition extracted : path := ["C:"; "Temp"; "x"; "extracted"].

Definition disk_extracted (content : entries) : node :=
  Dir [ ("C:", Dir [ ("Temp", Dir [ ("x", Dir [ ("extracted", Dir content) ]) ]) ]) ].

(** A run in which everything works: the archive arrives in two chunks
    and py7zr extracts it. *)
Definition env_ok (ui : callback) (answer : bool) : env := {|
  cwd := ["C:"; "updater"];
  tmpdir := ["C:"; "Temp"];
  tmp_suffixes := ["k3j2x9qa"];
  feed := feed_of weekly_name;
  head := fun _ => HeadOk (Length 3);
  get := fun _ => GetOk (Length 3) [[b 55; b 122]; []; [b 188]] None;
  native := fun _ => Extracted archive_content;
  meipass := None;
  frozen := false;
  exe_dir := ["C:"; "updater"];
  which := fun _ => None;
  program_files := None;
  tool := fun _ _ => ToolExit "";
  shell := fun _ => NoAutomation;
  run_version := fun _ => Some (ProbeOutput (Some probe_text) None);
  ui_progress := ui;
  confirm := answer
|}.

(** py7zr cannot read the archive; what [7z.exe] and the shell do is
    given. *)
Definition env_fallback (t : tool_result) (s : shell_result) : env := {|
  cwd := ["C:"; "updater"];
  tmpdir := ["C:"; "Temp"];
  tmp_suffixes := ["k3j2x9qa"];
  feed := feed_of weekly_name;
  head := fun _ => HeadOk (Length 3);
  get := fun _ => GetOk (Length 3) [[b 55; b 122]; []; [b 188]] None;
  native := fun _ => NativeFails "Bad7zFile";
  meipass := None;
  frozen := false;
  exe_dir := ["C:"; "updater"];
  which := fun _ => None;
  program_files := None;
  tool := fun _ _ => t;
  shell := fun _ => s;
  run_version := fun _ => None;
  ui_progress := fun _ _ => Returns;
  confirm := true
|}.

(** The machine after an installation: the executable is in [bin]. *)
Definition disk_installed : node :=
  Dir [ ("C:", Dir [ ("updater", Dir []);
                     ("Temp", Dir []);
                     ("FreeCAD",
                      Dir [ ("user.cfg", File old_bytes);
                            ("bin", Dir [ ("FreeCAD.exe", File new_bytes) ]) ]) ]) ].

(** The machine with a valid cached archive of three bytes. *)
Definition disk_cached : node :=
  Dir [ ("C:", Dir [ ("updater",
                      Dir [ ("downloads",
                             Dir [ (weekly_name, File [b 55; b 122; b 188]) ]) ]);
                     ("Temp", Dir []);
                     ("FreeCAD", Dir [ ("user.cfg", File old_bytes) ]) ]) ].

(** An extracted file [notes], and an installation where [notes] is a
    folder that holds a file [notes]. *)
Definition disk_conflict : node :=
  Dir [ ("C:", Dir [ ("Temp",
                      Dir [ ("x", Dir [ ("extracted",
                                         Dir [ ("notes", File new_bytes) ]) ]) ]);
                     ("FreeCAD",
                      Dir [ ("notes", Dir [ ("notes", File old_bytes) ]) ]) ]) ].

Definition world_of (fs : node) (v : version_file) : world :=
  World fs v (Config None None) [].

End Sample.
(* ================================================================== *)
(** ** More concrete trees *)

Module Trees.
Import Fs Update.

(** An extracted build: a file and a folder with the executable. *)
Definition payload : node :=
  Dir [ ("README", File Sample.new_bytes);
        ("bin", Dir [ ("FreeCAD.exe", File Sample.new_bytes) ]) ].

(** The build in its extraction folder, beside an installation with a
    file of the user's. *)
Definition disk_to_merge : node :=
  Dir [ ("C:", Dir [ ("Temp", Dir [ ("x", Dir [ ("extracted", payload) ]) ]);
                     ("FreeCAD", Dir [ ("user.cfg", File Sample.old_bytes) ]) ]) ].


(** The same, with no installation folder yet. *)
Definition disk_fresh : node :=
  Dir [ ("C:", Dir [ ("Temp", Dir [ ("x", Dir [ ("extracted", payload) ]) ]) ]) ].

(** An environment that differs in what the streamed GET gives. *)
Definition with_get (E : env) (g : get_response) : env := {|
  cwd := cwd E;
  tmpdir := tmpdir E;
  tmp_suffixes := tmp_suffixes E;
  feed := feed E;
  head := head E;
  get := fun _ => g;
  native := native E;
  meipass := meipass E;
  frozen := frozen E;
  exe_dir := exe_dir E;
  which := which E;
  program_files := program_files E;
  tool := tool E;
  shell := shell E;
  run_version := run_version E;
  ui_progress := ui_progress E;
  confirm := confirm E
|}.

(** The machine with the scratch folder made and still empty. *)
Definition disk_scratch : node :=
  Dir [ ("C:", Dir [ ("updater", Dir []);
                     ("Temp", Dir [ ("freecad_updater_k3j2x9qa", Dir []) ]);
                     ("FreeCAD", Dir [ ("user.cfg", File Sample.old_bytes) ]) ]) ].

(** What the sample archive wraps. *)
Definition wrapped : entries :=
  [ ("bin", Dir [ ("FreeCAD.exe", File Sample.new_bytes) ]);
    ("README", File Sample.new_bytes) ].

(** An environment that differs in what the HEAD request gives. *)
Definition with_head (E : env) (h : head_response) : env := {|
  cwd := cwd E;
  tmpdir := tmpdir E;
  tmp_suffixes := tmp_suffixes E;
  feed := feed E;
  head := fun _ => h;
  get := get E;
  native := native E;
  meipass := meipass E;
  frozen := frozen E;
  exe_dir := exe_dir E;
  which := which E;
  program_files := program_files E;
  tool := tool E;
  shell := shell E;
  run_version := run_version E;
  ui_progress := ui_progress E;
  confirm := confirm E
|}.

(** The HEAD request fails. *)
Definition env_no_size : env :=
  with_head (Sample.env_ok (fun _ _ => Returns) true) HeadFails.

(** The connection is reset after the first two bytes. *)
Definition env_reset : env :=
  with_get (Sample.env_ok (fun _ _ => Returns) true)
    (GetOk (Length 3) [[Sample.b 55; Sample.b 122]] (Some "connection reset")).

(** The server answers the GET with an error status. *)
Definition env_refused : env :=
  with_get (Sample.env_ok (fun _ _ => Returns) true) (GetStatus "404 Not Found").

(** The machine with a cached archive that is too short. *)
Definition disk_stale : node :=
  Dir [ ("C:", Dir [ ("updater",
                      Dir [ ("downloads",
                             Dir [ (Sample.weekly_name,
                                    File [Sample.b 55; Sample.b 122]) ]) ]);
                     ("Temp", Dir []);
                     ("FreeCAD", Dir [ ("user.cfg", File Sample.old_bytes) ]) ]) ].

End Trees.

(* ================================================================== *)
(** ** Facts about the filesystem operations *)

Module FsFacts.
Import Fs Props.

Lemma assoc_set_same k v es : assoc k (assoc_set k v es) = Some v.
Proof.
  induction es as [|[k' v'] tl IH]; simpl.
  - now rewrite String.eqb_refl.
  - destruct (String.eqb k k') eqn:Hk; simpl.
    + now rewrite String.eqb_refl.
    + now rewrite Hk.
Qed.

Lemma assoc_set_other k k' v es :
  k' <> k -> assoc k' (assoc_set k v es) = assoc k' es.
Proof.
  intros Hne. induction es as [|[k0 v0] tl IH]; simpl.
  - destruct (String.eqb k' k) eqn:Hk; [apply String.eqb_eq in Hk; contradiction|reflexivity].
  - destruct (String.eqb k k0) eqn:Hk; simpl.
    + apply String.eqb_eq in Hk; subst k0.
      destruct (String.eqb k' k) eqn:Hk'; [apply String.eqb_eq in Hk'; contradiction|reflexivity].
    + destruct (String.eqb k' k0); [reflexivity|exact IH].
Qed.


Lemma assoc_del_other k k' es :
  k' <> k -> assoc k' (assoc_del k es) = assoc k' es.
Proof.
  intros Hne. induction es as [|[k0 v0] tl IH]; simpl; [reflexivity|].
  destruct (String.eqb k k0) eqn:Hk; simpl.
  - apply String.eqb_eq in Hk; subst k0.
    destruct (String.eqb k' k) eqn:Hk'; [apply String.eqb_eq in Hk'; contradiction|exact IH].
  - destruct (String.eqb k' k0); [reflexivity|exact IH].
Qed.

Lemma lookup_app p q n :
  lookup (p ++ q) n =
  match lookup p n with Some m => lookup q m | None => None end.
Proof.
  revert n; induction p as [|c p IH]; intros n; simpl; [reflexivity|].
  destruct n as [d|es]; [reflexivity|].
  destruct (assoc c es); [apply IH|reflexivity].
Qed.

Lemma lookup_prefix p q n m :
  is_prefix p q -> lookup q n = Some m -> exists m', lookup p n = Some m'.
Proof.
  intros [r ->] H. rewrite lookup_app in H.
  destruct (lookup p n) as [m'|]; [now exists m'|discriminate].
Qed.

Lemma same_kind_refl n : same_kind n n.
Proof. destruct n; exact I. Qed.

Lemma same_kind_trans a b c : same_kind a b -> same_kind b c -> same_kind a c.
Proof. destruct a, b, c; simpl; tauto. Qed.

Lemma extends_refl fs : extends fs fs.
Proof. intros q n H. exists n. split; [exact H|apply same_kind_refl]. Qed.

Lemma extends_trans a b c : extends a b -> extends b c -> extends a c.
Proof.
  intros Hab Hbc q n H.
  destruct (Hab q n H) as (n1 & H1 & K1).
  destruct (Hbc q n1 H1) as (n2 & H2 & K2).
  exists n2. split; [exact H2|eapply same_kind_trans; eassumption].
Qed.


Lemma extends_isdir a b p : extends a b -> isdir p a = true -> isdir p b = true.
Proof.
  unfold isdir. intros H Hf.
  destruct (lookup p a) as [[d|es]|] eqn:Hl; try discriminate.
  destruct (H p _ Hl) as (n' & -> & K). destruct n'; [destruct K|reflexivity].
Qed.

(** Replacing one entry of a directory by a node of the same kind. *)
Lemma extends_entry c es m m' :
  assoc c es = Some m -> extends m m' ->
  extends (Dir es) (Dir (assoc_set c m' es)).
Proof.
  intros Hc Hm [|c' q] n H; simpl in *.
  - injection H as <-. eexists; split; [reflexivity|exact I].
  - destruct (String.eqb c' c) eqn:Hcc.
    + apply String.eqb_eq in Hcc; subst c'.
      rewrite Hc in H. rewrite assoc_set_same. apply Hm, H.
    + apply String.eqb_neq in Hcc. rewrite (assoc_set_other _ _ Hcc).
      destruct (assoc c' es); [|discriminate].
      exists n. split; [exact H|apply same_kind_refl].
Qed.

(** Adding an entry that was not there. *)
Lemma extends_new_entry c es m' :
  assoc c es = None -> extends (Dir es) (Dir (assoc_set c m' es)).
Proof.
  intros Hc [|c' q] n H; simpl in *.
  - injection H as <-. eexists; split; [reflexivity|exact I].
  - destruct (String.eqb c' c) eqn:Hcc.
    + apply String.eqb_eq in Hcc; subst c'. rewrite Hc in H. discriminate.
    + apply String.eqb_neq in Hcc. rewrite (assoc_set_other _ _ Hcc).
      destruct (assoc c' es); [|discriminate].
      exists n. split; [exact H|apply same_kind_refl].
Qed.

Lemma write_file_extends p data fs fs' :
  write_file p data fs = Some fs' -> extends fs fs'.
Proof.
  revert fs fs'; induction p as [|c p IH]; intros [d|es] fs' H; simpl in H;
    try discriminate.
  - injection H as <-. intros [|c q] n Hq; simpl in *; [|discriminate].
    injection Hq as <-. eexists; split; [reflexivity|exact I].
  - destruct (assoc c es) as [m|] eqn:Hc.
    + destruct (write_file p data m) as [m'|] eqn:Hw; [|discriminate].
      injection H as <-. eapply extends_entry; eauto.
    + destruct p; [|discriminate]. injection H as <-.
      now apply extends_new_entry.
Qed.

Lemma write_file_lookup p data fs fs' :
  write_file p data fs = Some fs' -> lookup p fs' = Some (File data).
Proof.
  revert fs fs'; induction p as [|c p IH]; intros [d|es] fs' H; simpl in H;
    try discriminate.
  - now injection H as <-.
  - destruct (assoc c es) as [m|] eqn:Hc.
    + destruct (write_file p data m) as [m'|] eqn:Hw; [|discriminate].
      injection H as <-. simpl. rewrite assoc_set_same. eapply IH, Hw.
    + destruct p; [|discriminate]. injection H as <-.
      simpl. now rewrite assoc_set_same.
Qed.

(** A path that holds a file can be written again. *)
Lemma write_file_again p data d0 fs :
  lookup p fs = Some (File d0) -> exists fs', write_file p data fs = Some fs'.
Proof.
  revert fs; induction p as [|c p IH]; intros fs H; simpl in H.
  - injection H as ->. simpl. eauto.
  - destruct fs as [d|es]; [discriminate|].
    destruct (assoc c es) as [m|] eqn:Hc; [|discriminate].
    destruct (IH _ H) as [m' Hm]. simpl. rewrite Hc, Hm. eauto.
Qed.

Lemma makedirs_extends p fs fs' : makedirs p fs = Some fs' -> extends fs fs'.
Proof.
  revert fs fs'; induction p as [|c p IH]; intros [d|es] fs' H; simpl in H;
    try discriminate.
  - injection H as <-. apply extends_refl.
  - destruct (assoc c es) as [m|] eqn:Hc.
    + destruct (makedirs p m) as [m'|] eqn:Hw; [|discriminate].
      injection H as <-. eapply extends_entry; eauto.
    + destruct (makedirs p (Dir [])) as [m'|]; [|discriminate].
      injection H as <-. now apply extends_new_entry.
Qed.

Lemma makedirs_isdir p fs fs' : makedirs p fs = Some fs' -> isdir p fs' = true.
Proof.
  unfold isdir.
  revert fs fs'; induction p as [|c p IH]; intros [d|es] fs' H; simpl in H;
    try discriminate.
  - now injection H as <-.
  - destruct (makedirs p _) as [m'|] eqn:Hw; [|discriminate].
    injection H as <-. simpl. rewrite assoc_set_same. eapply IH, Hw.
Qed.

Lemma write_file_dir p data fs :
  isdir p fs = true -> write_file p data fs = None.
Proof.
  unfold isdir.
  revert fs; induction p as [|c p IH]; intros [d|es] H; simpl in *;
    try discriminate; try reflexivity.
  destruct (assoc c es) as [m|]; [|discriminate].
  now rewrite (IH _ H).
Qed.

Lemma extends_is_outside p fs fs' : extends fs fs' -> extends_outside p fs fs'.
Proof. intros H q n _ Hq. apply H, Hq. Qed.

Lemma outside_refl p fs : extends_outside p fs fs.
Proof. apply extends_is_outside, extends_refl. Qed.

Lemma outside_trans p a b c :
  extends_outside p a b -> extends_outside p b c -> extends_outside p a c.
Proof.
  intros Hab Hbc q n Hp H.
  destruct (Hab q n Hp H) as (n1 & H1 & K1).
  destruct (Hbc q n1 Hp H1) as (n2 & H2 & K2).
  exists n2. split; [exact H2|eapply same_kind_trans; eassumption].
Qed.

Lemma prefix_cons c p q : is_prefix p q -> is_prefix (c :: p) (c :: q).
Proof. intros [r ->]. now exists r. Qed.

Lemma prefix_nil q : is_prefix [] q.
Proof. now exists q. Qed.

Lemma outside_entry c p es m m' :
  assoc c es = Some m -> extends_outside p m m' ->
  extends_outside (c :: p) (Dir es) (Dir (assoc_set c m' es)).
Proof.
  intros Hc Hm [|c' q] n Hp H; simpl in *.
  - injection H as <-. eexists; split; [reflexivity|exact I].
  - destruct (String.eqb c' c) eqn:Hcc.
    + apply String.eqb_eq in Hcc; subst c'.
      rewrite Hc in H. rewrite assoc_set_same. apply Hm; [|exact H].
      intros Hq. apply Hp. now apply prefix_cons.
    + apply String.eqb_neq in Hcc. rewrite (assoc_set_other _ _ Hcc).
      destruct (assoc c' es); [|discriminate].
      exists n. split; [exact H|apply same_kind_refl].
Qed.

Lemma put_all_outside p content fs : extends_outside p fs (put_all p content fs).
Proof.
  revert fs; induction p as [|c p IH]; intros [d|es]; simpl;
    try apply outside_refl.
  - intros q n Hp. destruct Hp. apply prefix_nil.
  - destruct (assoc c es) as [m|] eqn:Hc; [|apply outside_refl].
    eapply outside_entry; eauto.
Qed.

Lemma rmtree_outside p fs fs' : rmtree p fs = Some fs' -> extends_outside p fs fs'.
Proof.
  revert fs fs'; induction p as [|c p IH]; intros [d|es] fs' H; simpl in H;
    try discriminate.
  destruct (assoc c es) as [m|] eqn:Hc; [|discriminate].
  destruct p as [|c1 p1].
  - destruct m as [d|sub]; [discriminate|]. injection H as <-.
    intros [|c' q] n Hp Hq; simpl in *.
    + injection Hq as <-. eexists; split; [reflexivity|exact I].
    + destruct (String.eqb c' c) eqn:Hcc.
      * apply String.eqb_eq in Hcc; subst c'. destruct Hp. now exists q.
      * apply String.eqb_neq in Hcc. rewrite (assoc_del_other _ Hcc).
        destruct (assoc c' es); [|discriminate].
        exists n. split; [exact Hq|apply same_kind_refl].
  - destruct (rmtree (c1 :: p1) m) as [m'|] eqn:Hr; [|discriminate].
    injection H as <-. eapply outside_entry; eauto.
Qed.



Lemma mkdir_fresh p fs fs' : mkdir p fs = Some fs' -> lookup p fs = None.
Proof.
  unfold mkdir. destruct (lookup p fs); [discriminate|reflexivity].
Qed.

Lemma mkdir_isdir p fs fs' : mkdir p fs = Some fs' -> isdir p fs' = true.
Proof.
  unfold mkdir. destruct (lookup p fs); [discriminate|].
  destruct (isdir (removelast p) fs); [apply makedirs_isdir|discriminate].
Qed.

Lemma mkdir_extends p fs fs' : mkdir p fs = Some fs' -> extends fs fs'.
Proof.
  unfold mkdir. destruct (lookup p fs); [discriminate|].
  destruct (isdir (removelast p) fs); [apply makedirs_extends|discriminate].
Qed.

Lemma copy2_extends base data dst fs fs' :
  copy2 base data dst fs = Some fs' -> extends fs fs'.
Proof. unfold copy2. apply write_file_extends. Qed.

(** Induction on trees, with the hypothesis for every entry of a
    directory. *)
Lemma node_induction (P : node -> Prop) :
  (forall data, P (File data)) ->
  (forall es, Forall (fun kv => P (snd kv)) es -> P (Dir es)) ->
  forall n, P n.
Proof.
  intros Hf Hd. fix IH 1. intros [data|es]; [apply Hf|].
  apply Hd. induction es as [|[k v] tl IHl]; constructor.
  - apply IH.
  - exact IHl.
Qed.

Section Preserve.
Context {S : Type} (R : S -> S -> Prop).
Hypothesis R_refl : forall s, R s s.
Hypothesis R_trans : forall a b c, R a b -> R b c -> R a c.

Lemma preserves_ret A (a : A) : preserves R (ret a).
Proof. intros s. apply R_refl. Qed.

Lemma preserves_raise A e : preserves R (@raise S A e).
Proof. intros s. apply R_refl. Qed.

Lemma preserves_read : preserves R (@read S).
Proof. intros s. apply R_refl. Qed.

Lemma preserves_bind A B (m : M S A) (f : A -> M S B) :
  preserves R m -> (forall a, preserves R (f a)) -> preserves R (bind m f).
Proof.
  intros Hm Hf s. unfold bind. specialize (Hm s).
  destruct (m s) as [[a|e] s1]; simpl in *; [|exact Hm].
  eapply R_trans; [exact Hm|apply Hf].
Qed.

Lemma preserves_finally A (m : M S A) (cleanup : S -> S) :
  preserves R m -> (forall s, R s (cleanup s)) -> preserves R (finally m cleanup).
Proof.
  intros Hm Hc s. unfold finally. specialize (Hm s).
  destruct (m s) as [r s1]; simpl in *.
  eapply R_trans; [exact Hm|apply Hc].
Qed.

End Preserve.

Lemma preserves_call (R : node -> node -> Prop) e f :
  (forall fs, R fs fs) -> (forall fs fs', f fs = Some fs' -> R fs fs') ->
  preserves R (call e f).
Proof.
  intros Hr Hf fs. unfold call. destruct (f fs) eqn:H; simpl; auto.
Qed.

Lemma copy_files_extends es root dest_root :
  preserves extends (copy_files es root dest_root).
Proof.
  induction es as [|[f [data|sub]] tl IH]; simpl.
  - apply preserves_ret, extends_refl.
  - apply preserves_bind; [apply extends_trans| |intros _; exact IH].
    apply preserves_call; [apply extends_refl|apply copy2_extends].
  - exact IH.
Qed.

Lemma walk_extends src : forall root dest_root,
  preserves extends (walk src root dest_root).
Proof.
  induction src as [data|es IH] using node_induction; intros root dest_root;
    simpl.
  - apply preserves_ret, extends_refl.
  - apply preserves_bind; [apply extends_trans| |intros _].
    { apply preserves_call; [apply extends_refl|apply makedirs_extends]. }
    apply preserves_bind; [apply extends_trans|apply copy_files_extends|intros _].
    induction IH as [|[d sub] tl Hsub Htl IHl].
    + apply preserves_ret, extends_refl.
    + apply preserves_bind; [apply extends_trans|apply Hsub|intros _; exact IHl].
Qed.

Lemma copy_contents_extends src_dir dst_dir :
  preserves extends (copy_contents src_dir dst_dir).
Proof.
  intros fs. unfold copy_contents.
  destruct (lookup src_dir fs); [apply walk_extends|apply extends_refl].
Qed.

End FsFacts.

(* ================================================================== *)
(** ** What each stage of the pipeline leaves alone *)

Module WorldFacts.
Import Fs Update Props FsFacts.

Lemma quiet_refl P w : quiet P w w.
Proof.
  repeat split. exists []. split; [now rewrite app_nil_r|constructor].
Qed.

Lemma quiet_trans P a b c : quiet P a b -> quiet P b c -> quiet P a c.
Proof.
  intros (S1 & C1 & e1 & T1 & F1) (S2 & C2 & e2 & T2 & F2).
  repeat split; try congruence.
  exists (e1 ++ e2). split.
  - now rewrite T2, T1, app_assoc.
  - apply Forall_app. now split.
Qed.

Lemma quiet_weaken (P Q : event -> Prop) w w' :
  (forall e, P e -> Q e) -> quiet P w w' -> quiet Q w w'.
Proof.
  intros HPQ (S1 & C1 & evs & T1 & F1). repeat split; try assumption.
  exists evs. split; [exact T1|]. eapply Forall_impl; eauto.
Qed.

Lemma frame_refl P p w : frame P p w w.
Proof. split; [apply quiet_refl|apply outside_refl]. Qed.

Lemma frame_trans P p a b c : frame P p a b -> frame P p b c -> frame P p a c.
Proof.
  intros [Q1 O1] [Q2 O2]. split;
    [eapply quiet_trans|eapply outside_trans]; eassumption.
Qed.

Lemma frame_weaken (P Q : event -> Prop) p w w' :
  (forall e, P e -> Q e) -> frame P p w w' -> frame Q p w w'.
Proof. intros H [Hq Ho]. split; [eapply quiet_weaken; eauto|exact Ho]. Qed.

Lemma quiet_with_fs P w fs' : quiet P w (with_fs w fs').
Proof.
  repeat split. exists []. split; [simpl; now rewrite app_nil_r|constructor].
Qed.

Lemma quiet_with_event (P : event -> Prop) w e : P e -> quiet P w (with_event w e).
Proof.
  intros He. repeat split. exists [e]. split; [reflexivity|].
  constructor; [exact He|constructor].
Qed.

Lemma frame_emit (P : event -> Prop) p e : P e -> preserves (frame P p) (emit e).
Proof.
  intros He w. split; [now apply quiet_with_event|apply outside_refl].
Qed.

(** Filesystem code that only lets the tree grow outside [p]. *)
Lemma frame_on_fs P p A (m : M node A) :
  preserves (extends_outside p) m -> preserves (frame P p) (on_fs m).
Proof.
  intros Hm w. unfold on_fs. specialize (Hm (fs w)).
  destruct (m (fs w)) as [r fs']; simpl in *.
  split; [apply quiet_with_fs|exact Hm].
Qed.

Lemma frame_call P p e f :
  (forall fs fs', f fs = Some fs' -> extends fs fs') ->
  preserves (frame P p) (on_fs (call e f)).
Proof.
  intros Hf. apply frame_on_fs, preserves_call.
  - apply outside_refl.
  - intros fs fs' H. apply extends_is_outside, Hf, H.
Qed.

Lemma frame_read P p : preserves (frame P p) (on_fs read).
Proof. apply frame_on_fs, preserves_read, outside_refl. Qed.

Lemma frame_store P p q data : preserves (frame P p) (store q data).
Proof.
  intros w. unfold store; simpl.
  destruct (write_file q data (fs w)) eqn:H; [|apply frame_refl].
  split; [apply quiet_with_fs|].
  apply extends_is_outside. eapply write_file_extends, H.
Qed.

Lemma frame_unpack P p content : preserves (frame P p) (unpack p content).
Proof.
  intros w. unfold unpack; simpl.
  split; [apply quiet_with_fs|apply put_all_outside].
Qed.

Lemma frame_report (P : event -> Prop) p cb downloaded total :
  (forall d t, P (Progress d t)) ->
  preserves (frame P p) (report cb downloaded total).
Proof.
  intros HP. destruct cb as [f|]; simpl.
  - apply preserves_bind; [apply frame_trans|now apply frame_emit|intros _].
    destruct (f downloaded total); apply preserves_ret, frame_refl.
  - apply preserves_ret, frame_refl.
Qed.

Lemma frame_receive (P : event -> Prop) p cb out_path total chunks :
  (forall d t, P (Progress d t)) ->
  forall written downloaded,
  preserves (frame P p) (receive cb out_path total chunks written downloaded).
Proof.
  intros HP. induction chunks as [|chunk tl IH]; intros written downloaded.
  - apply preserves_ret, frame_refl.
  - destruct chunk as [|x chunk]; [apply IH|].
    cbn [receive].
    apply preserves_bind; [apply frame_trans|apply frame_store|intros _].
    apply preserves_bind; [apply frame_trans|now apply frame_report|intros _].
    apply IH.
Qed.

Lemma frame_fetch p E a cb cached_file usable remote_size :
  preserves (frame fetch_event p) (fetch E a cb cached_file usable remote_size).
Proof.
  unfold fetch. destruct usable.
  - apply preserves_bind; [apply frame_trans| |intros _].
    + apply frame_report. intros; exact I.
    + apply preserves_ret, frame_refl.
  - apply preserves_bind; [apply frame_trans|now apply frame_emit|intros _].
    destruct (get E (Feed.url a)) as [what|what|h chunks broken];
      try (apply preserves_raise, frame_refl).
    apply preserves_bind; [apply frame_trans| |intros total].
    { destruct h; first [apply preserves_ret|apply preserves_raise];
        apply frame_refl. }
    apply preserves_bind; [apply frame_trans| |intros _].
    { apply frame_call. intros fs fs'. apply write_file_extends. }
    apply preserves_bind; [apply frame_trans| |intros _].
    { apply frame_receive. intros; exact I. }
    destruct broken; first [apply preserves_ret|apply preserves_raise];
      apply frame_refl.
Qed.

Lemma frame_extract E temp_file extract_dir :
  preserves (frame transfer_event extract_dir) (extract E temp_file extract_dir).
Proof.
  unfold extract.
  apply preserves_bind; [apply frame_trans|now apply frame_emit|intros _].
  destruct (native E temp_file) as [content|why]; [apply frame_unpack|].
  apply preserves_bind; [apply frame_trans|apply frame_read|intros fs1].
  destruct (locate_7z E fs1) as [seven|].
  - apply preserves_bind; [apply frame_trans|now apply frame_emit|intros _].
    destruct (tool E seven temp_file);
      first [apply frame_unpack|apply preserves_raise, frame_refl].
  - apply preserves_bind; [apply frame_trans|now apply frame_emit|intros _].
    destruct (shell E temp_file); try (apply preserves_raise, frame_refl).
    apply preserves_bind; [apply frame_trans|apply frame_unpack|intros _].
    apply preserves_bind; [apply frame_trans|apply frame_read|intros fs2].
    destruct (listdir extract_dir fs2) as [[|x l]|];
      first [apply preserves_ret|apply preserves_raise]; apply frame_refl.
Qed.

Lemma frame_extract_and_merge E install_dir temp_dir temp_file :
  preserves (frame transfer_event (temp_dir ++ ["extracted"%string]))
    (extract_and_merge E install_dir temp_dir temp_file).
Proof.
  unfold extract_and_merge. cbv zeta.
  apply preserves_bind; [apply frame_trans| |intros _].
  { apply frame_call. intros fs fs'. apply makedirs_extends. }
  apply preserves_bind; [apply frame_trans|apply frame_extract|intros _].
  apply preserves_bind; [apply frame_trans|apply frame_read|intros fs1].
  destruct (listdir _ fs1) as [names|]; [|apply preserves_raise, frame_refl].
  apply frame_on_fs. intros fs. apply extends_is_outside, copy_contents_extends.
Qed.

(** The [try] block: outside the extraction folder the tree only grows. *)
Lemma frame_transfer E a install_dir cb cached_file usable remote_size temp_dir :
  preserves (frame transfer_event (temp_dir ++ ["extracted"%string]))
    (transfer E a install_dir cb cached_file usable remote_size temp_dir).
Proof.
  unfold transfer.
  apply preserves_bind; [apply frame_trans| |intros temp_file].
  { intros w. eapply frame_weaken; [|apply frame_fetch].
    intros [] H; try destruct H; exact I. }
  apply frame_extract_and_merge.
Qed.

End WorldFacts.

(* ================================================================== *)
(** ** VersionSource *)

Module FeedFacts.
Import Feed Props.

Lemma scan_assets_first assets :
  scan_assets assets = option_map to_asset (find weekly assets).
Proof.
  induction assets as [|a tl IH]; simpl; [reflexivity|].
  unfold weekly at 1. destruct (matches pattern _); [reflexivity|exact IH].
Qed.

(** The nested loops visit the assets in feed order and stop at the first
    one whose name the pattern accepts. *)
Lemma scan_releases_feed_order releases :
  scan_releases releases = option_map to_asset (find weekly (all_assets releases)).
Proof.
  induction releases as [|r tl IH]; simpl; [reflexivity|].
  rewrite scan_assets_first, IH. unfold all_assets; simpl.
  fold (all_assets tl).
  induction (get (rel_assets r) []) as [|a l IHl]; simpl; [reflexivity|].
  destruct (weekly a); [reflexivity|exact IHl].
Qed.

Section Deterministic.
Import PyStr PyRe.
Variable R : Type.
Variable k : cursor -> capture -> option R.
Hypothesis k_blind : blind k.

Lemma run_literal (l : list ascii) : forall p g,
  run (seq (map (fun a => Chr (is_char a)) l)) p g k =
  match drop_literal l (rest p) with
  | Some l' => k (Cursor None l') g
  | None => None
  end.
Proof.
  induction l as [|a tl IH]; intros [pv l0] g.
  - simpl. apply k_blind.
  - destruct tl as [|b tl].
    + simpl. destruct l0 as [|c l0]; [reflexivity|].
      unfold is_char. destruct (Ascii.eqb a c); [apply k_blind|reflexivity].
    + change (seq (map (fun a => Chr (is_char a)) (a :: b :: tl)))
        with (Cat (Chr (is_char a)) (seq (map (fun a => Chr (is_char a)) (b :: tl)))).
      cbn [run rest]. destruct l0 as [|c l0]; [reflexivity|].
      cbn [drop_literal]. unfold is_char at 1.
      destruct (Ascii.eqb a c); [|reflexivity].
      rewrite IH. reflexivity.
Qed.

Lemma rep_exactly cls (n : nat) : forall pv l (k1 : cursor -> option R),
  (forall pv pv' l, k1 (Cursor pv l) = k1 (Cursor pv' l)) ->
  rep cls n (Some n) pv l k1 =
  match (fix drop (n : nat) (l : list ascii) : option (list ascii) :=
           match n, l with
           | 0, _ => Some l
           | S n', c :: l' => if cls c then drop n' l' else None
           | S _, [] => None
           end) n l with
  | Some l' => k1 (Cursor None l')
  | None => None
  end.
Proof.
  induction n as [|n IH]; intros pv l k1 Hk1.
  - destruct l as [|c l]; simpl; [apply Hk1|].
    rewrite Bool.andb_false_r. apply Hk1.
  - destruct l as [|c l]; [reflexivity|].
    cbn [rep within pred option_map]. destruct (cls c); simpl; [|reflexivity].
    rewrite (IH (Some c) l k1 Hk1).
    match goal with |- match ?x with _ => _ end = _ => now destruct x end.
Qed.

Lemma run_digits (n : nat) p g :
  run (times n is_digit) p g k =
  match drop_digits n (rest p) with
  | Some l' => k (Cursor None l') g
  | None => None
  end.
Proof.
  unfold times. cbn [run]. rewrite rep_exactly.
  - reflexivity.
  - intros pv pv' l. apply k_blind.
Qed.

Lemma blind_literal l :
  blind (fun q g => run (seq (map (fun a => Chr (is_char a)) l)) q g k).
Proof. intros pv pv' l0 g. now rewrite !run_literal. Qed.

Lemma blind_digits n : blind (fun q g => run (times n is_digit) q g k).
Proof. intros pv pv' l0 g. now rewrite !run_digits. Qed.

End Deterministic.

(** What the pattern accepts: a weekly name, and a weekly name followed
    by one line feed. *)
Lemma pattern_accepts (s : string) :
  matches pattern s =
  match after_weekly_name (PyStr.chars s) with
  | Some [] => true
  | Some [c] => N.eqb (PyStr.code c) 10
  | _ => false
  end.
Proof.
  unfold matches, PyRe.re_match, PyRe.match_at, pattern, PyRe.lit.
  cbn [PyRe.seq PyRe.run PyRe.at_start PyRe.prev].
  set (k9 := fun (_ : PyRe.cursor) (g : PyRe.capture) => Some g).
  set (k8 := fun q g => if PyRe.at_end q then k9 q g else None).
  assert (B8 : blind k8) by (intros pv pv' l g; reflexivity).
  assert (B7 := blind_literal B8 (PyStr.chars "-Windows-x86_64-py311.7z")).
  assert (B6 := blind_digits B7 2).
  assert (B5 := blind_literal B6 (PyStr.chars ".")).
  assert (B4 := blind_digits B5 2).
  assert (B3 := blind_literal B4 (PyStr.chars ".")).
  assert (B2 := blind_digits B3 4).
  rewrite (run_literal B2). cbn [PyRe.rest].
  unfold after_weekly_name, and_then.
  destruct (drop_literal _ (PyStr.chars s)) as [l1|]; [|reflexivity].
  rewrite (run_digits B3). cbn [PyRe.rest].
  destruct (drop_digits 4 l1) as [l2|]; [|reflexivity].
  rewrite (run_literal B4). cbn [PyRe.rest].
  destruct (drop_literal _ l2) as [l3|]; [|reflexivity].
  rewrite (run_digits B5). cbn [PyRe.rest].
  destruct (drop_digits 2 l3) as [l4|]; [|reflexivity].
  rewrite (run_literal B6). cbn [PyRe.rest].
  destruct (drop_literal _ l4) as [l5|]; [|reflexivity].
  rewrite (run_digits B7). cbn [PyRe.rest].
  destruct (drop_digits 2 l5) as [l6|]; [|reflexivity].
  rewrite (run_literal B8). cbn [PyRe.rest].
  destruct (drop_literal _ l6) as [l7|]; [|reflexivity].
  unfold k8, k9, PyRe.at_end. cbn [PyRe.rest].
  destruct l7 as [|c [|c' l7]]; try reflexivity.
  now destruct (N.eqb (PyStr.code c) 10).
Qed.

(** C3 (code defect).  The feed holds one asset whose name is a
    well-formed weekly name followed by a line feed.  The pattern ends in
    [$], which also matches just before a final line feed, so the asset
    is selected although its name has a trailing character after the
    pattern. *)
Theorem weekly_asset_with_trailing_line_feed :
  get_latest_weekly_asset (Sample.feed_of (Sample.weekly_name ++ Sample.line_feed))
  = Ok (Some (Asset (Sample.weekly_name ++ Sample.line_feed) Sample.weekly_url)).
Proof. vm_compute. reflexivity. Qed.

End FeedFacts.

(* ================================================================== *)
(** ** VersionProbe *)

Module ProbeFacts.
Import ProbeText.

(** C8.  On the text [FreeCAD 0.21.1, Revision: abc1234] the version
    pattern is found, so the first-line fallback is not used, and the
    version is [FreeCAD 0.21.1]; the first of the four revision patterns
    is found and the revision is [abc1234].  So an installation whose
    executable prints that text is detected as that version and
    revision. *)
Theorem probe_text_parsed :
  parse Sample.probe_text = ("FreeCAD 0.21.1", Some "abc1234")
  /\ PyRe.re_search version_re Sample.probe_text
     = Some (Some (PyStr.chars "0.21.1"))
  /\ PyRe.re_search (hd PyRe.Emp rev_patterns) Sample.probe_text
     = Some (Some (PyStr.chars "abc1234"))
  /\ fst (Update.detect_installed_version
            (Sample.env_ok Props.well_behaved true) Sample.install_dir
            (Sample.world_of Sample.disk_installed Update.NoVersionFile))
     = Ok (Some "FreeCAD 0.21.1", Some "abc1234").
Proof. vm_compute. repeat split. Qed.

End ProbeFacts.

(* ================================================================== *)
(** ** ArchiveExtractor *)

Module ExtractFacts.
Import Fs Update Props FsFacts.

(** C7.  When the extraction folder holds exactly one entry and it is a
    directory, the root is that directory; with no entry, with a single
    file, or with two entries or more, the root is the extraction folder
    itself. *)
Theorem single_entry_unwrap (extract_dir : path) (fs : node) (es : entries) :
  lookup extract_dir fs = Some (Dir es) ->
  listdir extract_dir fs = Some (map fst es)
  /\ (forall name sub, es = [(name, Dir sub)] ->
        choose_root extract_dir (map fst es) fs = extract_dir ++ [name])
  /\ (forall name data, es = [(name, File data)] ->
        choose_root extract_dir (map fst es) fs = extract_dir)
  /\ (es = [] -> choose_root extract_dir (map fst es) fs = extract_dir)
  /\ (2 <= List.length es ->
        choose_root extract_dir (map fst es) fs = extract_dir).
Proof.
  intros Hl. split; [unfold listdir; now rewrite Hl|].
  assert (Hin : forall name, isdir (extract_dir ++ [name]) fs
                 = match assoc name es with Some (Dir _) => true | _ => false end).
  { intros name. unfold isdir. rewrite lookup_app, Hl. simpl.
    destruct (assoc name es) as [[d|s]|]; reflexivity. }
  repeat split.
  - intros name sub ->. simpl. rewrite Hin. simpl. now rewrite String.eqb_refl.
  - intros name data ->. simpl. rewrite Hin. simpl. now rewrite String.eqb_refl.
  - intros ->. reflexivity.
  - intros Hlen. destruct es as [|[k1 v1] [|[k2 v2] tl]]; simpl in *; try lia.
    reflexivity.
Qed.

Lemma single_entry_unwrap_witness :
  choose_root Sample.extracted (map fst Sample.archive_content)
              (Sample.disk_extracted Sample.archive_content)
  = Sample.extracted ++ ["FreeCAD_weekly"%string].
Proof.
  exact (proj1 (proj2 (single_entry_unwrap Sample.extracted
                         (Sample.disk_extracted Sample.archive_content)
                         (es := Sample.archive_content) eq_refl))
               _ _ eq_refl).
Defined.



End ExtractFacts.

(* ================================================================== *)
(** ** UpdatePipeline *)

Module PipelineFacts.
Import Fs Update Props FsFacts WorldFacts.

Lemma bind_assoc S A B C (m : M S A) (f : A -> M S B) (g : B -> M S C) s :
  bind (bind m f) g s = bind m (fun a => bind (f a) g) s.
Proof. unfold bind. destruct (m s) as [[a|e] s1]; reflexivity. Qed.

Lemma frame_quiet P p A (m : M world A) :
  preserves (frame P p) m -> preserves (quiet P) m.
Proof. intros H w. apply H. Qed.

Lemma quiet_cleanup P temp_dir w : quiet P w (cleanup temp_dir w).
Proof.
  unfold cleanup. destruct (rmtree temp_dir (fs w));
    [apply quiet_with_fs|apply quiet_refl].
Qed.

Lemma quiet_mkdtemp E :
  preserves (quiet (fun e => exists t, e = ScratchCreated t)) (mkdtemp E).
Proof.
  unfold mkdtemp.
  apply preserves_bind; [apply quiet_trans| |intros fs0].
  { apply (frame_quiet (p := [])), frame_read. }
  destruct (first_free _ _ fs0) as [t|]; [|apply preserves_raise, quiet_refl].
  apply preserves_bind; [apply quiet_trans| |intros _].
  { apply (frame_quiet (p := [])), frame_call. intros fs fs'. apply mkdir_extends. }
  apply preserves_bind; [apply quiet_trans| |intros _].
  { apply (frame_quiet (p := [])), frame_emit. now exists t. }
  apply preserves_ret, quiet_refl.
Qed.

Lemma quiet_remote_size E a :
  preserves (quiet (fun e => exists u, e = HeadRequest u)) (remote_size_of E a).
Proof.
  unfold remote_size_of.
  apply preserves_bind; [apply quiet_trans| |intros _].
  { apply (frame_quiet (p := [])), frame_emit. now eexists. }
  apply preserves_ret, quiet_refl.
Qed.

(** [download_and_extract] never touches the two JSON files; it asks for
    the size, creates its scratch folder, downloads and extracts. *)
Lemma quiet_download E a install_dir cb :
  preserves (quiet download_event) (download_and_extract E a install_dir cb).
Proof.
  unfold download_and_extract.
  destruct (unspecified install_dir); [apply preserves_raise, quiet_refl|].
  apply preserves_bind; [apply quiet_trans| |intros _].
  { apply (frame_quiet (p := [])), frame_call. intros fs fs'. apply makedirs_extends. }
  apply preserves_bind; [apply quiet_trans| |intros _].
  { apply (frame_quiet (p := [])), frame_call. intros fs fs'. apply makedirs_extends. }
  apply preserves_bind; [apply quiet_trans| |intros remote_size].
  { intros w. eapply quiet_weaken; [|apply quiet_remote_size].
    intros e [u ->]. exact I. }
  apply preserves_bind; [apply quiet_trans| |intros fs0].
  { apply (frame_quiet (p := [])), frame_read. }
  apply preserves_bind; [apply quiet_trans| |intros temp_dir].
  { intros w. eapply quiet_weaken; [|apply quiet_mkdtemp].
    intros e [u ->]. exact I. }
  apply preserves_finally; [apply quiet_trans| |intros w; apply quiet_cleanup].
  intros w. eapply quiet_weaken; [|apply (frame_transfer _ _ _ _ _ _ _ _ w)].
  intros [] H; try destruct H; exact I.
Qed.

Lemma quiet_probe E exes : preserves (quiet probe_event) (probe E exes).
Proof.
  induction exes as [|exe tl IH]; cbn [probe].
  - apply preserves_ret, quiet_refl.
  - apply preserves_bind; [apply quiet_trans| |intros fs0].
    { apply (frame_quiet (p := [])), frame_read. }
    destruct (isfile exe fs0); [|exact IH].
    apply preserves_bind; [apply quiet_trans| |intros _].
    { apply (frame_quiet (p := [])), frame_emit. exact I. }
    destruct (run_version E exe) as [p|]; [|exact IH].
    cbv zeta.
    match goal with |- preserves _ (if ?c then _ else _) => destruct c end;
      [|exact IH].
    match goal with |- preserves _ (let (_, _) := ?x in _) => destruct x end.
    apply preserves_ret, quiet_refl.
Qed.

Lemma probe_fs E exes w : fs (snd (probe E exes w)) = fs w.
Proof.
  revert w; induction exes as [|exe tl IH]; intros w; cbn [probe];
    [reflexivity|].
  unfold bind, on_fs, read; cbn [fst snd fs with_fs].
  destruct (isfile exe (fs w)); [|now rewrite IH].
  unfold emit; cbn [fst snd fs with_fs with_event].
  destruct (run_version E exe) as [p|]; [|now rewrite IH].
  cbv zeta.
  match goal with |- context [if ?c then _ else probe E tl] => destruct c end;
    [|now rewrite IH].
  match goal with |- context [let (_, _) := ?x in _] => destruct x end.
  reflexivity.
Qed.

Lemma quiet_detect E install_dir :
  preserves (quiet probe_event) (detect_installed_version E install_dir).
Proof.
  unfold detect_installed_version.
  destruct (unspecified install_dir); [apply preserves_ret, quiet_refl|].
  apply quiet_probe.
Qed.

Lemma detect_fs E install_dir w :
  fs (snd (detect_installed_version E install_dir w)) = fs w.
Proof.
  unfold detect_installed_version.
  destruct (unspecified install_dir); [reflexivity|apply probe_fs].
Qed.

Lemma run_update_thread_cases E a install_dir v w :
  run_update_thread E a install_dir v w =
  match update_body E a install_dir w with
  | (Ok _, w1) =>
      (Succeeded,
       with_event
         (snd (save_config (Config (Some install_dir) (Some v))
                 (snd (save_last_version v w1))))
         (ShowInfo "Update complete"))
  | (Raise e, w1) =>
      (Failed e, with_event w1 (ShowError (error_title e) (Exception e)))
  end.
Proof.
  unfold run_update_thread, update_body, bind.
  destruct (announce E w) as [[[]|e] w0]; [|reflexivity].
  destruct (download_and_extract _ _ _ _ w0) as [[[]|e] w1]; reflexivity.
Qed.




(** The check by cases, in the order of the source. *)
Lemma check_and_update_cases E install_dir w :
  check_and_update E install_dir w =
  let wq := with_event w FeedQuery in
  match Feed.get_latest_weekly_asset (feed E) with
  | Raise e =>
      (CheckFailed e, with_event wq (ShowError (error_title e) (Exception e)))
  | Ok None =>
      (NoBuildFound, with_event wq (ShowError "Error" (Text "No weekly build found.")))
  | Ok (Some a) =>
      if unspecified install_dir then
        (NoFolderSelected,
         with_event wq (ShowError "Error" (Text "Select the FreeCAD installation folder.")))
      else if same_version (Feed.name a) (load_last_version w) then
        (UpToDate,
         with_event (snd (detect_installed_version E install_dir wq))
                    (ShowInfo "Up to date"))
      else if confirm E then
        run_update_thread E a install_dir (Feed.name a) (asked E install_dir w)
      else (Declined, asked E install_dir w)
  end.
Proof.
  unfold check_and_update, asked. cbv zeta.
  destruct (Feed.get_latest_weekly_asset (feed E)) as [[a|]|e]; try reflexivity.
  destruct (unspecified install_dir); [reflexivity|].
  destruct (detect_installed_version E install_dir (with_event w FeedQuery))
    as [r w2].
  reflexivity.
Qed.

(** A check ends in [Succeeded] only along one path. *)
Lemma success_inversion E install_dir w w' :
  check_and_update E install_dir w = (Succeeded, w') ->
  exists a w1,
    Feed.get_latest_weekly_asset (feed E) = Ok (Some a)
    /\ unspecified install_dir = false
    /\ update_body E a install_dir (asked E install_dir w) = (Ok tt, w1)
    /\ w' = with_event
              (snd (save_config (Config (Some install_dir) (Some (Feed.name a)))
                      (snd (save_last_version (Feed.name a) w1))))
              (ShowInfo "Update complete").
Proof.
  rewrite check_and_update_cases. cbv zeta.
  destruct (Feed.get_latest_weekly_asset (feed E)) as [[a|]|e]; try discriminate.
  destruct (unspecified install_dir); [discriminate|].
  destruct (same_version _ _); [discriminate|].
  destruct (confirm E); [|discriminate].
  rewrite run_update_thread_cases.
  destruct (update_body E a install_dir _) as [[[]|e] w1] eqn:Hb; [|discriminate].
  intros H. injection H as <-. exists a, w1. repeat split. exact Hb.
Qed.

Lemma quiet_network w w' :
  quiet (fun e => is_network e = false) w w' ->
  filter is_network (trace w') = filter is_network (trace w).
Proof.
  intros (_ & _ & evs & -> & Hall). rewrite filter_app.
  replace (filter is_network evs) with (@nil event); [now rewrite app_nil_r|].
  induction Hall as [|e l He _ IH]; simpl; [reflexivity|now rewrite He].
Qed.

(** When the newest asset carries the recorded name, the check stops
    before any transfer: with a folder selected it ends in [UpToDate],
    without one in the request to select a folder. *)
Lemma same_version_stops E install_dir w a :
  Feed.get_latest_weekly_asset (feed E) = Ok (Some a) ->
  load_last_version w = Some (Feed.name a) ->
  fst (check_and_update E install_dir w)
    = (if unspecified install_dir then NoFolderSelected else UpToDate)
  /\ filter is_network (trace (snd (check_and_update E install_dir w)))
     = filter is_network (trace w) ++ [FeedQuery]
  /\ fs (snd (check_and_update E install_dir w)) = fs w
  /\ saved (snd (check_and_update E install_dir w)) = saved w.
Proof.
  intros Ha Hv. rewrite check_and_update_cases, Ha, Hv. cbv zeta.
  unfold same_version. rewrite String.eqb_refl.
  destruct (unspecified install_dir); simpl.
  - rewrite !filter_app. simpl. rewrite app_nil_r. repeat split.
  - assert (Hq := quiet_detect E install_dir (with_event w FeedQuery)).
    rewrite detect_fs. repeat split.
    + rewrite filter_app. simpl. rewrite app_nil_r.
      rewrite (quiet_network (w := with_event w FeedQuery)).
      * simpl. now rewrite filter_app.
      * eapply quiet_weaken; [|exact Hq]. intros [] H; try destruct H; reflexivity.
    + now destruct Hq as (-> & _).
Qed.

(** C4, as amended.  When the newest asset carries the recorded name and
    a folder is selected, the check ends in [UpToDate]; whether a folder
    is selected or not, the feed query is its only request and the tree
    and the record are as before.  So a check that follows a successful
    update, with the same feed, ends in [UpToDate] and requests
    nothing but the feed. *)
Theorem up_to_date_stops_before_transfer (E : env) (install_dir : path) (w : world) :
  (forall a,
     Feed.get_latest_weekly_asset (feed E) = Ok (Some a) ->
     load_last_version w = Some (Feed.name a) ->
     (unspecified install_dir = false ->
        fst (check_and_update E install_dir w) = UpToDate)
     /\ filter is_network (trace (snd (check_and_update E install_dir w)))
        = filter is_network (trace w) ++ [FeedQuery]
     /\ fs (snd (check_and_update E install_dir w)) = fs w
     /\ saved (snd (check_and_update E install_dir w)) = saved w)
  /\ (forall w1,
        check_and_update E install_dir w = (Succeeded, w1) ->
        fst (check_and_update E install_dir w1) = UpToDate
        /\ filter is_network (trace (snd (check_and_update E install_dir w1)))
           = filter is_network (trace w1) ++ [FeedQuery]
        /\ fs (snd (check_and_update E install_dir w1)) = fs w1).
Proof.
  split.
  - intros a Ha Hv.
    destruct (same_version_stops E install_dir w Ha Hv) as (Ho & Hn & Hf & Hs).
    repeat split; try assumption.
    intros Hd. now rewrite Hd in Ho.
  - intros w1 Hrun.
    destruct (success_inversion _ _ _ Hrun) as (a & w0 & Ha & Hd & _ & ->).
    destruct (same_version_stops E install_dir
                (with_event
                   (snd (save_config (Config (Some install_dir) (Some (Feed.name a)))
                           (snd (save_last_version (Feed.name a) w0))))
                   (ShowInfo "Update complete")) Ha eq_refl)
      as (Ho & Hn & Hf & _).
    rewrite Hd in Ho. repeat split; assumption.
Qed.


End PipelineFacts.

(* ================================================================== *)
(** ** DownloadCache *)

Module FetchFacts.
Import Fs Update Props FsFacts WorldFacts.

Lemma use_cached_iff cached_file remote_size fs :
  use_cached cached_file remote_size fs = true <->
  exists data, lookup cached_file fs = Some (File data)
               /\ Z.of_nat (List.length data) = remote_size
               /\ remote_size <> 0%Z.
Proof.
  unfold use_cached, isfile, getsize.
  destruct (lookup cached_file fs) as [[data|es]|]; simpl.
  - destruct (Z.eqb_spec remote_size 0) as [H0|H0]; simpl.
    + split; [discriminate|]. intros (d & _ & _ & H). contradiction.
    + split.
      * intros H. apply Z.eqb_eq in H. eauto.
      * intros (d & Hd & Hl & _). injection Hd as <-. now apply Z.eqb_eq.
  - split; [discriminate|]. intros (d & H & _). discriminate.
  - split; [discriminate|]. intros (d & H & _). discriminate.
Qed.

Lemma store_lookup p data d0 w :
  lookup p (fs w) = Some (File d0) ->
  lookup p (fs (snd (store p data w))) = Some (File data).
Proof.
  intros H. unfold store; simpl.
  destruct (write_file_again p data _ H) as [fs' Hw].
  rewrite Hw. simpl. eapply write_file_lookup, Hw.
Qed.

Lemma store_trace p data w : trace (snd (store p data w)) = trace w.
Proof.
  unfold store; simpl. now destruct (write_file p data (fs w)).
Qed.

Lemma report_fs cb d t w : fs (snd (report cb d t w)) = fs w.
Proof.
  destruct cb as [f|]; simpl; [|reflexivity].
  unfold bind, emit; simpl. now destruct (f d t).
Qed.

Lemma report_trace f d t w :
  trace (snd (report (Some f) d t w)) = trace w ++ [Progress d t].
Proof. simpl. unfold bind, emit; simpl. now destruct (f d t). Qed.

Lemma report_ok cb d t w : fst (report cb d t w) = Ok tt.
Proof.
  destruct cb as [f|]; simpl; [|reflexivity].
  unfold bind, emit; simpl. now destruct (f d t).
Qed.

(** The loop writes every chunk, in order, after what the file holds, and
    reports after each chunk that is not empty. *)
Lemma receive_spec cb out_path total chunks :
  forall written downloaded w,
    lookup out_path (fs w) = Some (File written) ->
    let run := receive cb out_path total chunks written downloaded w in
    fst run = Ok tt
    /\ lookup out_path (fs (snd run)) = Some (File (written ++ List.concat chunks))
    /\ exists evs, trace (snd run) = trace w ++ evs /\ Forall progress_event evs.
Proof.
  induction chunks as [|chunk tl IH]; intros written downloaded w Hw; cbv zeta.
  - simpl. rewrite app_nil_r. repeat split; [exact Hw|].
    exists []. now rewrite app_nil_r.
  - destruct chunk as [|x chunk]; [apply IH, Hw|].
    cbn [receive List.concat]. unfold bind.
    destruct (store out_path (written ++ x :: chunk) w) as [r1 w1] eqn:Hs.
    assert (Hl1 : lookup out_path (fs w1) = Some (File (written ++ x :: chunk))).
    { change w1 with (snd (r1, w1)). rewrite <- Hs. eapply store_lookup, Hw. }
    assert (Ht1 : trace w1 = trace w).
    { change w1 with (snd (r1, w1)). rewrite <- Hs. apply store_trace. }
    assert (r1 = Ok tt) by (unfold store in Hs; now injection Hs as <- _).
    subst r1.
    set (d' := (downloaded + Z.of_nat (List.length (x :: chunk)))%Z).
    assert (Hquiet := @frame_report progress_event [] cb d' total
                        (fun _ _ => I) w1).
    destruct (report cb d' total w1) as [r2 w2] eqn:Hr.
    assert (Hf2 : fs w2 = fs w1).
    { change w2 with (snd (r2, w2)). rewrite <- Hr. apply report_fs. }
    assert (r2 = Ok tt).
    { change r2 with (fst (r2, w2)). rewrite <- Hr. apply report_ok. }
    subst r2. simpl in Hquiet.
    destruct Hquiet as ((_ & _ & evs2 & Ht2 & Hp2) & _).
    rewrite <- Hf2 in Hl1.
    destruct (IH (written ++ x :: chunk) d' w2 Hl1) as (Hok & Hl & evs & Ht & Hp).
    split; [exact Hok|]. split; [now rewrite Hl, <- app_assoc|].
    exists (evs2 ++ evs). split.
    + now rewrite Ht, Ht2, Ht1, app_assoc.
    + apply Forall_app. now split.
Qed.


Lemma report_any_callback (cb cb' : callback) d t w :
  report (Some cb) d t w = report (Some cb') d t w.
Proof.
  simpl. unfold bind, emit. now destruct (cb d t), (cb' d t).
Qed.

Lemma receive_any_callback (cb cb' : callback) out_path total chunks :
  forall written downloaded w,
    receive (Some cb) out_path total chunks written downloaded w
    = receive (Some cb') out_path total chunks written downloaded w.
Proof.
  induction chunks as [|chunk tl IH]; intros written downloaded w;
    [reflexivity|].
  destruct chunk as [|x chunk]; [apply IH|].
  cbn [receive]. unfold bind.
  destruct (store out_path (written ++ x :: chunk) w) as [[[]|e] w1];
    [|reflexivity].
  rewrite (report_any_callback cb cb').
  destruct (report (Some cb') _ total w1) as [[[]|e] w2]; [apply IH|reflexivity].
Qed.

Lemma fetch_any_callback E a (cb cb' : callback) cached_file usable remote_size w :
  fetch E a (Some cb) cached_file usable remote_size w
  = fetch E a (Some cb') cached_file usable remote_size w.
Proof.
  unfold fetch. destruct usable.
  - unfold bind. now rewrite (report_any_callback cb cb').
  - unfold bind.
    destruct (emit (StreamRequest (Feed.url a)) w) as [[[]|e] w0]; [|reflexivity].
    destruct (get E (Feed.url a)) as [what|what|h chunks broken];
      try reflexivity.
    unfold bind.
    destruct (match h with
              | Absent => ret remote_size
              | Malformed => raise ValueError
              | Length n => ret n
              end w0) as [[total|e] w1]; [|reflexivity].
    destruct (on_fs (call (OSError cached_file) (write_file cached_file [])) w1)
      as [[[]|e] w2]; [|reflexivity].
    now rewrite (receive_any_callback cb cb').
Qed.

(** C10.  A callback that raises, at any of its calls, changes nothing:
    the fetch gives the same result, leaves the same files and makes the
    same progress reports as with a callback that never raises; and so
    does the whole of [download_and_extract]. *)
Theorem faulty_callback_is_harmless (E : env) (a : Feed.asset) (cb : callback)
    (cached_file : path) (usable : bool) (remote_size : Z)
    (install_dir : path) (w : world) :
  fetch E a (Some cb) cached_file usable remote_size w
  = fetch E a (Some well_behaved) cached_file usable remote_size w
  /\ download_and_extract E a install_dir (Some cb) w
     = download_and_extract E a install_dir (Some well_behaved) w.
Proof.
  split; [apply fetch_any_callback|].
  unfold download_and_extract.
  destruct (unspecified install_dir); [reflexivity|].
  unfold bind.
  destruct (on_fs (call (OSError install_dir) (makedirs install_dir)) w)
    as [[[]|e] w1]; [|reflexivity].
  destruct (on_fs (call (OSError (DOWNLOADS_DIR E)) (makedirs (DOWNLOADS_DIR E))) w1)
    as [[[]|e] w2]; [|reflexivity].
  destruct (remote_size_of E a w2) as [[size|e] w3]; [|reflexivity].
  destruct (on_fs read w3) as [[fs0|e] w4]; [|reflexivity].
  destruct (mkdtemp E w4) as [[temp_dir|e] w5]; [|reflexivity].
  unfold finally, transfer, bind.
  now rewrite (fetch_any_callback E a cb well_behaved).
Qed.

End FetchFacts.

(* ================================================================== *)
(** ** The scratch folder and the cache *)

Module ScratchFacts.
Import Fs Update Props FsFacts WorldFacts FetchFacts.

Lemma first_free_spec dir names fs t :
  first_free dir names fs = Some t ->
  lookup t fs = None /\ exists n, t = dir ++ [n].
Proof.
  induction names as [|n tl IH]; simpl; [discriminate|].
  destruct (lookup (dir ++ [n]) fs) eqn:Hl; [exact IH|].
  intros H. injection H as <-. split; [exact Hl|now exists n].
Qed.

Lemma prefix_of_parent (d : path) n t r :
  d ++ [n] = t ++ r -> r <> [] -> is_prefix t d.
Proof.
  intros H Hr. destruct (exists_last Hr) as (r' & x & ->).
  rewrite app_assoc in H. apply app_inj_tail in H as [-> _]. now exists r'.
Qed.

Lemma prefix_of_longer (t : path) x q : is_prefix (t ++ [x]) q -> is_prefix t q.
Proof. intros [r ->]. rewrite <- app_assoc. now eexists. Qed.





Lemma isdir_exists p fs : isdir p fs = true -> exists n, lookup p fs = Some n.
Proof. unfold isdir. destruct (lookup p fs); [eauto|discriminate]. Qed.

(** Nothing exists below a path that does not exist. *)
Lemma fresh_not_prefix t q fs n :
  lookup t fs = None -> lookup q fs = Some n -> ~ is_prefix t q.
Proof.
  intros Ht Hq Hp. destruct (@lookup_prefix t q fs n Hp Hq) as [m Hm]. congruence.
Qed.

Lemma mkdtemp_ok E w t w' :
  mkdtemp E w = (Ok t, w') ->
  lookup t (fs w) = None /\ t <> [] /\ isdir t (fs w') = true
  /\ extends (fs w) (fs w') /\ trace w' = trace w ++ [ScratchCreated t].
Proof.
  unfold mkdtemp, bind, on_fs, read, call, emit, ret, raise; simpl.
  destruct (first_free _ _ (fs w)) as [t0|] eqn:Hfree; [|discriminate].
  destruct (first_free_spec _ _ _ Hfree) as (Hnone & n & Ht0).
  cbn [fs with_fs].
  destruct (mkdir t0 (fs w)) as [fs'|] eqn:Hmk; cbn [fs with_fs]; [|discriminate].
  intros H. injection H as <- <-. cbn [fs with_fs with_event trace].
  split; [exact Hnone|]. split.
  { rewrite Ht0. intros Habs. now apply app_eq_nil in Habs as [_ Habs]. }
  split; [eapply mkdir_isdir, Hmk|]. split; [eapply mkdir_extends, Hmk|reflexivity].
Qed.

Lemma mkdtemp_raise E w e w' :
  mkdtemp E w = (Raise e, w') -> fs w' = fs w /\ trace w' = trace w.
Proof.
  unfold mkdtemp, bind, on_fs, read, call, emit, ret, raise; simpl.
  destruct (first_free _ _ (fs w)) as [t0|]; cbn [fs with_fs].
  - destruct (mkdir t0 (fs w)); cbn [fs with_fs]; [discriminate|].
    intros H. injection H as _ <-. now split.
  - intros H. injection H as _ <-. now split.
Qed.







End ScratchFacts.

(* ================================================================== *)
(** ** InstallSync *)

Module MergeFacts.
Import Fs Update Props FsFacts.

Lemma walk_dir es root dest_root :
  walk (Dir es) root dest_root =
  (call (OSError dest_root) (makedirs dest_root) ;;;
   copy_files es root dest_root ;;;
   walk_all es root dest_root).
Proof.
  cbn [walk].
  match goal with
  | |- context [bind (copy_files _ _ _) (fun _ => ?F es)] =>
      assert (H : forall l, F l = walk_all l root dest_root)
  end.
  { induction l as [|[d sub] tl IH]; [reflexivity|].
    cbn [walk_all]. now rewrite <- IH. }
  now rewrite H.
Qed.

Lemma assoc_in k v es : assoc k es = Some v -> In (k, v) es.
Proof.
  induction es as [|[k' v'] tl IH]; simpl; [discriminate|].
  destruct (String.eqb k k') eqn:Hk.
  - apply String.eqb_eq in Hk; subst k'. intros H; injection H as <-. now left.
  - intros H. right. now apply IH.
Qed.

Lemma in_assoc k v es : NoDup (map fst es) -> In (k, v) es -> assoc k es = Some v.
Proof.
  induction es as [|[k' v'] tl IH]; simpl; [intros _ []|].
  intros Hnd [H|H].
  - injection H as -> ->. now rewrite String.eqb_refl.
  - inversion Hnd as [|x l Hnot Hnd']; subst.
    destruct (String.eqb k k') eqn:Hk; [|now apply IH].
    apply String.eqb_eq in Hk; subst k'.
    destruct Hnot. change k with (fst (k, v)). now apply in_map.
Qed.

(** [os.makedirs] changes no file. *)
Lemma makedirs_keeps_file p fs fs' q data :
  makedirs p fs = Some fs' ->
  lookup q fs = Some (File data) -> lookup q fs' = Some (File data).
Proof.
  revert fs fs' q; induction p as [|c p IH]; intros [d|es] fs' q H Hq;
    simpl in H; try discriminate.
  - now injection H as <-.
  - destruct q as [|c' q]; [discriminate|]. simpl in Hq.
    destruct (makedirs p _) as [m'|] eqn:Hm; [|discriminate].
    injection H as <-. simpl.
    destruct (String.eqb c' c) eqn:Hcc.
    + apply String.eqb_eq in Hcc; subst c'. rewrite assoc_set_same.
      destruct (assoc c es) as [m|]; [|discriminate].
      eapply IH; eauto.
    + apply String.eqb_neq in Hcc. now rewrite (assoc_set_other _ _ Hcc).
Qed.

(** Writing a file changes no other file. *)
Lemma write_file_keeps_file t d fs fs' q data :
  write_file t d fs = Some fs' -> q <> t ->
  lookup q fs = Some (File data) -> lookup q fs' = Some (File data).
Proof.
  revert fs fs' q; induction t as [|c t IH]; intros [d0|es] fs' q H Hne Hq;
    simpl in H; try discriminate.
  - destruct q; [congruence|discriminate].
  - destruct q as [|c' q]; [discriminate|]. simpl in Hq.
    destruct (String.eqb c' c) eqn:Hcc.
    + apply String.eqb_eq in Hcc; subst c'.
      destruct (assoc c es) as [m|] eqn:Hc; [|discriminate].
      destruct (write_file t d m) as [m'|] eqn:Hw; [|discriminate].
      injection H as <-. simpl. rewrite assoc_set_same.
      eapply IH; eauto. congruence.
    + apply String.eqb_neq in Hcc.
      assert (Hset : forall v, lookup (c' :: q) (Dir (assoc_set c v es))
                               = Some (File data)).
      { intros v. simpl. now rewrite (assoc_set_other _ _ Hcc). }
      destruct (assoc c es) as [m|].
      * destruct (write_file t d m) as [m'|]; [|discriminate].
        injection H as <-. apply Hset.
      * destruct t; [|discriminate]. injection H as <-. apply Hset.
Qed.

(** Writing a file makes no directory. *)
Lemma write_file_no_new_dir t d fs fs' q :
  write_file t d fs = Some fs' -> isdir q fs' = true -> isdir q fs = true.
Proof.
  unfold isdir.
  revert fs fs' q; induction t as [|c t IH]; intros [d0|es] fs' q H Hq;
    simpl in H; try discriminate.
  - injection H as <-. destruct q; discriminate.
  - destruct q as [|c' q]; [reflexivity|].
    assert (Hother : c' <> c -> forall v,
              match lookup (c' :: q) (Dir (assoc_set c v es)) with
              | Some (Dir _) => true | _ => false end = true ->
              match lookup (c' :: q) (Dir es) with
              | Some (Dir _) => true | _ => false end = true).
    { intros Hcc v. simpl. now rewrite (assoc_set_other _ _ Hcc). }
    destruct (String.eqb c' c) eqn:Hcc.
    + apply String.eqb_eq in Hcc; subst c'.
      destruct (assoc c es) as [m|] eqn:Hc.
      * destruct (write_file t d m) as [m'|] eqn:Hw; [|discriminate].
        injection H as <-. simpl in *. rewrite assoc_set_same in Hq.
        rewrite Hc. eapply IH; eauto.
      * destruct t; [|discriminate]. injection H as <-.
        simpl in Hq. rewrite assoc_set_same in Hq. destruct q; discriminate.
    + apply String.eqb_neq in Hcc.
      destruct (assoc c es) as [m|].
      * destruct (write_file t d m) as [m'|]; [|discriminate].
        injection H as <-. eapply Hother; eauto.
      * destruct t; [|discriminate]. injection H as <-. eapply Hother; eauto.
Qed.

(** [os.makedirs p] makes directories only at [p] and above. *)
Lemma makedirs_no_new_dir p fs fs' q :
  makedirs p fs = Some fs' -> ~ is_prefix q p ->
  isdir q fs' = true -> isdir q fs = true.
Proof.
  unfold isdir.
  revert fs fs' q; induction p as [|c p IH]; intros [d0|es] fs' q H Hnp Hq;
    simpl in H; try discriminate.
  - now injection H as <-.
  - destruct q as [|c' q]; [reflexivity|].
    destruct (makedirs p _) as [m'|] eqn:Hm; [|discriminate].
    injection H as <-. simpl in *.
    destruct (String.eqb c' c) eqn:Hcc.
    + apply String.eqb_eq in Hcc; subst c'. rewrite assoc_set_same in Hq.
      assert (Hnp' : ~ is_prefix q p).
      { intros Hp. apply Hnp. now apply prefix_cons. }
      destruct (assoc c es) as [m|].
      * eapply IH; eauto.
      * specialize (IH _ _ _ Hm Hnp' Hq). destruct q; [|discriminate].
        destruct Hnp'. apply prefix_nil.
    + apply String.eqb_neq in Hcc. now rewrite (assoc_set_other _ _ Hcc) in Hq.
Qed.

(** Whether a path is an ancestor of another can be decided. *)
Lemma classic_prefix (p q : path) : is_prefix p q \/ ~ is_prefix p q.
Proof.
  revert q; induction p as [|c p IH]; intros q; [left; apply prefix_nil|].
  destruct q as [|c' q]; [right; intros [r H]; discriminate|].
  destruct (string_dec c c') as [->|Hne].
  - destruct (IH q) as [H|H]; [left; now apply prefix_cons|].
    right. intros [r Hr]. injection Hr as ->. apply H. now exists r.
  - right. intros [r Hr]. injection Hr as -> _. now apply Hne.
Qed.

Lemma copy2_target base d dst fs fs' :
  copy2 base d dst fs = Some fs' ->
  exists t, (t = dst \/ t = dst ++ [base]) /\ write_file t d fs = Some fs'
            /\ (isdir dst fs = false -> t = dst).
Proof.
  unfold copy2. destruct (isdir dst fs); intros H.
  - exists (dst ++ [base]). split; [now right|]. split; [exact H|discriminate].
  - exists dst. split; [now left|]. split; [exact H|reflexivity].
Qed.

Lemma app_cons_neq (p : path) (a b : string) : p ++ [a] <> p ++ [b; b].
Proof.
  intros H. apply (f_equal (@List.length string)) in H.
  rewrite !length_app in H. simpl in H. lia.
Qed.

(** The loop over the files of one directory changes no file other than
    its targets. *)
Lemma copy_files_frame es root dest fs q data :
  lookup q fs = Some (File data) ->
  (forall f d, In (f, File d) es -> q <> dest ++ [f] /\ q <> dest ++ [f; f]) ->
  lookup q (snd (copy_files es root dest fs)) = Some (File data).
Proof.
  revert fs; induction es as [|[f [d|sub]] tl IH]; intros fs Hq Hne;
    cbn [copy_files].
  - exact Hq.
  - unfold bind, call.
    destruct (copy2 f d (dest ++ [f]) fs) as [fs1|] eqn:Hc; [|exact Hq].
    apply IH; [|intros g dg Hin; apply (Hne g dg); now right].
    destruct (copy2_target _ _ _ _ Hc) as (t & Ht & Hw & _).
    destruct (Hne f d (or_introl eq_refl)) as [N1 N2].
    eapply write_file_keeps_file; [exact Hw| |exact Hq].
    destruct Ht as [-> | ->]; [exact N1|now rewrite <- app_assoc].
  - apply IH; [exact Hq|]. intros g dg Hin. apply (Hne g dg). now right.
Qed.

Lemma copy_files_no_new_dir es root dest fs q :
  isdir q (snd (copy_files es root dest fs)) = true -> isdir q fs = true.
Proof.
  revert fs; induction es as [|[f [d|sub]] tl IH]; intros fs;
    cbn [copy_files]; [auto| |apply IH].
  unfold bind, call.
  destruct (copy2 f d (dest ++ [f]) fs) as [fs1|] eqn:Hc; [|auto].
  intros H. apply IH in H.
  destruct (copy2_target _ _ _ _ Hc) as (t & _ & Hw & _).
  eapply write_file_no_new_dir; eauto.
Qed.

Lemma may_write_below d sub es rel :
  assoc d es = Some sub -> may_write sub rel -> may_write (Dir es) (d :: rel).
Proof.
  intros Hd [[data H]|(r & f & data & -> & H)].
  - left. exists data. simpl. now rewrite Hd.
  - right. exists (d :: r), f, data. split; [reflexivity|].
    simpl. now rewrite Hd.
Qed.

(** A file of the destination is left as it is unless the merge may
    write its path. *)
Lemma walk_frame src :
  well_formed src ->
  forall root dest fs q data,
    lookup q fs = Some (File data) ->
    (forall rel, q = dest ++ rel -> ~ may_write src rel) ->
    lookup q (snd (walk src root dest fs)) = Some (File data).
Proof.
  induction src as [d|es IH] using node_induction;
    intros Hwf root dest fs q data Hq Hfree; [exact Hq|].
  inversion Hwf as [|es' Hnd Hsub]; subst es'.
  rewrite walk_dir. unfold bind at 1. unfold call.
  destruct (makedirs dest fs) as [fs1|] eqn:Hmk; [|exact Hq].
  assert (Hq1 := makedirs_keeps_file _ _ _ Hmk Hq).
  unfold bind.
  destruct (copy_files es root dest fs1) as [r2 fs2] eqn:Hcf.
  assert (Hq2 : lookup q fs2 = Some (File data)).
  { change fs2 with (snd (r2, fs2)). rewrite <- Hcf.
    apply copy_files_frame; [exact Hq1|].
    intros f d Hin. split; intros ->.
    - apply (Hfree [f] eq_refl). left. exists d. simpl.
      now rewrite (in_assoc _ _ _ Hnd Hin).
    - apply (Hfree [f; f] eq_refl). right. exists [], f, d.
      split; [reflexivity|]. simpl. now rewrite (in_assoc _ _ _ Hnd Hin). }
  destruct r2 as [[]|e]; [|exact Hq2].
  clear Hcf Hq Hq1 Hmk fs fs1.
  assert (Hall : forall l, incl l es ->
            Forall (fun kv => well_formed (snd kv) ->
                      forall root dest fs q data,
                        lookup q fs = Some (File data) ->
                        (forall rel, q = dest ++ rel -> ~ may_write (snd kv) rel) ->
                        lookup q (snd (walk (snd kv) root dest fs))
                        = Some (File data)) l ->
            forall fs, lookup q fs = Some (File data) ->
                       lookup q (snd (walk_all l root dest fs)) = Some (File data)).
  { induction l as [|[k v] tl IHl]; intros Hincl Hl fs Hq; [exact Hq|].
    inversion Hl as [|x y Hv Htl]; subst. cbn [walk_all]. unfold bind.
    assert (Hin : In (k, v) es) by (apply Hincl; now left).
    destruct (walk v (root ++ [k]) (dest ++ [k]) fs) as [r3 fs3] eqn:Hw.
    assert (Hq3 : lookup q fs3 = Some (File data)).
    { change fs3 with (snd (r3, fs3)). rewrite <- Hw.
      apply Hv; [eapply Hsub, Hin|exact Hq|].
      intros rel -> Hmw. rewrite <- app_assoc in Hfree.
      apply (Hfree (k :: rel) eq_refl).
      eapply may_write_below; [apply (in_assoc _ _ _ Hnd Hin)|exact Hmw]. }
    destruct r3 as [[]|e]; [|exact Hq3].
    apply IHl; [|exact Htl|exact Hq3].
    intros x Hx. apply Hincl. now right. }
  apply Hall; [apply incl_refl|exact IH|exact Hq2].
Qed.

Lemma walk_all_extends l root dest : preserves extends (walk_all l root dest).
Proof.
  induction l as [|[d sub] tl IH]; cbn [walk_all].
  - apply preserves_ret, extends_refl.
  - apply preserves_bind; [apply extends_trans|apply walk_extends|intros _; exact IH].
Qed.

Lemma extends_of_run A (m : M node A) fs r fs' :
  preserves extends m -> m fs = (r, fs') -> extends fs fs'.
Proof. intros Hm H. specialize (Hm fs). now rewrite H in Hm. Qed.

(** After a merge that returns, every directory of the source is a
    directory of the destination. *)
Lemma walk_dirs src :
  forall root dest fs fs',
    walk src root dest fs = (Ok tt, fs') ->
    forall rel es', lookup rel src = Some (Dir es') ->
                    isdir (dest ++ rel) fs' = true.
Proof.
  induction src as [d|es IH] using node_induction;
    intros root dest fs fs' Hrun rel es' Hrel.
  { destruct rel; discriminate. }
  rewrite walk_dir in Hrun. unfold bind at 1 in Hrun. unfold call in Hrun.
  destruct (makedirs dest fs) as [fs1|] eqn:Hmk; [|discriminate].
  unfold bind in Hrun.
  destruct (copy_files es root dest fs1) as [[[]|e] fs2] eqn:Hcf; [|discriminate].
  assert (X12 : extends fs1 fs2)
    by (eapply extends_of_run; [apply copy_files_extends|exact Hcf]).
  destruct rel as [|c rel].
  - rewrite app_nil_r.
    eapply extends_isdir;
      [eapply extends_of_run; [apply walk_all_extends|exact Hrun]|].
    eapply extends_isdir; [exact X12|eapply makedirs_isdir, Hmk].
  - simpl in Hrel. destruct (assoc c es) as [sub|] eqn:Hc; [|discriminate].
    clear Hcf X12 Hmk. revert fs2 Hrun.
    induction IH as [|[k v] tl Hv Htl IHl]; intros fs2 Hrun; [discriminate|].
    cbn [walk_all] in Hrun. unfold bind in Hrun.
    destruct (walk v (root ++ [k]) (dest ++ [k]) fs2) as [[[]|e] fs3] eqn:Hw;
      [|discriminate].
    simpl in Hc. destruct (String.eqb c k) eqn:Hck.
    + apply String.eqb_eq in Hck; subst k. injection Hc as ->.
      eapply extends_isdir;
        [eapply extends_of_run; [apply walk_all_extends|exact Hrun]|].
      specialize (Hv _ _ _ _ Hw rel es' Hrel).
      now rewrite <- app_assoc in Hv.
    + eapply IHl; eauto.
Qed.

(** A merge makes directories only at its destination, above it or below
    it. *)
Lemma walk_new_dirs src :
  forall root dest fs q,
    isdir q (snd (walk src root dest fs)) = true ->
    isdir q fs = true \/ is_prefix q dest \/ is_prefix dest q.
Proof.
  induction src as [d|es IH] using node_induction; intros root dest fs q Hq;
    [now left|].
  rewrite walk_dir in Hq. unfold bind at 1 in Hq. unfold call in Hq.
  destruct (makedirs dest fs) as [fs1|] eqn:Hmk; [|now left].
  assert (Hcases : isdir q fs1 = true ->
            isdir q fs = true \/ is_prefix q dest \/ is_prefix dest q).
  { intros H1.
    destruct (classic_prefix q dest) as [Hp|Hp]; [now right; left|].
    left. eapply makedirs_no_new_dir; eauto. }
  unfold bind in Hq.
  destruct (copy_files es root dest fs1) as [r2 fs2] eqn:Hcf.
  assert (Hcases2 : isdir q fs2 = true ->
            isdir q fs = true \/ is_prefix q dest \/ is_prefix dest q).
  { intros H2. apply Hcases. eapply copy_files_no_new_dir.
    rewrite Hcf. exact H2. }
  destruct r2 as [[]|e]; [|now apply Hcases2].
  clear Hcf Hcases Hmk. revert fs2 Hq Hcases2.
  induction IH as [|[k v] tl Hv Htl IHl]; intros fs2 Hq Hcases2;
    [now apply Hcases2|].
  cbn [walk_all] in Hq. unfold bind in Hq.
  destruct (walk v (root ++ [k]) (dest ++ [k]) fs2) as [r3 fs3] eqn:Hw.
  assert (Hcases3 : isdir q fs3 = true ->
            isdir q fs = true \/ is_prefix q dest \/ is_prefix dest q).
  { intros H3. specialize (Hv (root ++ [k]) (dest ++ [k]) fs2 q).
    cbn [snd] in Hv. rewrite Hw in Hv. cbn [snd] in Hv. destruct (Hv H3) as [H|[H|H]].
    - now apply Hcases2.
    - destruct H as [r Hr]. destruct r as [|x r].
      + right; right. exists [k]. rewrite app_nil_r in Hr. now rewrite Hr.
      + right; left. eapply ScratchFacts.prefix_of_parent; [exact Hr|discriminate].
    - right; right. eapply ScratchFacts.prefix_of_longer, H. }
  destruct r3 as [[]|e]; [|now apply Hcases3].
  eapply IHl; eauto.
Qed.

Lemma not_prefix_of_ancestor (t : path) c r : ~ is_prefix (t ++ c :: r) t.
Proof.
  intros [x H]. apply (f_equal (@List.length string)) in H.
  rewrite !length_app in H. simpl in H. lia.
Qed.

Lemma isdir_false_back (P : Prop) q fs fs' :
  (isdir q fs' = true -> isdir q fs = true \/ P) -> ~ P ->
  isdir q fs = false -> isdir q fs' = false.
Proof.
  intros H HP Hf. destruct (isdir q fs') eqn:Hq; [|reflexivity].
  destruct (H eq_refl) as [H1|H1]; [congruence|contradiction].
Qed.

(** The loop over the files puts every file of the directory at its
    place, when there is no directory at that place. *)
Lemma copy_files_copies es root dest fs fs' f d :
  NoDup (map fst es) ->
  copy_files es root dest fs = (Ok tt, fs') ->
  In (f, File d) es -> isdir (dest ++ [f]) fs = false ->
  lookup (dest ++ [f]) fs' = Some (File d).
Proof.
  revert fs; induction es as [|[k [dk|sub]] tl IH]; intros fs Hnd Hrun Hin Hdir;
    [destruct Hin| |]; cbn [copy_files] in Hrun;
    inversion Hnd as [|x l Hnot Hnd']; subst.
  - unfold bind, call in Hrun.
    destruct (copy2 k dk (dest ++ [k]) fs) as [fs1|] eqn:Hc; [|discriminate].
    destruct (copy2_target _ _ _ _ Hc) as (t & Ht & Hw & Hplain).
    destruct Hin as [Heq|Hin].
    + injection Heq as -> ->. rewrite (Hplain Hdir) in Hw.
      change fs' with (snd (Ok tt, fs')). rewrite <- Hrun.
      apply copy_files_frame; [eapply write_file_lookup, Hw|].
      intros g dg Hg. split.
      * intros Heq. apply app_inj_tail in Heq as [_ ->].
        apply Hnot. change g with (fst (g, File dg)). now apply in_map.
      * apply app_cons_neq.
    + eapply IH; eauto.
      destruct (isdir (dest ++ [f]) fs1) eqn:Hd1; [|reflexivity].
      rewrite (write_file_no_new_dir _ _ _ _ Hw Hd1) in Hdir. discriminate.
  - destruct Hin as [Heq|Hin]; [discriminate|]. eapply IH; eauto.
Qed.

(** The walks of the other entries leave a file below the entry [c]
    alone. *)
Lemma walk_all_keeps l root dest c r d :
  (forall k v, In (k, v) l ->
     well_formed v /\ (k <> c \/ exists dd, v = File dd)) ->
  forall fs,
    lookup (dest ++ c :: r) fs = Some (File d) ->
    lookup (dest ++ c :: r) (snd (walk_all l root dest fs)) = Some (File d).
Proof.
  induction l as [|[k v] tl IH]; intros Hl fs Hq; [exact Hq|].
  cbn [walk_all]. unfold bind.
  destruct (walk v (root ++ [k]) (dest ++ [k]) fs) as [r3 fs3] eqn:Hw.
  assert (Hq3 : lookup (dest ++ c :: r) fs3 = Some (File d)).
  { destruct (Hl k v (or_introl eq_refl)) as [Hwf [Hne|[dd ->]]].
    - change fs3 with (snd (r3, fs3)). rewrite <- Hw.
      apply walk_frame; [exact Hwf|exact Hq|].
      intros rel Heq. rewrite <- app_assoc in Heq.
      apply app_inv_head in Heq. injection Heq as -> _. now destruct Hne.
    - simpl in Hw. injection Hw as _ <-. exact Hq. }
  destruct r3 as [[]|e]; [|exact Hq3].
  apply IH; [|exact Hq3]. intros k' v' Hin. apply Hl. now right.
Qed.

(** After a merge that returns, every file of the source is at its place
    in the destination, with the source's bytes, unless a directory was
    at that place. *)
Lemma walk_files src :
  well_formed src ->
  forall root dest fs fs',
    walk src root dest fs = (Ok tt, fs') ->
    forall rel d, rel <> [] -> lookup rel src = Some (File d) ->
                  isdir (dest ++ rel) fs = false ->
                  lookup (dest ++ rel) fs' = Some (File d).
Proof.
  induction src as [d0|es IH] using node_induction;
    intros Hwf root dest fs fs' Hrun rel d Hne Hrel Hdir.
  { destruct rel; [congruence|discriminate]. }
  inversion Hwf as [|es' Hnd Hsub]; subst es'.
  rewrite walk_dir in Hrun. unfold bind at 1 in Hrun. unfold call in Hrun.
  destruct (makedirs dest fs) as [fs1|] eqn:Hmk; [|discriminate].
  unfold bind in Hrun.
  destruct (copy_files es root dest fs1) as [[[]|e] fs2] eqn:Hcf; [|discriminate].
  destruct rel as [|c rel]; [congruence|]. clear Hne.
  simpl in Hrel. destruct (assoc c es) as [child|] eqn:Hc; [|discriminate].
  assert (Hin : In (c, child) es) by now apply assoc_in.
  assert (Hd1 : isdir (dest ++ c :: rel) fs1 = false).
  { destruct (isdir (dest ++ c :: rel) fs1) eqn:E; [|reflexivity].
    rewrite (@makedirs_no_new_dir dest fs fs1 (dest ++ c :: rel) Hmk
               (@not_prefix_of_ancestor dest c rel) E) in Hdir.
    discriminate. }
  assert (Hd2 : isdir (dest ++ c :: rel) fs2 = false).
  { destruct (isdir (dest ++ c :: rel) fs2) eqn:E; [|reflexivity].
    assert (E' : isdir (dest ++ c :: rel) (snd (copy_files es root dest fs1)) = true)
      by now rewrite Hcf.
    apply copy_files_no_new_dir in E'. congruence. }
  assert (Hnames : forall k v, In (k, v) es -> k = c -> v = child).
  { intros k v Hkv ->. apply (in_assoc _ _ _ Hnd) in Hkv. congruence. }
  destruct rel as [|c1 rel1].
  - (* a file of this directory *)
    simpl in Hrel. injection Hrel as ->.
    assert (H2 : lookup (dest ++ [c]) fs2 = Some (File d))
      by (eapply copy_files_copies; eauto).
    change fs' with (snd (Ok tt, fs')). rewrite <- Hrun.
    apply walk_all_keeps; [|exact H2].
    intros k v Hkv. split; [eapply Hsub, Hkv|].
    destruct (string_dec k c) as [Hk|Hk]; [right|now left].
    exists d. now apply (Hnames k v Hkv).
  - (* a file below a subdirectory *)
    clear Hcf Hd1 Hmk Hdir.
    assert (Hgen : forall l, incl l es -> NoDup (map fst l) ->
              Forall (fun kv => well_formed (snd kv) ->
                        forall root dest fs fs',
                          walk (snd kv) root dest fs = (Ok tt, fs') ->
                          forall rel d, rel <> [] ->
                            lookup rel (snd kv) = Some (File d) ->
                            isdir (dest ++ rel) fs = false ->
                            lookup (dest ++ rel) fs' = Some (File d)) l ->
              forall fs2 fs', walk_all l root dest fs2 = (Ok tt, fs') ->
                In (c, child) l ->
                isdir (dest ++ c :: c1 :: rel1) fs2 = false ->
                lookup (dest ++ c :: c1 :: rel1) fs' = Some (File d)).
    { induction l as [|[k v] tl IHl]; intros Hincl Hndl Hl fs0 fs0' Hrun0 Hin0 Hd0;
        [destruct Hin0|].
      inversion Hl as [|x y Hv Htl]; subst.
      inversion Hndl as [|x y Hnot Hndtl]; subst.
      cbn [walk_all] in Hrun0. unfold bind in Hrun0.
      destruct (walk v (root ++ [k]) (dest ++ [k]) fs0) as [[[]|e] fs3] eqn:Hw;
        [|discriminate].
      destruct Hin0 as [Heq|Hin0].
      - injection Heq as -> ->.
        assert (H3 : lookup (dest ++ c :: c1 :: rel1) fs3 = Some (File d)).
        { replace (dest ++ c :: c1 :: rel1) with ((dest ++ [c]) ++ c1 :: rel1)
            by now rewrite <- app_assoc.
          eapply Hv; [eapply Hsub, Hin|exact Hw|discriminate|exact Hrel|].
          now rewrite <- app_assoc. }
        change fs0' with (snd (Ok tt, fs0')). rewrite <- Hrun0.
        apply walk_all_keeps; [|exact H3].
        intros k v Hkv. split; [apply (Hsub k v), Hincl; now right|].
        left. intros ->. apply Hnot.
        change c with (fst (c, v)). now apply in_map.
      - assert (Hkc : k <> c).
        { intros ->. apply Hnot. change c with (fst (c, child)). now apply in_map. }
        eapply IHl; eauto; [intros x Hx; apply Hincl; now right|].
        eapply (isdir_false_back (P := is_prefix (dest ++ c :: c1 :: rel1) (dest ++ [k])
                                        \/ is_prefix (dest ++ [k]) (dest ++ c :: c1 :: rel1)));
          [|intros [[x Hx]|[x Hx]]|exact Hd0].
        + intros Hq. assert (Hn := walk_new_dirs v (root ++ [k]) (dest ++ [k]) fs0
                                      (dest ++ c :: c1 :: rel1)).
          rewrite Hw in Hn. exact (Hn Hq).
        + rewrite <- app_assoc in Hx. apply app_inv_head in Hx.
          injection Hx as -> _. now destruct Hkc.
        + rewrite <- app_assoc in Hx. apply app_inv_head in Hx.
          injection Hx as -> _. now destruct Hkc. }
    eapply Hgen; eauto. apply incl_refl.
Qed.

(** What a merge that returns leaves, for a source tree with no two
    entries of one name in a directory: every directory of the source
    exists in the destination; every file of the source is at its place
    with the source's bytes, unless a directory was at that place; and a
    file of the filesystem is as it was unless the merge may write its
    path. *)
Lemma merge_additive src_dir dst_dir fs src fs' :
  lookup src_dir fs = Some src -> well_formed src ->
  copy_contents src_dir dst_dir fs = (Ok tt, fs') ->
  (forall rel es, lookup rel src = Some (Dir es) ->
     isdir (dst_dir ++ rel) fs' = true)
  /\ (forall rel d, rel <> [] -> lookup rel src = Some (File d) ->
        isdir (dst_dir ++ rel) fs = false ->
        lookup (dst_dir ++ rel) fs' = Some (File d))
  /\ (forall q data, lookup q fs = Some (File data) ->
        (forall rel, q = dst_dir ++ rel -> ~ may_write src rel) ->
        lookup q fs' = Some (File data)).
Proof.
  intros Hsrc Hwf Hrun. unfold copy_contents in Hrun. rewrite Hsrc in Hrun.
  split; [|split].
  - intros rel es. eapply walk_dirs, Hrun.
  - intros rel d. eapply walk_files; eauto.
  - intros q data Hq Hfree. change fs' with (snd (Ok tt, fs')). rewrite <- Hrun.
    now apply walk_frame.
Qed.

(** Without a source file that meets a directory, the paths the merge
    may write are the paths of the source files: a file of the
    destination to which no source entry corresponds is as it was. *)
Lemma merge_frame_without_conflict src_dir dst_dir fs src fs' :
  lookup src_dir fs = Some src -> well_formed src ->
  no_conflict src dst_dir fs ->
  copy_contents src_dir dst_dir fs = (Ok tt, fs') ->
  forall rel data,
    lookup (dst_dir ++ rel) fs = Some (File data) ->
    lookup rel src = None ->
    lookup (dst_dir ++ rel) fs' = Some (File data).
Proof.
  intros Hsrc Hwf Hnc Hrun rel data Hq Hnone.
  destruct (@merge_additive src_dir dst_dir fs src fs' Hsrc Hwf Hrun)
    as (_ & _ & Hframe).
  apply Hframe; [exact Hq|].
  intros rel' Heq. apply app_inv_head in Heq. subst rel'.
  intros [[d H]|(r & f & d & -> & H)]; [congruence|].
  specialize (Hnc _ _ H). unfold isdir in Hnc.
  replace (dst_dir ++ r ++ [f; f]) with ((dst_dir ++ r ++ [f]) ++ [f]) in Hq
    by now rewrite <- !app_assoc.
  rewrite lookup_app in Hq.
  destruct (lookup (dst_dir ++ r ++ [f]) fs) as [[x|x]|]; try discriminate.
Qed.

(** The merge deletes nothing and turns no file into a directory or a
    directory into a file, whether it returns or raises. *)
Lemma merge_never_deletes src_dir dst_dir fs q n :
  lookup q fs = Some n ->
  exists n', lookup q (snd (copy_contents src_dir dst_dir fs)) = Some n'
             /\ same_kind n n'.
Proof. apply (copy_contents_extends src_dir dst_dir fs). Qed.

(** C6 (code defect).  The extracted tree holds one file, [notes]; in
    the installation [notes] is a folder that holds a file [notes].  The
    merge returns without raising, and the installation's
    [notes/notes], to which nothing in the extracted tree corresponds,
    then holds the bytes of the extracted [notes]: [shutil.copy2] copies
    into a destination that is a directory. *)
Theorem merge_overwrites_unrelated_file :
  let run := copy_contents Sample.extracted Sample.install_dir Sample.disk_conflict in
  fst run = Ok tt
  /\ lookup (Sample.extracted ++ ["notes"; "notes"]%string) Sample.disk_conflict
     = None
  /\ lookup (Sample.install_dir ++ ["notes"; "notes"]%string) Sample.disk_conflict
     = Some (File Sample.old_bytes)
  /\ lookup (Sample.install_dir ++ ["notes"; "notes"]%string) (snd run)
     = Some (File Sample.new_bytes).
Proof. vm_compute. repeat split. Qed.

End MergeFacts.

(* ================================================================== *)
(** ** The statements at concrete inputs *)

Module Witness.
Import Fs Update Props.



(** C4, as stated, fails: the newest asset carries the recorded name, no
    folder is selected, and the check ends in the request to select one. *)
Lemma up_to_date_needs_a_folder :
  let E := Sample.env_ok well_behaved true in
  let w := Sample.world_of Sample.disk (VersionRecord (Some Sample.weekly_name)) in
  Feed.get_latest_weekly_asset (feed E) = Ok (Some Sample.weekly_asset)
  /\ load_last_version w = Some (Feed.name Sample.weekly_asset)
  /\ fst (check_and_update E [] w) = NoFolderSelected
  /\ fst (check_and_update E [] w) <> UpToDate.
Proof. vm_compute. repeat split. discriminate. Qed.

(** C4, the amended statement: with the folder selected the check ends
    in [UpToDate]. *)
Lemma up_to_date_witness :
  fst (check_and_update (Sample.env_ok well_behaved true) Sample.install_dir
         (Sample.world_of Sample.disk (VersionRecord (Some Sample.weekly_name))))
  = UpToDate.
Proof.
  exact (proj1 (proj1 (PipelineFacts.up_to_date_stops_before_transfer
                         (Sample.env_ok well_behaved true) Sample.install_dir
                         (Sample.world_of Sample.disk
                            (VersionRecord (Some Sample.weekly_name))))
                      Sample.weekly_asset eq_refl eq_refl)
               eq_refl).
Defined.



End Witness.

(* ================================================================== *)
(** ** More on VersionSource *)

Module FeedMore.
Import Feed Props FeedFacts.

Lemma find_first A (f : A -> bool) (l : list A) :
  match find f l with
  | Some x => exists before after,
                l = before ++ x :: after
                /\ Forall (fun y => f y = false) before /\ f x = true
  | None => Forall (fun y => f y = false) l
  end.
Proof.
  induction l as [|y tl IH]; simpl; [constructor|].
  destruct (f y) eqn:Hy.
  - exists [], tl. repeat split; [constructor|exact Hy].
  - destruct (find f tl) as [x|].
    + destruct IH as (before & after & -> & Hb & Hx).
      exists (y :: before), after. repeat split; [now constructor|exact Hx].
    + now constructor.
Qed.

(** X1.  A feed that is read is searched in feed order, the assets of a
    release in their order: the asset returned is the first one whose
    name the pattern accepts, with that name and its download address;
    nothing is returned only when the pattern accepts no name of the
    feed.  A release without assets and an asset without a name are
    passed over. *)
Theorem first_weekly_asset_in_feed_order (releases : list release_obj) :
  match get_latest_weekly_asset (Json releases) with
  | Ok (Some a) =>
      exists before x after,
        all_assets releases = before ++ x :: after
        /\ Forall (fun y => weekly y = false) before
        /\ weekly x = true
        /\ a = Asset (get (obj_name x) "") (obj_url x)
  | Ok None => Forall (fun y => weekly y = false) (all_assets releases)
  | Raise _ => False
  end.
Proof.
  cbn [get_latest_weekly_asset]. rewrite scan_releases_feed_order.
  assert (H := find_first weekly (all_assets releases)).
  destruct (find weekly (all_assets releases)) as [x|]; cbn [option_map].
  - destruct H as (before & after & H1 & H2 & H3).
    exists before, x, after. repeat split; assumption.
  - exact H.
Qed.

Lemma selected_is_accepted r a :
  get_latest_weekly_asset r = Ok (Some a) -> matches pattern (name a) = true.
Proof.
  destruct r as [what|what|releases]; try discriminate.
  cbn [get_latest_weekly_asset]. rewrite scan_releases_feed_order.
  assert (H := find_first weekly (all_assets releases)).
  destruct (find weekly (all_assets releases)) as [x|]; [|discriminate].
  destruct H as (_ & _ & _ & _ & Hx).
  intros Ha. injection Ha as <-. exact Hx.
Qed.



End FeedMore.

(* ================================================================== *)
(** ** More on VersionProbe *)

Module ProbeMore.
Import PyStr PyRe ProbeText Shapes.

Section Sound.
Variable R : Type.

(** What a greedy repetition hands to its continuation: the rest of the
    text after some characters of the class, at least [lo] of them. *)
Lemma rep_sound cls : forall l lo hi pv (k : cursor -> option R) x,
  rep cls lo hi pv l k = Some x ->
  exists taken rest' pv',
    l = taken ++ rest'
    /\ Forall (fun c => cls c = true) taken
    /\ lo <= List.length taken
    /\ k (Cursor pv' rest') = Some x.
Proof.
  induction l as [|c tl IH]; intros lo hi pv k x H.
  - destruct lo; [|discriminate]. exists [], [], pv. repeat split; auto.
  - assert (Hstop : match lo with
                    | 0 => k (Cursor pv (c :: tl))
                    | S _ => None
                    end = Some x ->
              exists taken rest' pv',
                c :: tl = taken ++ rest'
                /\ Forall (fun c => cls c = true) taken
                /\ lo <= List.length taken
                /\ k (Cursor pv' rest') = Some x).
    { destruct lo; [|discriminate]. intros Hk.
      exists [], (c :: tl), pv. repeat split; auto. }
    cbn [rep] in H. destruct (cls c) eqn:Hc; [|now apply Hstop].
    destruct (within hi); cbn [andb] in H; [|now apply Hstop].
    destruct (rep cls (pred lo) (option_map pred hi) (Some c) tl k) as [y|] eqn:Hr;
      [|now apply Hstop].
    injection H as ->.
    destruct (IH _ _ _ _ _ Hr) as (taken & rest' & pv' & -> & Hall & Hlo & Hk).
    exists (c :: taken), rest', pv'. repeat split; auto.
    cbn [List.length]. lia.
Qed.

(** A pattern without a group leaves the capture as it is. *)
Lemma run_groupless r : groupless r = true ->
  forall p g (k : cursor -> capture -> option R) x,
    run r p g k = Some x -> exists q, k q g = Some x.
Proof.
  induction r as [cls|cls lo hi|r1 IH1 r2 IH2|r1 IH1|r1 IH1| | | |];
    intros Hg p g k x H; cbn [groupless] in Hg; cbn [run] in H;
    try discriminate.
  - destruct (rest p) as [|c tl]; [discriminate|].
    destruct (cls c); [eauto|discriminate].
  - apply rep_sound in H. destruct H as (_ & rest' & pv' & _ & _ & _ & Hk). eauto.
  - apply Bool.andb_true_iff in Hg as [G1 G2].
    destruct (IH1 G1 _ _ _ _ H) as [q Hq]. exact (IH2 G2 _ _ _ _ Hq).
  - destruct (run r1 p g k) as [y|] eqn:Hr; [|eauto].
    injection H as ->. exact (IH1 Hg _ _ _ _ Hr).
  - destruct (at_start p); [eauto|discriminate].
  - destruct (at_end p); [eauto|discriminate].
  - destruct (at_boundary p); [eauto|discriminate].
  - eauto.
Qed.

Lemma span_taken pv pv' (taken rest' : list ascii) :
  span (Cursor pv (taken ++ rest')) (Cursor pv' rest') = taken.
Proof.
  unfold span. cbn [rest]. rewrite length_app.
  replace (List.length taken + List.length rest' - List.length rest')
    with (List.length taken + 0) by lia.
  rewrite firstn_app_2. cbn [firstn]. apply app_nil_r.
Qed.

(** A pattern with one mandatory group hands on the text of that group:
    one or more characters of the class. *)
Lemma run_one_group cls r : one_group cls r ->
  forall p g (k : cursor -> capture -> option R) x,
    run r p g k = Some x ->
    exists q l, l <> [] /\ Forall (fun c => cls c = true) l
                /\ k q (Some l) = Some x.
Proof.
  induction 1 as [lo hi Hlo|r1 r2 G1 _ IH|r1 r2 _ IH G2];
    intros p g k x H; cbn [run] in H.
  - apply rep_sound in H.
    destruct H as (taken & rest' & pv' & Hrest & Hall & Hlen & Hk).
    destruct p as [pv l0]. cbn [rest] in Hrest. subst l0.
    rewrite span_taken in Hk.
    exists (Cursor pv' rest'), taken. repeat split; auto.
    intros ->. cbn in Hlen. lia.
  - destruct (run_groupless r1 G1 _ _ _ H) as [q Hq]. exact (IH _ _ _ _ Hq).
  - destruct (IH _ _ _ _ H) as (q & l & Hne & Hall & Hk).
    destruct (run_groupless r2 G2 _ _ _ Hk) as [q' Hq'].
    exists q', l. auto.
Qed.

End Sound.

Lemma search_from_sound r : forall l pv g,
  search_from r pv l = Some g -> exists p, match_at r p = Some g.
Proof.
  induction l as [|c tl IH]; intros pv g H; cbn [search_from] in H.
  - destruct (match_at r (Cursor pv [])) eqn:Hm; [|discriminate].
    injection H as ->. eauto.
  - destruct (match_at r (Cursor pv (c :: tl))) eqn:Hm.
    + injection H as ->. eauto.
    + eapply IH, H.
Qed.

(** What [re.search] gives for a pattern with one mandatory group. *)
Lemma search_one_group cls r text g :
  one_group cls r -> re_search r text = Some g ->
  exists l, g = Some l /\ l <> [] /\ Forall (fun c => cls c = true) l.
Proof.
  intros Hr H. apply search_from_sound in H as [p Hp].
  unfold match_at in Hp.
  destruct (run_one_group Hr _ _ _ Hp) as (q & l & Hne & Hall & Hk).
  injection Hk as <-. eauto.
Qed.

Lemma chars_str l : chars (str l) = l.
Proof. apply list_ascii_of_string_of_list_ascii. Qed.

Lemma str_not_empty l : l <> [] -> str l <> ""%string.
Proof. destruct l; [congruence|discriminate]. Qed.

Lemma ident_any_case c : icase ident c = ident c.
Proof. destruct c as [[] [] [] [] [] [] [] []]; reflexivity. Qed.

Lemma hex_is_ident c : icase hex c = true -> ident c = true.
Proof. destruct c as [[] [] [] [] [] [] [] []]; vm_compute; auto. Qed.

Lemma one_group_version : one_group token_char version_re.
Proof.
  unfold version_re. cbn [seq].
  apply group_right; [reflexivity|].
  apply group_right; [reflexivity|].
  apply group_here. lia.
Qed.

(** X3.  When the version pattern is found the version reported is
    [FreeCAD] followed by a space and a token of one or more characters,
    none of them white space, a comma or a parenthesis; otherwise it is
    the first line of the text, stripped. *)
Theorem version_token_is_clean (text : string) :
  (exists tok,
     parse_version text = ("FreeCAD " ++ str tok)%string
     /\ tok <> [] /\ Forall (fun c => token_char c = true) tok)
  \/ (re_search version_re text = None
      /\ parse_version text = strip (str (first_line (chars text)))).
Proof.
  unfold parse_version.
  destruct (re_search version_re text) as [g|] eqn:Hs; [left|now right].
  destruct (search_one_group _ one_group_version Hs) as (l & -> & Hne & Hall).
  exists l. auto.
Qed.

(** A revision that the four patterns yield is never empty and holds
    only the letters A-Z and a-z, digits and hyphens, whichever pattern
    found it. *)
Lemma first_revision_shape (text rev : string) :
  first_revision rev_patterns text = Some rev ->
  rev <> ""%string /\ Forall (fun c => ident c = true) (chars rev).
Proof.
  unfold rev_patterns. cbn [first_revision seq].
  assert (Hid : forall r g, one_group (icase ident) r -> re_search r text = Some g ->
            Some (group1 g) = Some rev ->
            rev <> ""%string /\ Forall (fun c => ident c = true) (chars rev)).
  { intros r g Hr Hs Hg.
    destruct (search_one_group _ Hr Hs) as (l & -> & Hne & Hall).
    injection Hg as <-. cbn [group1]. split; [now apply str_not_empty|].
    rewrite chars_str. eapply Forall_impl; [|exact Hall].
    intros c Hc. rewrite <- (ident_any_case c). exact Hc. }
  assert (Hhex : forall r g, one_group (icase hex) r -> re_search r text = Some g ->
            Some (group1 g) = Some rev ->
            rev <> ""%string /\ Forall (fun c => ident c = true) (chars rev)).
  { intros r g Hr Hs Hg.
    destruct (search_one_group _ Hr Hs) as (l & -> & Hne & Hall).
    injection Hg as <-. cbn [group1]. split; [now apply str_not_empty|].
    rewrite chars_str. eapply Forall_impl; [|exact Hall].
    intros c Hc. now apply hex_is_ident. }
  match goal with |- context [re_search ?r text] =>
    destruct (re_search r text) as [g|] eqn:H1 end.
  { intros Hg. eapply Hid; [|exact H1|exact Hg].
    apply group_right; [reflexivity|]. apply group_right; [reflexivity|].
    apply group_here. lia. }
  match goal with |- context [re_search ?r text] =>
    destruct (re_search r text) as [g|] eqn:H2 end.
  { intros Hg. eapply Hid; [|exact H2|exact Hg].
    do 4 (apply group_right; [reflexivity|]). apply group_here. lia. }
  match goal with |- context [re_search ?r text] =>
    destruct (re_search r text) as [g|] eqn:H3 end.
  { intros Hg. eapply Hhex; [|exact H3|exact Hg].
    do 2 (apply group_right; [reflexivity|]). apply group_here. lia. }
  match goal with |- context [re_search ?r text] =>
    destruct (re_search r text) as [g|] eqn:H4 end.
  { intros Hg. eapply Hhex; [|exact H4|exact Hg].
    apply group_right; [reflexivity|]. apply group_left; [|reflexivity].
    apply group_here. lia. }
  discriminate.
Qed.

End ProbeMore.

(* ================================================================== *)
(** ** More on [detect_installed_version] *)

Module DetectMore.
Import PyStr Fs Update Props Probing.

Lemma linebreak_is_space c : is_linebreak c = true -> is_space c = true.
Proof. destruct c as [[] [] [] [] [] [] [] []]; vm_compute; auto. Qed.

Lemma lstrip_head l :
  match lstrip l with
  | [] => True
  | c :: _ => is_space c = false
  end.
Proof.
  induction l as [|c tl IH]; cbn [lstrip]; [exact I|].
  destruct (is_space c) eqn:Hc; [exact IH|exact Hc].
Qed.

Lemma lstrip_last l c :
  is_space c = false -> exists x, lstrip (l ++ [c]) = x ++ [c].
Proof.
  intros Hc. induction l as [|a tl IH]; cbn [lstrip app].
  - rewrite Hc. now exists [].
  - destruct (is_space a); [exact IH|]. now exists (a :: tl).
Qed.

Lemma rstrip_keeps_head c tl :
  is_space c = false -> exists tl', rstrip (c :: tl) = c :: tl'.
Proof.
  intros Hc. unfold rstrip. cbn [rev].
  destruct (lstrip_last (rev tl) c Hc) as [x ->].
  rewrite rev_app_distr. cbn. eauto.
Qed.

(** What [strip] returns is empty or starts with a character that is not
    white space. *)
Lemma strip_head s :
  strip s = ""%string
  \/ exists c tl, chars (strip s) = c :: tl /\ is_space c = false.
Proof.
  unfold strip. assert (H := lstrip_head (chars s)).
  destruct (lstrip (chars s)) as [|c tl]; [now left|right].
  destruct (rstrip_keeps_head c tl H) as [tl' ->].
  exists c, tl'. split; [apply ProbeMore.chars_str|exact H].
Qed.

Lemma truthy_not_empty s : truthy s = true -> s <> ""%string.
Proof. destruct s; [discriminate|discriminate]. Qed.

Lemma parse_version_not_empty text c tl :
  chars text = c :: tl -> is_space c = false ->
  ProbeText.parse_version text <> ""%string.
Proof.
  intros Ht Hc. unfold ProbeText.parse_version.
  destruct (PyRe.re_search ProbeText.version_re text); [discriminate|].
  rewrite Ht. cbn [first_line].
  destruct (is_linebreak c) eqn:Hl;
    [apply linebreak_is_space in Hl; congruence|].
  unfold strip. rewrite ProbeMore.chars_str. cbn [lstrip]. rewrite Hc.
  destruct (rstrip_keeps_head c (first_line tl) Hc) as [tl' ->]. discriminate.
Qed.

Lemma probe_step E exe tl w :
  probe E (exe :: tl) w =
  if isfile exe (fs w) then
    match printed E exe with
    | Some text =>
        (Ok (Some (ProbeText.parse_version text),
             ProbeText.first_revision ProbeText.rev_patterns text),
         with_event (with_fs w (fs w)) (ProbeRun exe))
    | None => probe E tl (with_event (with_fs w (fs w)) (ProbeRun exe))
    end
  else probe E tl (with_fs w (fs w)).
Proof.
  cbn [probe]. unfold bind, on_fs, read, emit, printed. cbn [fst snd].
  destruct (isfile exe (fs w)); [|reflexivity].
  destruct (run_version E exe) as [p|]; [|reflexivity].
  cbv zeta.
  match goal with |- context [if ?c then _ else probe E tl] => destruct c end;
    reflexivity.
Qed.

Lemma printed_head E exe text :
  printed E exe = Some text ->
  exists c tl, chars text = c :: tl /\ is_space c = false.
Proof.
  unfold printed. destruct (run_version E exe) as [p|]; [|discriminate].
  cbv zeta.
  set (out := strip (Feed.get (stdout p) ""%string)).
  set (err := strip (Feed.get (stderr p) ""%string)).
  destruct (truthy (if truthy out then out else err)) eqn:Ht; [|discriminate].
  intros H. injection H as <-. apply truthy_not_empty in Ht.
  destruct (truthy out).
  - destruct (strip_head (Feed.get (stdout p) ""%string)) as [H|H];
      [contradiction|exact H].
  - destruct (strip_head (Feed.get (stderr p) ""%string)) as [H|H];
      [contradiction|exact H].
Qed.



Lemma probe_nothing E exes : forall w,
  (forall exe, In exe exes -> isfile exe (fs w) = false) ->
  fst (probe E exes w) = Ok (None, None)
  /\ trace (snd (probe E exes w)) = trace w.
Proof.
  induction exes as [|exe tl IH]; intros w Hno; [now split|].
  rewrite probe_step, (Hno exe (or_introl eq_refl)).
  apply (IH (with_fs w (fs w))). intros x Hx. apply Hno. now right.
Qed.

(** X5.  With no folder, or with none of the four candidates a file,
    nothing is run and neither a version nor a revision is reported. *)
Theorem nothing_to_probe (E : env) (install_dir : path) (w : world) :
  unspecified install_dir = true
  \/ (forall exe, In exe (exe_candidates install_dir) -> isfile exe (fs w) = false) ->
  fst (detect_installed_version E install_dir w) = Ok (None, None)
  /\ trace (snd (detect_installed_version E install_dir w)) = trace w.
Proof.
  unfold detect_installed_version. intros [H|H].
  - rewrite H. now split.
  - destruct (unspecified install_dir); [now split|now apply probe_nothing].
Qed.

Lemma nothing_to_probe_witness :
  fst (detect_installed_version (Sample.env_ok well_behaved true) Sample.install_dir
         (Sample.world_of Sample.disk NoVersionFile)) = Ok (None, None)
  /\ trace (snd (detect_installed_version (Sample.env_ok well_behaved true)
                   Sample.install_dir (Sample.world_of Sample.disk NoVersionFile)))
     = [].
Proof.
  apply (@nothing_to_probe (Sample.env_ok well_behaved true) Sample.install_dir
           (Sample.world_of Sample.disk NoVersionFile)).
  right. intros exe [<-|[<-|[<-|[<-|[]]]]]; reflexivity.
Defined.

Lemma probe_version_not_empty E exes : forall w version rev,
  fst (probe E exes w) = Ok (Some version, rev) -> version <> ""%string.
Proof.
  induction exes as [|exe tl IH]; intros w version rev H; [discriminate|].
  rewrite probe_step in H. destruct (isfile exe (fs w)); [|eapply IH, H].
  destruct (printed E exe) as [text|] eqn:Hp; [|eapply IH, H].
  cbn in H. injection H as <- _.
  destruct (printed_head _ _ Hp) as (c & l & Hc & Hs).
  eapply parse_version_not_empty; eauto.
Qed.

(** X6.  A version that is reported is never the empty string. *)
Theorem detected_version_not_empty (E : env) (install_dir : path) (w : world)
    (version : string) (rev : option string) :
  fst (detect_installed_version E install_dir w) = Ok (Some version, rev) ->
  version <> ""%string.
Proof.
  unfold detect_installed_version.
  destruct (unspecified install_dir); [discriminate|].
  apply probe_version_not_empty.
Qed.

Lemma detected_version_not_empty_witness :
  fst (detect_installed_version (Sample.env_ok well_behaved true) Sample.install_dir
         (Sample.world_of Sample.disk_installed NoVersionFile))
    = Ok (Some "FreeCAD 0.21.1"%string, Some "abc1234"%string)
  /\ "FreeCAD 0.21.1"%string <> ""%string.
Proof.
  split; [reflexivity|].
  exact (@detected_version_not_empty (Sample.env_ok well_behaved true)
           Sample.install_dir (Sample.world_of Sample.disk_installed NoVersionFile)
           "FreeCAD 0.21.1" (Some "abc1234"%string) eq_refl).
Defined.

Lemma probe_revision_shape E exes : forall w version rev,
  fst (probe E exes w) = Ok (version, Some rev) ->
  rev <> ""%string /\ Forall (fun c => ProbeText.ident c = true) (chars rev).
Proof.
  induction exes as [|exe tl IH]; intros w version rev H; [discriminate|].
  rewrite probe_step in H. destruct (isfile exe (fs w)); [|eapply IH, H].
  destruct (printed E exe) as [text|]; [|eapply IH, H].
  cbn in H. injection H as _ Hr.
  exact (ProbeMore.first_revision_shape _ Hr).
Qed.



(** X8.  [bin/FreeCAD.exe] comes first: when it is a file and prints
    something, what is reported is parsed from its output alone and no
    other candidate is run, whatever else the folder holds. *)
Theorem bin_executable_comes_first (E : env) (install_dir : path) (w : world)
    (text : string) :
  unspecified install_dir = false ->
  isfile (install_dir ++ ["bin"; "FreeCAD.exe"]%string) (fs w) = true ->
  printed E (install_dir ++ ["bin"; "FreeCAD.exe"]%string) = Some text ->
  fst (detect_installed_version E install_dir w)
    = Ok (Some (ProbeText.parse_version text),
          ProbeText.first_revision ProbeText.rev_patterns text)
  /\ trace (snd (detect_installed_version E install_dir w))
     = trace w ++ [ProbeRun (install_dir ++ ["bin"; "FreeCAD.exe"]%string)].
Proof.
  intros Hd Hf Hp. unfold detect_installed_version, exe_candidates.
  rewrite Hd, probe_step, Hf, Hp. now split.
Qed.

Lemma bin_executable_comes_first_witness :
  fst (detect_installed_version (Sample.env_ok well_behaved true) Sample.install_dir
         (Sample.world_of Sample.disk_installed NoVersionFile))
    = Ok (Some (ProbeText.parse_version Sample.probe_text),
          ProbeText.first_revision ProbeText.rev_patterns Sample.probe_text)
  /\ trace (snd (detect_installed_version (Sample.env_ok well_behaved true)
                   Sample.install_dir
                   (Sample.world_of Sample.disk_installed NoVersionFile)))
     = [] ++ [ProbeRun (Sample.install_dir ++ ["bin"; "FreeCAD.exe"]%string)].
Proof.
  exact (@bin_executable_comes_first (Sample.env_ok well_behaved true)
           Sample.install_dir (Sample.world_of Sample.disk_installed NoVersionFile)
           Sample.probe_text eq_refl eq_refl eq_refl).
Defined.

End DetectMore.
(* ================================================================== *)
(** ** InstallSync: what a merge leaves and how it fails *)

Module MergeMore.
Import Fs Update Props FsFacts MergeFacts.

Ltac tree_ok :=
  repeat first
    [ apply wf_file
    | apply wf_dir;
      [ repeat constructor; simpl; intuition discriminate
      | simpl; intros ? ? Hin;
        repeat (destruct Hin as [Hin|Hin]; [injection Hin as <- <-|]);
        try contradiction ] ].






(** X11.  A merge makes folders only on the line of its destination: a
    folder that exists afterwards existed before, or is the
    destination, a folder above it or a folder below it. *)
Theorem merge_makes_folders_only_at_destination (src_dir dst_dir : path)
    (fs : node) (q : path) :
  isdir q (snd (copy_contents src_dir dst_dir fs)) = true ->
  isdir q fs = true \/ is_prefix q dst_dir \/ is_prefix dst_dir q.
Proof.
  unfold copy_contents. destruct (lookup src_dir fs) as [src|]; [|now left].
  apply walk_new_dirs.
Qed.

Lemma merge_makes_folders_only_at_destination_witness :
  isdir (Sample.install_dir ++ ["bin"]%string) Trees.disk_to_merge = true
  \/ is_prefix (Sample.install_dir ++ ["bin"]%string) Sample.install_dir
  \/ is_prefix Sample.install_dir (Sample.install_dir ++ ["bin"]%string).
Proof.
  exact (@merge_makes_folders_only_at_destination Sample.extracted
           Sample.install_dir Trees.disk_to_merge
           (Sample.install_dir ++ ["bin"]%string) eq_refl).
Defined.

Lemma copy_files_raises es root dest fs e :
  fst (copy_files es root dest fs) = Raise e ->
  exists f data, In (f, File data) es
                 /\ e = CopyFailed (root ++ [f]) (dest ++ [f]).
Proof.
  revert fs. induction es as [|[f [data|sub]] tl IH]; intros fs; cbn [copy_files].
  - discriminate.
  - unfold bind, call.
    destruct (copy2 f data (dest ++ [f]) fs) as [fs1|].
    + intros H. destruct (IH _ H) as (f' & d' & Hin & He).
      exists f', d'. split; [now right|exact He].
    + cbn. intros H. injection H as <-. exists f, data. split; [now left|reflexivity].
  - intros H. destruct (IH _ H) as (f' & d' & Hin & He).
    exists f', d'. split; [now right|exact He].
Qed.

Lemma walk_all_raises l root dest fs e :
  fst (walk_all l root dest fs) = Raise e ->
  exists d sub fs1, In (d, sub) l
                    /\ fst (walk sub (root ++ [d]) (dest ++ [d]) fs1) = Raise e.
Proof.
  revert fs. induction l as [|[d sub] tl IH]; intros fs; cbn [walk_all].
  - discriminate.
  - unfold bind.
    destruct (walk sub (root ++ [d]) (dest ++ [d]) fs) as [[[]|e1] fs1] eqn:Hw.
    + intros H. destruct (IH _ H) as (d' & sub' & fs2 & Hin & He).
      exists d', sub', fs2. split; [now right|exact He].
    + cbn. intros H. injection H as <-. exists d, sub, fs.
      split; [now left|]. now rewrite Hw.
Qed.




End MergeMore.
(* ================================================================== *)
(** ** DownloadCache: progress reports and broken downloads *)

Module FetchMore.
Import Fs Update Props FsFacts WorldFacts FetchFacts Reports.

Local Open Scope Z_scope.

Lemma receive_cons cb out_path total x chunk tl written downloaded w :
  receive cb out_path total ((x :: chunk) :: tl) written downloaded w
  = receive cb out_path total tl (written ++ x :: chunk)
      (downloaded + Z.of_nat (List.length (x :: chunk)))
      (snd (report cb (downloaded + Z.of_nat (List.length (x :: chunk))) total
              (snd (store out_path (written ++ x :: chunk) w)))).
Proof.
  cbn [receive]. unfold bind. cbn [store fst snd].
  match goal with
  | |- context [report cb ?d total ?w1] =>
      pose proof (report_ok cb d total w1) as Hok;
      destruct (report cb d total w1) as [r w2]
  end.
  cbn in Hok. now subst r.
Qed.

Lemma last_cons (a d : Z) l : last (a :: l) d = last l a.
Proof.
  revert a d. induction l as [|b l IH]; intros a d; [reflexivity|].
  change (last (a :: b :: l) d) with (last (b :: l) d).
  rewrite IH. symmetry. apply IH.
Qed.

(** The reports of the loop: one for each chunk that is not empty, each
    with the number of bytes received so far. *)
Lemma receive_reports (cb : callback) out_path total chunks :
  forall written downloaded w,
  exists ds,
    trace (snd (receive (Some cb) out_path total chunks written downloaded w))
    = trace w ++ map (fun d => Progress d total) ds
    /\ StronglySorted Z.lt (downloaded :: ds)
    /\ last ds downloaded = downloaded + Z.of_nat (List.length (List.concat chunks))
    /\ List.length ds = List.length (filter not_empty chunks).
Proof.
  induction chunks as [|chunk tl IH]; intros written downloaded w.
  - exists []. cbn. rewrite app_nil_r. repeat split; [|lia].
    constructor; constructor.
  - destruct chunk as [|x chunk]; [apply IH|].
    rewrite receive_cons.
    set (d' := downloaded + Z.of_nat (List.length (x :: chunk))).
    set (w1 := snd (report (Some cb) d' total
                      (snd (store out_path (written ++ x :: chunk) w)))).
    destruct (IH (written ++ x :: chunk) d' w1) as (ds & Ht & Hs & Hl & Hn).
    assert (Hw1 : trace w1 = trace w ++ [Progress d' total]).
    { unfold w1. now rewrite report_trace, store_trace. }
    assert (Hlt : downloaded < d') by (unfold d'; cbn [List.length]; lia).
    exists (d' :: ds). split; [|split; [|split]].
    + rewrite Ht, Hw1, <- app_assoc. reflexivity.
    + constructor; [exact Hs|]. constructor; [exact Hlt|].
      inversion Hs as [|? ? _ Hall]; subst.
      eapply Forall_impl; [|exact Hall]. cbn. intros; lia.
    + rewrite last_cons, Hl. cbn [List.concat]. rewrite length_app.
      unfold d'. lia.
    + cbn [filter not_empty List.length]. now rewrite Hn.
Qed.

(** A download whose request is answered and whose file can be opened:
    the loop runs on the emptied file, and the result is the cache path
    or the error of the broken stream. *)
Lemma fetch_opened E a cb cached_file remote_size w h chunks broken fs1 :
  get E (Feed.url a) = GetOk h chunks broken -> h <> Malformed ->
  write_file cached_file [] (fs w) = Some fs1 ->
  fetch E a cb cached_file false remote_size w
  = (match broken with
     | Some what => Raise (RequestError what)
     | None => Ok cached_file
     end,
     snd (receive cb cached_file (announced h remote_size) chunks [] 0
            (with_fs (with_event w (StreamRequest (Feed.url a))) fs1))).
Proof.
  intros Hget Hh Hopen. unfold fetch. rewrite Hget. unfold bind at 1.
  cbn [emit fst snd].
  set (w0 := with_event w (StreamRequest (Feed.url a))).
  assert (Htotal : (match h with
                    | Absent => ret remote_size
                    | Malformed => raise ValueError
                    | Length n => ret n
                    end) w0 = (Ok (announced h remote_size), w0)).
  { destruct h; [reflexivity|congruence|reflexivity]. }
  unfold bind at 1. rewrite Htotal.
  unfold bind at 1. unfold on_fs, call. cbn [fs w0 with_event]. rewrite Hopen.
  unfold bind at 1.
  set (w1 := with_fs w0 fs1).
  pose proof (@receive_spec cb cached_file (announced h remote_size)
                chunks [] 0 w1 (write_file_lookup _ _ _ Hopen)) as (Hok & _).
  destruct (receive cb cached_file (announced h remote_size) chunks [] 0 w1)
    as [r w2].
  cbn in Hok. subst r. now destruct broken.
Qed.

(** X13.  A download reports its progress once for every chunk that is
    not empty, with the number of bytes received so far: the counts are
    positive and strictly increasing, the total announced is the GET's
    own length or else the size the HEAD request gave, and the last
    count is the number of bytes received.  No other event follows the
    request. *)
Theorem progress_counts_up (E : env) (a : Feed.asset) (cb : callback)
    (cached_file : path) (remote_size : Z) (w : world)
    (h : header) (chunks : list bytes) (broken : option string) (fs1 : node) :
  get E (Feed.url a) = GetOk h chunks broken -> h <> Malformed ->
  write_file cached_file [] (fs w) = Some fs1 ->
  exists ds,
    trace (snd (fetch E a (Some cb) cached_file false remote_size w))
    = trace w ++ StreamRequest (Feed.url a)
              :: map (fun d => Progress d (announced h remote_size)) ds
    /\ StronglySorted Z.lt (0 :: ds)
    /\ last ds 0 = Z.of_nat (List.length (List.concat chunks))
    /\ List.length ds = List.length (filter not_empty chunks).
Proof.
  intros Hget Hh Hopen.
  rewrite (@fetch_opened E a (Some cb) cached_file remote_size w h chunks broken
             fs1 Hget Hh Hopen).
  cbn [snd].
  destruct (receive_reports cb cached_file (announced h remote_size) chunks [] 0
              (with_fs (with_event w (StreamRequest (Feed.url a))) fs1))
    as (ds & Ht & Hs & Hl & Hn).
  exists ds. split; [|now repeat split].
  rewrite Ht. cbn. now rewrite <- app_assoc.
Qed.

Lemma progress_counts_up_witness :
  exists ds,
    trace (snd (fetch (Sample.env_ok well_behaved true) Sample.weekly_asset
                  (Some well_behaved) Sample.cache_file false 3
                  (Sample.world_of Sample.disk_cached NoVersionFile)))
    = [] ++ StreamRequest Sample.weekly_url
            :: map (fun d => Progress d (announced (Length 3) 3)) ds
    /\ StronglySorted Z.lt (0 :: ds)
    /\ last ds 0
       = Z.of_nat (List.length
                     (List.concat [[Sample.b 55; Sample.b 122]; []; [Sample.b 188]]))
    /\ List.length ds
       = List.length (filter not_empty
                        [[Sample.b 55; Sample.b 122]; []; [Sample.b 188]]).
Proof.
  refine (@progress_counts_up (Sample.env_ok well_behaved true) Sample.weekly_asset
            well_behaved Sample.cache_file 3
            (Sample.world_of Sample.disk_cached NoVersionFile)
            (Length 3) [[Sample.b 55; Sample.b 122]; []; [Sample.b 188]] None
            _ eq_refl _ eq_refl).
  discriminate.
Defined.

(** X14.  When the stream breaks, the fetch raises the request's error
    and the cache file is left holding the bytes that had arrived,
    whatever it held before. *)
Theorem broken_stream_leaves_partial_file (E : env) (a : Feed.asset)
    (cb : option callback) (cached_file : path) (remote_size : Z) (w : world)
    (h : header) (chunks : list bytes) (what : string) (fs1 : node) :
  get E (Feed.url a) = GetOk h chunks (Some what) -> h <> Malformed ->
  write_file cached_file [] (fs w) = Some fs1 ->
  let run := fetch E a cb cached_file false remote_size w in
  fst run = Raise (RequestError what)
  /\ lookup cached_file (fs (snd run)) = Some (File (List.concat chunks)).
Proof.
  intros Hget Hh Hopen. cbv zeta.
  rewrite (@fetch_opened E a cb cached_file remote_size w h chunks (Some what)
             fs1 Hget Hh Hopen).
  split; [reflexivity|]. cbn [snd].
  apply (@receive_spec cb cached_file (announced h remote_size) chunks [] 0
           (with_fs (with_event w (StreamRequest (Feed.url a))) fs1)
           (write_file_lookup _ _ _ Hopen)).
Qed.

Lemma broken_stream_leaves_partial_file_witness :
  let run := fetch Trees.env_reset Sample.weekly_asset None Sample.cache_file
               false 3 (Sample.world_of Sample.disk_cached NoVersionFile) in
  fst run = Raise (RequestError "connection reset")
  /\ lookup Sample.cache_file (fs (snd run))
     = Some (File (List.concat [[Sample.b 55; Sample.b 122]])).
Proof.
  refine (@broken_stream_leaves_partial_file Trees.env_reset Sample.weekly_asset
            None Sample.cache_file 3
            (Sample.world_of Sample.disk_cached NoVersionFile)
            (Length 3) [[Sample.b 55; Sample.b 122]] "connection reset"
            _ eq_refl _ eq_refl).
  discriminate.
Defined.

End FetchMore.
(* ================================================================== *)
(** ** UpdatePipeline: what a check does before an update starts, and
    the label after one *)

Module PipelineMore.
Import PyStr Fs Update Props FsFacts WorldFacts PipelineFacts Ui Checks.

Lemma idle_refl w : idle w w.
Proof. now repeat split. Qed.

Lemma idle_trans a b c : idle a b -> idle b c -> idle a c.
Proof.
  intros (F1 & S1 & C1 & T1) (F2 & S2 & C2 & T2). repeat split; congruence.
Qed.

Lemma idle_event w e : is_network e = false -> idle w (with_event w e).
Proof.
  intros He. repeat split. cbn. rewrite filter_app. cbn. rewrite He.
  apply app_nil_r.
Qed.

Lemma idle_detect E install_dir w :
  idle w (snd (detect_installed_version E install_dir w)).
Proof.
  assert (Hq := quiet_detect E install_dir w).
  split; [apply detect_fs|]. destruct Hq as (Hs & Hc & Hev).
  split; [exact Hs|]. split; [exact Hc|].
  apply quiet_network. split; [exact Hs|]. split; [exact Hc|].
  destruct Hev as (evs & Ht & Hall). exists evs. split; [exact Ht|].
  eapply Forall_impl; [|exact Hall]. intros [] H; try destruct H; reflexivity.
Qed.

(** A check that starts no update changes nothing and requests only the
    feed. *)
Lemma check_not_started E install_dir w :
  not_started (fst (check_and_update E install_dir w)) = true ->
  idle (with_event w FeedQuery) (snd (check_and_update E install_dir w)).
Proof.
  rewrite check_and_update_cases. cbv zeta.
  destruct (Feed.get_latest_weekly_asset (feed E)) as [[a|]|e]; cbn [fst snd];
    try (intros _; now apply idle_event).
  destruct (unspecified install_dir); cbn [fst snd];
    [intros _; now apply idle_event|].
  destruct (same_version _ _); cbn [fst snd].
  { intros _. eapply idle_trans; [apply idle_detect|now apply idle_event]. }
  destruct (confirm E).
  - rewrite run_update_thread_cases.
    destruct (update_body E a install_dir _) as [[[]|e] w1]; discriminate.
  - intros _. unfold asked.
    eapply idle_trans; [apply idle_detect|now apply idle_event].
Qed.

(** X15.  Nothing is transferred without the user's consent: when the
    answer to the question is no, the check starts no update, whatever
    the feed holds; the tree, the record and the configuration are as
    before, and the feed query is the only request made. *)
Theorem nothing_without_consent (E : env) (install_dir : path) (w : world) :
  confirm E = false ->
  let run := check_and_update E install_dir w in
  not_started (fst run) = true
  /\ fs (snd run) = fs w /\ saved (snd run) = saved w /\ cfg (snd run) = cfg w
  /\ filter is_network (trace (snd run)) = filter is_network (trace w) ++ [FeedQuery].
Proof.
  intros Hno. cbv zeta.
  assert (Hns : not_started (fst (check_and_update E install_dir w)) = true).
  { rewrite check_and_update_cases. cbv zeta.
    destruct (Feed.get_latest_weekly_asset (feed E)) as [[a|]|e]; try reflexivity.
    destruct (unspecified install_dir); [reflexivity|].
    destruct (same_version _ _); [reflexivity|]. now rewrite Hno. }
  split; [exact Hns|].
  destruct (check_not_started E install_dir w Hns) as (Hf & Hs & Hc & Ht).
  repeat split; try assumption.
  rewrite Ht. cbn. rewrite filter_app. reflexivity.
Qed.

Lemma nothing_without_consent_witness :
  let run := check_and_update (Sample.env_ok well_behaved false) Sample.install_dir
               (Sample.world_of Sample.disk NoVersionFile) in
  not_started (fst run) = true
  /\ fs (snd run) = Sample.disk /\ saved (snd run) = NoVersionFile
  /\ cfg (snd run) = Config None None
  /\ filter is_network (trace (snd run)) = [] ++ [FeedQuery].
Proof.
  exact (@nothing_without_consent (Sample.env_ok well_behaved false)
           Sample.install_dir (Sample.world_of Sample.disk NoVersionFile) eq_refl).
Defined.

(** X16.  The check reports that no weekly build was found exactly when
    the feed was read and the pattern accepts the name of none of its
    assets. *)
Theorem no_build_found_iff (E : env) (install_dir : path) (w : world) :
  fst (check_and_update E install_dir w) = NoBuildFound
  <-> exists releases,
        feed E = Feed.Json releases
        /\ Forall (fun x => weekly x = false) (all_assets releases).
Proof.
  rewrite check_and_update_cases. cbv zeta.
  destruct (feed E) as [what|what|releases] eqn:Hfeed; cbn [Feed.get_latest_weekly_asset].
  - split; [discriminate|]. intros (r & H & _). discriminate.
  - split; [discriminate|]. intros (r & H & _). discriminate.
  - rewrite FeedFacts.scan_releases_feed_order.
    assert (H := FeedMore.find_first weekly (all_assets releases)).
    destruct (find weekly (all_assets releases)) as [x|] eqn:Hfind; cbn [option_map].
    + destruct H as (before & after & Heq & _ & Hx).
      split.
      * destruct (unspecified install_dir); [discriminate|].
        destruct (same_version _ _); [discriminate|].
        destruct (confirm E); [|discriminate].
        rewrite run_update_thread_cases.
        destruct (update_body E _ install_dir _) as [[[]|e] w1]; discriminate.
      * intros (r & Hr & Hall). injection Hr as <-. rewrite Heq in Hall.
        apply Forall_app in Hall. destruct Hall as [_ Hall].
        inversion Hall; subst. congruence.
    + split; [|reflexivity]. intros _. now exists releases.
Qed.

(** X17.  The first progress call of the worker is not guarded: when it
    raises, the update fails with that error before anything is
    requested or written, and the error is shown. *)
Theorem first_report_failure_stops_update (E : env) (a : Feed.asset)
    (install_dir : path) (latest_version : string) (w : world) :
  ui_progress E 0%Z 1%Z = Raises ->
  let run := run_update_thread E a install_dir latest_version w in
  fst run = Failed CallbackRaised
  /\ fs (snd run) = fs w /\ saved (snd run) = saved w /\ cfg (snd run) = cfg w
  /\ trace (snd run)
     = trace w ++ [Progress 0 1; ShowError "Error" (Exception CallbackRaised)].
Proof.
  intros H. cbv zeta. rewrite run_update_thread_cases.
  unfold update_body, announce, bind, emit. cbn [fst snd]. rewrite H.
  cbn. repeat split. now rewrite <- app_assoc.
Qed.

Lemma first_report_failure_stops_update_witness :
  let run := run_update_thread (Sample.env_ok (fun _ _ => Raises) true)
               Sample.weekly_asset Sample.install_dir Sample.weekly_name
               (Sample.world_of Sample.disk NoVersionFile) in
  fst run = Failed CallbackRaised
  /\ fs (snd run) = Sample.disk /\ saved (snd run) = NoVersionFile
  /\ cfg (snd run) = Config None None
  /\ trace (snd run)
     = [] ++ [Progress 0 1; ShowError "Error" (Exception CallbackRaised)].
Proof.
  exact (@first_report_failure_stops_update (Sample.env_ok (fun _ _ => Raises) true)
           Sample.weekly_asset Sample.install_dir Sample.weekly_name
           (Sample.world_of Sample.disk NoVersionFile) eq_refl).
Defined.

Lemma quiet_no_box (P : event -> Prop) w w' :
  (forall e, P e -> is_box e = false) -> quiet P w w' ->
  exists evs, trace w' = trace w ++ evs /\ Forall (fun e => is_box e = false) evs.
Proof.
  intros HP (_ & _ & evs & Ht & Hall). exists evs. split; [exact Ht|].
  eapply Forall_impl; [|exact Hall]. exact HP.
Qed.

Lemma asked_no_box E install_dir w :
  exists evs, trace (asked E install_dir w) = trace w ++ evs
              /\ Forall (fun e => is_box e = false) evs.
Proof.
  destruct (@quiet_no_box probe_event (with_event w FeedQuery)
              (snd (detect_installed_version E install_dir (with_event w FeedQuery))))
    as (evs & Ht & Hall); [|apply quiet_detect|].
  { intros [] H; try destruct H; reflexivity. }
  exists (FeedQuery :: evs ++ [AskYesNo]). split.
  - unfold asked. cbn [trace with_event]. rewrite Ht. cbn.
    now rewrite <- !app_assoc.
  - constructor; [reflexivity|]. apply Forall_app. split; [exact Hall|].
    now constructor.
Qed.

Lemma update_body_no_box E a install_dir w :
  exists evs,
    trace (snd (update_body E a install_dir w)) = trace w ++ evs
    /\ Forall (fun e => is_box e = false) evs.
Proof.
  apply (@quiet_no_box (fun e => is_box e = false)); [auto|].
  revert w. change (preserves (quiet (fun e => is_box e = false))
                      (update_body E a install_dir)).
  unfold update_body.
  apply preserves_bind; [apply quiet_trans| |intros _].
  - unfold announce.
    apply preserves_bind; [apply quiet_trans| |intros _].
    + apply (frame_quiet (p := [])), frame_emit. reflexivity.
    + destruct (ui_progress E 0 1)%Z;
        first [apply preserves_ret|apply preserves_raise]; apply quiet_refl.
  - intros w. eapply quiet_weaken; [|apply quiet_download].
    intros [] H; try destruct H; reflexivity.
Qed.

(** X18.  Every check tells the user how it ended, once and at its end:
    the events of a check hold exactly one message box, the last event,
    with the title and the text of the outcome (an HTTP error under the
    title [HTTP Error], any other error under [Error]); a check that
    the user declines shows none. *)
Theorem check_ends_with_its_box (E : env) (install_dir : path) (w : world) :
  exists before,
    trace (snd (check_and_update E install_dir w))
    = trace w ++ before ++ box_of (fst (check_and_update E install_dir w))
    /\ Forall (fun e => is_box e = false) before.
Proof.
  rewrite check_and_update_cases. cbv zeta.
  assert (Hquery : forall b, exists before,
            trace (with_event (with_event w FeedQuery) b)
            = trace w ++ before ++ [b]
            /\ Forall (fun e => is_box e = false) before).
  { intros b. exists [FeedQuery]. split; [cbn; now rewrite <- app_assoc|].
    now constructor. }
  destruct (Feed.get_latest_weekly_asset (feed E)) as [[a|]|e]; cbn [fst snd];
    try apply Hquery.
  destruct (unspecified install_dir); cbn [fst snd]; [apply Hquery|].
  destruct (same_version _ _); cbn [fst snd].
  { destruct (@quiet_no_box probe_event (with_event w FeedQuery)
                (snd (detect_installed_version E install_dir (with_event w FeedQuery))))
      as (evs & Ht & Hall); [|apply quiet_detect|].
    { intros [] H; try destruct H; reflexivity. }
    exists (FeedQuery :: evs). split.
    - cbn [trace with_event box_of]. rewrite Ht. cbn. now rewrite <- !app_assoc.
    - now constructor. }
  destruct (asked_no_box E install_dir w) as (evs1 & Ht1 & Hall1).
  destruct (confirm E); cbn [fst snd].
  2:{ exists evs1. cbn [box_of]. rewrite app_nil_r. now split. }
  rewrite run_update_thread_cases.
  destruct (update_body_no_box E a install_dir (asked E install_dir w))
    as (evs2 & Ht2 & Hall2).
  destruct (update_body E a install_dir (asked E install_dir w)) as [[[]|e] w1];
    cbn [fst snd] in *.
  - exists (evs1 ++ evs2 ++ [VersionSaved (Feed.name a); ConfigSaved]). split.
    + cbn [trace with_event save_config save_last_version snd box_of].
      rewrite Ht2, Ht1, <- !app_assoc. reflexivity.
    + apply Forall_app. split; [exact Hall1|]. apply Forall_app.
      split; [exact Hall2|]. now repeat constructor.
  - exists (evs1 ++ evs2). split.
    + cbn [trace with_event box_of]. rewrite Ht2, Ht1, <- !app_assoc. reflexivity.
    + apply Forall_app. now split.
Qed.

Lemma accepted_not_empty s : Feed.matches Feed.pattern s = true -> truthy s = true.
Proof.
  destruct s; [|reflexivity]. rewrite FeedFacts.pattern_accepts. discriminate.
Qed.

Lemma probe_revision_not_empty E exes w version rev :
  fst (probe E exes w) = Ok (version, Some rev) -> truthy rev = true.
Proof.
  intros H. destruct (DetectMore.probe_revision_shape _ _ _ H) as [Hne _].
  destruct rev; [now destruct Hne|reflexivity].
Qed.

Lemma probe_version_truthy E exes w version rev :
  fst (probe E exes w) = Ok (Some version, rev) -> truthy version = true.
Proof.
  intros H. apply DetectMore.probe_version_not_empty in H.
  destruct version; [now destruct H|reflexivity].
Qed.

(** The label by cases on what the detection gives. *)
Lemma label_cases E install_dir w :
  fst (update_installed_version_label E install_dir w) =
  match fst (detect_installed_version E install_dir w) with
  | Ok (Some v, Some r) =>
      Ok ("Installed version: " ++ v ++ " (rev: " ++ r ++ ")")%string
  | Ok (Some v, None) => Ok ("Installed version: " ++ v)%string
  | Ok (None, _) =>
      let last := py_or (cfg_last_version (cfg w)) (load_last_version w) in
      if truthy_opt last
      then Ok ("Installed version (from record): " ++ Feed.get last "")%string
      else Ok "Installed version: (not detected)"%string
  | Raise e => Raise e
  end.
Proof.
  unfold update_installed_version_label. unfold bind at 1.
  assert (Hq := quiet_detect E install_dir w).
  destruct (detect_installed_version E install_dir w) as [[[ver rev]|e] w1] eqn:Hd;
    [|reflexivity].
  cbn [fst snd] in *. destruct Hq as (Hs & Hc & _).
  assert (Hv : forall v, ver = Some v -> truthy v = true).
  { intros v ->. revert Hd. unfold detect_installed_version.
    destruct (unspecified install_dir); [discriminate|].
    intros Hd. eapply probe_version_truthy. now rewrite Hd. }
  assert (Hr : forall r, rev = Some r -> truthy r = true).
  { intros r ->. revert Hd. unfold detect_installed_version.
    destruct (unspecified install_dir); [discriminate|].
    intros Hd. eapply probe_revision_not_empty. now rewrite Hd. }
  destruct ver as [v|]; cbn [truthy_opt].
  - rewrite (Hv v eq_refl).
    destruct rev as [r|]; cbn [truthy_opt]; [now rewrite (Hr r eq_refl)|reflexivity].
  - unfold bind, load_config, read. cbn [fst snd].
    unfold load_last_version. rewrite Hs, Hc.
    now destruct (truthy_opt _).
Qed.

(** X19.  After an update that succeeded the label is never
    [(not detected)]: it shows the version an executable of the folder
    reports, with its revision when one is found, and otherwise the
    name of the asset just installed, from the record. *)
Theorem label_after_update (E : env) (install_dir : path) (w w' : world) :
  check_and_update E install_dir w = (Succeeded, w') ->
  exists a,
    Feed.get_latest_weekly_asset (feed E) = Ok (Some a)
    /\ fst (update_installed_version_label E install_dir w') =
       match fst (detect_installed_version E install_dir w') with
       | Ok (Some v, Some r) =>
           Ok ("Installed version: " ++ v ++ " (rev: " ++ r ++ ")")%string
       | Ok (Some v, None) => Ok ("Installed version: " ++ v)%string
       | Ok (None, _) =>
           Ok ("Installed version (from record): " ++ Feed.name a)%string
       | Raise e => Raise e
       end.
Proof.
  intros Hrun.
  destruct (success_inversion _ _ _ Hrun) as (a & w1 & Ha & _ & _ & ->).
  exists a. split; [exact Ha|]. rewrite label_cases.
  match goal with |- context [fst ?d] => destruct (fst d) as [[[v|] r]|e] end;
    try reflexivity.
  cbn [cfg with_event save_config snd cfg_last_version]. unfold py_or.
  cbn [truthy_opt].
  rewrite (accepted_not_empty _ (FeedMore.selected_is_accepted _ Ha)).
  cbn [truthy_opt].
  now rewrite (accepted_not_empty _ (FeedMore.selected_is_accepted _ Ha)).
Qed.

Lemma label_after_update_witness :
  exists a,
    Feed.get_latest_weekly_asset (feed (Sample.env_ok well_behaved true))
    = Ok (Some a)
    /\ fst (update_installed_version_label (Sample.env_ok well_behaved true)
              Sample.install_dir
              (snd (check_and_update (Sample.env_ok well_behaved true)
                      Sample.install_dir
                      (Sample.world_of Sample.disk NoVersionFile)))) =
       match fst (detect_installed_version (Sample.env_ok well_behaved true)
                    Sample.install_dir
                    (snd (check_and_update (Sample.env_ok well_behaved true)
                            Sample.install_dir
                            (Sample.world_of Sample.disk NoVersionFile)))) with
       | Ok (Some v, Some r) =>
           Ok ("Installed version: " ++ v ++ " (rev: " ++ r ++ ")")%string
       | Ok (Some v, None) => Ok ("Installed version: " ++ v)%string
       | Ok (None, _) =>
           Ok ("Installed version (from record): " ++ Feed.name a)%string
       | Raise e => Raise e
       end.
Proof.
  refine (@label_after_update (Sample.env_ok well_behaved true) Sample.install_dir
            (Sample.world_of Sample.disk NoVersionFile) _ _).
  vm_compute. reflexivity.
Defined.

End PipelineMore.
(* ================================================================== *)
(** ** What a failed download or extraction leaves *)

Module FailureFacts.
Import Fs Update Props FsFacts WorldFacts FetchFacts MergeFacts ScratchFacts Keeping.

Lemma put_all_keeps_file p content : forall fs q data,
  ~ is_prefix p q -> lookup q fs = Some (File data) ->
  lookup q (put_all p content fs) = Some (File data).
Proof.
  induction p as [|c p IH]; intros [d|es] q data Hp Hq; cbn [put_all];
    try exact Hq.
  - destruct Hp. apply prefix_nil.
  - destruct (assoc c es) as [m|] eqn:Hc; [|exact Hq].
    destruct q as [|c' q]; [discriminate|]. cbn [lookup] in Hq |- *.
    destruct (String.eqb c' c) eqn:Hcc.
    + apply String.eqb_eq in Hcc; subst c'. rewrite assoc_set_same.
      rewrite Hc in Hq. apply IH; [|exact Hq].
      intros Hpre. apply Hp. now apply prefix_cons.
    + apply String.eqb_neq in Hcc. now rewrite (assoc_set_other _ _ Hcc).
Qed.

Lemma rmtree_keeps_file p : forall fs fs' q data,
  rmtree p fs = Some fs' -> ~ is_prefix p q ->
  lookup q fs = Some (File data) -> lookup q fs' = Some (File data).
Proof.
  induction p as [|c p IH]; intros [d|es] fs' q data H Hp Hq; simpl in H;
    try discriminate.
  destruct (assoc c es) as [m|] eqn:Hc; [|discriminate].
  destruct q as [|c' q]; [discriminate|].
  assert (Hsame : c' = c -> ~ is_prefix p q).
  { intros -> Hpre. apply Hp. now apply prefix_cons. }
  destruct p as [|c1 p1].
  - destruct m as [d|sub]; [discriminate|]. injection H as <-.
    cbn [lookup] in Hq |- *. destruct (String.eqb c' c) eqn:Hcc.
    + apply String.eqb_eq in Hcc. destruct (Hsame Hcc). apply prefix_nil.
    + apply String.eqb_neq in Hcc. now rewrite (assoc_del_other _ Hcc).
  - destruct (rmtree (c1 :: p1) m) as [m'|] eqn:Hr; [|discriminate].
    injection H as <-. cbn [lookup] in Hq |- *.
    destruct (String.eqb c' c) eqn:Hcc.
    + apply String.eqb_eq in Hcc. specialize (Hsame Hcc). subst c'.
      rewrite assoc_set_same. rewrite Hc in Hq. eapply IH; eauto.
    + apply String.eqb_neq in Hcc. now rewrite (assoc_set_other _ _ Hcc).
Qed.

Lemma mkdir_keeps_file p fs fs' q data :
  mkdir p fs = Some fs' ->
  lookup q fs = Some (File data) -> lookup q fs' = Some (File data).
Proof.
  unfold mkdir. destruct (lookup p fs); [discriminate|].
  destruct (isdir (removelast p) fs); [apply makedirs_keeps_file|discriminate].
Qed.

Section Keep.
Variable except : path -> Prop.

Lemma keeps_refl w : keeps except w w.
Proof. intros q data Hq _. exact Hq. Qed.

Lemma keeps_trans a b d : keeps except a b -> keeps except b d -> keeps except a d.
Proof. intros H1 H2 q data Hq Hex. apply H2; [|exact Hex]. now apply H1. Qed.

Lemma keeps_same_fs w w' : fs w' = fs w -> keeps except w w'.
Proof. intros H q data Hq _. unfold keeps. now rewrite H. Qed.

Lemma keeps_emit e : preserves (keeps except) (emit e).
Proof. intros w. now apply keeps_same_fs. Qed.

Lemma keeps_read : preserves (keeps except) (on_fs read).
Proof. intros w. now apply keeps_same_fs. Qed.

Lemma keeps_call e f :
  (forall fs fs', f fs = Some fs' -> keeps_files except fs fs') ->
  preserves (keeps except) (on_fs (call e f)).
Proof.
  intros Hf w. unfold on_fs, call.
  destruct (f (fs w)) as [fs'|] eqn:H; cbn; [now apply Hf|now apply keeps_same_fs].
Qed.

Lemma keeps_makedirs e p : preserves (keeps except) (on_fs (call e (makedirs p))).
Proof.
  apply keeps_call. intros fs fs' H q data Hq _.
  eapply makedirs_keeps_file; eauto.
Qed.

Lemma keeps_report cb d total : preserves (keeps except) (report cb d total).
Proof. intros w. apply keeps_same_fs, report_fs. Qed.

Lemma keeps_store c data : except c -> preserves (keeps except) (store c data).
Proof.
  intros Hc w. unfold store. cbn [snd].
  destruct (write_file c data (fs w)) as [fs'|] eqn:H; [|apply keeps_refl].
  intros q d Hq Hex. cbn. eapply write_file_keeps_file; eauto.
  intros ->. contradiction.
Qed.

Lemma keeps_receive cb c total chunks : except c ->
  forall written downloaded,
    preserves (keeps except) (receive cb c total chunks written downloaded).
Proof.
  intros Hc. induction chunks as [|chunk tl IH]; intros written downloaded.
  - apply preserves_ret, keeps_refl.
  - destruct chunk as [|x chunk]; [apply IH|]. cbn [receive].
    apply preserves_bind; [apply keeps_trans|now apply keeps_store|intros _].
    apply preserves_bind; [apply keeps_trans|apply keeps_report|intros _].
    apply IH.
Qed.

Lemma keeps_mkdtemp E : preserves (keeps except) (mkdtemp E).
Proof.
  unfold mkdtemp.
  apply preserves_bind; [apply keeps_trans|apply keeps_read|intros fs0].
  destruct (first_free _ _ fs0) as [t|]; [|apply preserves_raise, keeps_refl].
  apply preserves_bind; [apply keeps_trans| |intros _].
  { apply keeps_call. intros fs fs' H q data Hq _. eapply mkdir_keeps_file; eauto. }
  apply preserves_bind; [apply keeps_trans|apply keeps_emit|intros _].
  apply preserves_ret, keeps_refl.
Qed.

Lemma keeps_unpack p content :
  (forall q, is_prefix p q -> except q) ->
  preserves (keeps except) (unpack p content).
Proof.
  intros Hp w q data Hq Hex. unfold unpack. cbn.
  apply put_all_keeps_file; [|exact Hq]. intros Hpre. now apply Hex, Hp.
Qed.

Lemma keeps_extract E temp_file p :
  (forall q, is_prefix p q -> except q) ->
  preserves (keeps except) (extract E temp_file p).
Proof.
  intros Hp. unfold extract.
  apply preserves_bind; [apply keeps_trans|apply keeps_emit|intros _].
  destruct (native E temp_file) as [content|why]; [now apply keeps_unpack|].
  apply preserves_bind; [apply keeps_trans|apply keeps_read|intros fs1].
  destruct (locate_7z E fs1) as [seven|].
  - apply preserves_bind; [apply keeps_trans|apply keeps_emit|intros _].
    destruct (tool E seven temp_file);
      first [now apply keeps_unpack|apply preserves_raise, keeps_refl].
  - apply preserves_bind; [apply keeps_trans|apply keeps_emit|intros _].
    destruct (shell E temp_file); try (apply preserves_raise, keeps_refl).
    apply preserves_bind; [apply keeps_trans|now apply keeps_unpack|intros _].
    apply preserves_bind; [apply keeps_trans|apply keeps_read|intros fs2].
    destruct (listdir p fs2) as [[|x l]|];
      first [apply preserves_ret|apply preserves_raise]; apply keeps_refl.
Qed.

Lemma keeps_cleanup t w :
  (forall q, is_prefix t q -> except q) -> keeps except w (cleanup t w).
Proof.
  intros Ht. unfold cleanup.
  destruct (rmtree t (fs w)) as [fs'|] eqn:H; [|apply keeps_refl].
  intros q data Hq Hex. cbn. eapply rmtree_keeps_file; eauto.
Qed.

Variable P : exn -> bool.

Lemma unless_of_preserves A (m : M world A) :
  preserves (keeps except) m -> unless P (keeps except) m.
Proof. intros H w e _ _. apply H. Qed.

Lemma unless_bind A B (m : M world A) (f : A -> M world B) :
  preserves (keeps except) m -> (forall a, unless P (keeps except) (f a)) ->
  unless P (keeps except) (bind m f).
Proof.
  intros Hm Hf w e. unfold bind. specialize (Hm w).
  destruct (m w) as [[a|e1] w1] eqn:Hw; cbn [fst snd] in *.
  - intros H HP. eapply keeps_trans; [exact Hm|]. now apply (Hf a w1 e).
  - intros _ _. exact Hm.
Qed.

Lemma unless_then_never A B (m : M world A) (f : A -> M world B) :
  unless P (keeps except) m ->
  (forall a, raises_only (fun e => negb (P e)) (f a)) ->
  unless P (keeps except) (bind m f).
Proof.
  intros Hm Hf w e. unfold bind. specialize (Hm w).
  destruct (m w) as [[a|e1] w1] eqn:Hw; cbn [fst snd] in *.
  - intros H HP. apply (Hf a w1 e) in H. cbn in H. now rewrite HP in H.
  - intros H HP. injection H as ->. now apply (Hm e).
Qed.

Lemma unless_finally A (m : M world A) (c : world -> world) :
  unless P (keeps except) m -> (forall w, keeps except w (c w)) ->
  unless P (keeps except) (finally m c).
Proof.
  intros Hm Hc w e. unfold finally. specialize (Hm w).
  destruct (m w) as [r w1]; cbn [fst snd] in *.
  intros H HP. eapply keeps_trans; [now apply (Hm e)|apply Hc].
Qed.

End Keep.

Section RaisesOnly.
Context {S : Type}.
Variable P : exn -> bool.

Lemma only_ret A (a : A) : raises_only P (@ret S A a).
Proof. intros s e H. discriminate. Qed.

Lemma only_raise A e : P e = true -> raises_only P (@raise S A e).
Proof. intros HP s e' H. injection H as <-. exact HP. Qed.

Lemma only_bind A B (m : M S A) (f : A -> M S B) :
  raises_only P m -> (forall a, raises_only P (f a)) -> raises_only P (bind m f).
Proof.
  intros Hm Hf s e. unfold bind. specialize (Hm s).
  destruct (m s) as [[a|e1] s1]; cbn [fst] in *; [apply Hf|].
  intros H. injection H as <-. now apply Hm.
Qed.

End RaisesOnly.

Lemma only_on_fs P A (m : M node A) : raises_only P m -> raises_only P (on_fs m).
Proof.
  intros Hm w e. unfold on_fs. specialize (Hm (fs w)).
  destruct (m (fs w)) as [r fs']. exact (Hm e).
Qed.

Lemma only_call P e f : P e = true -> raises_only P (call e f).
Proof.
  intros HP fs e'. unfold call. destruct (f fs); [discriminate|].
  intros H. injection H as <-. exact HP.
Qed.

Lemma only_emit P e : raises_only P (emit e).
Proof. intros w e' H. discriminate. Qed.

Lemma only_unpack P p content : raises_only P (unpack p content).
Proof. intros w e' H. discriminate. Qed.

(** A merge raises only the error of a copy or of a folder. *)
Lemma walk_raises_kind src : forall root dest fs e,
  fst (walk src root dest fs) = Raise e ->
  (exists a b, e = CopyFailed a b) \/ (exists p, e = OSError p).
Proof.
  induction src as [d0|es IH] using node_induction; intros root dest fs e.
  { discriminate. }
  rewrite walk_dir. unfold bind at 1. unfold call at 1.
  destruct (makedirs dest fs) as [fs1|].
  2:{ cbn. intros H. injection H as <-. right. now eexists. }
  unfold bind.
  destruct (copy_files es root dest fs1) as [[[]|e1] fs2] eqn:Hc.
  2:{ cbn. intros H. injection H as <-.
      assert (Hc' : fst (copy_files es root dest fs1) = Raise e1) by now rewrite Hc.
      destruct (@MergeMore.copy_files_raises _ _ _ _ _ Hc') as (f & data & _ & ->).
      left. now do 2 eexists. }
  intros H.
  destruct (@MergeMore.walk_all_raises _ _ _ _ _ H) as (d & sub & fs3 & Hin & Hw).
  rewrite Forall_forall in IH. exact (IH _ Hin _ _ _ _ Hw).
Qed.

Lemma only_copy_contents P src_dir dst_dir :
  (forall a b, P (CopyFailed a b) = true) -> (forall p, P (OSError p) = true) ->
  raises_only P (copy_contents src_dir dst_dir).
Proof.
  intros Hc Ho fs e. unfold copy_contents.
  destruct (lookup src_dir fs) as [src|]; [|discriminate].
  intros H. destruct (walk_raises_kind _ _ _ _ H) as [(a & b & ->)|(p & ->)]; auto.
Qed.

Lemma only_extract E temp_file p :
  raises_only (fun e => negb (refused e)) (extract E temp_file p).
Proof.
  unfold extract.
  apply only_bind; [apply only_emit|intros _].
  destruct (native E temp_file) as [content|why]; [apply only_unpack|].
  apply only_bind; [intros w e H; discriminate|intros fs1].
  destruct (locate_7z E fs1) as [seven|].
  - apply only_bind; [apply only_emit|intros _].
    destruct (tool E seven temp_file);
      first [apply only_unpack|now apply only_raise].
  - apply only_bind; [apply only_emit|intros _].
    destruct (shell E temp_file); try now apply only_raise.
    apply only_bind; [apply only_unpack|intros _].
    apply only_bind; [intros w e H; discriminate|intros fs2].
    destruct (listdir p fs2) as [[|x l]|];
      first [apply only_ret|now apply only_raise].
Qed.

Lemma only_extract_and_merge E install_dir temp_dir temp_file :
  raises_only (fun e => negb (refused e))
    (extract_and_merge E install_dir temp_dir temp_file).
Proof.
  unfold extract_and_merge. cbv zeta.
  apply only_bind; [now apply only_on_fs, only_call|intros _].
  apply only_bind; [apply only_extract|intros _].
  apply only_bind; [intros w e H; discriminate|intros fs1].
  destruct (listdir _ fs1) as [names|]; [|now apply only_raise].
  apply only_on_fs, only_copy_contents; reflexivity.
Qed.

(** The extraction and the merge: an error raised before the merge
    leaves every file outside the scratch folder as it was. *)
Lemma unless_extract_and_merge except E install_dir t temp_file :
  (forall q, is_prefix t q -> except q) ->
  unless before_merge (keeps except) (extract_and_merge E install_dir t temp_file).
Proof.
  intros Ht. unfold extract_and_merge. cbv zeta.
  assert (Hx : forall q, is_prefix (t ++ ["extracted"%string]) q -> except q).
  { intros q Hq. apply Ht. eapply prefix_of_longer, Hq. }
  apply unless_bind; [apply keeps_makedirs|intros _].
  apply unless_bind; [now apply keeps_extract|intros _].
  apply unless_bind; [apply keeps_read|intros fs1].
  destruct (listdir _ fs1) as [names|];
    [|apply unless_of_preserves, preserves_raise, keeps_refl].
  intros w e H Hb.
  assert (Hk := @only_on_fs (fun e => negb (before_merge e)) _
                  (copy_contents (choose_root (t ++ ["extracted"%string]) names fs1)
                                 install_dir)
                  (only_copy_contents _ _ _ (fun _ _ => eq_refl) (fun _ => eq_refl))
                  w e H).
  cbn in Hk. now rewrite Hb in Hk.
Qed.

Lemma keeps_fetch except E a cb c usable remote_size :
  except c -> preserves (keeps except) (fetch E a cb c usable remote_size).
Proof.
  intros Hc. unfold fetch. destruct usable.
  - apply preserves_bind; [apply keeps_trans|apply keeps_report|intros _].
    apply preserves_ret, keeps_refl.
  - apply preserves_bind; [apply keeps_trans|apply keeps_emit|intros _].
    destruct (get E (Feed.url a)) as [what|what|h chunks broken];
      try (apply preserves_raise, keeps_refl).
    apply preserves_bind; [apply keeps_trans| |intros total].
    { destruct h; first [apply preserves_ret|apply preserves_raise];
        apply keeps_refl. }
    apply preserves_bind; [apply keeps_trans| |intros _].
    { apply keeps_call. intros fs fs' H q data Hq Hex.
      eapply write_file_keeps_file; eauto. intros ->. contradiction. }
    apply preserves_bind; [apply keeps_trans|now apply keeps_receive|intros _].
    destruct broken; first [apply preserves_ret|apply preserves_raise];
      apply keeps_refl.
Qed.

(** A fetch that raises the error of a request answered badly has
    written nothing. *)
Lemma unless_refused_fetch except E a cb c usable remote_size :
  unless refused (keeps except) (fetch E a cb c usable remote_size).
Proof.
  unfold fetch. destruct usable.
  - apply unless_of_preserves.
    apply preserves_bind; [apply keeps_trans|apply keeps_report|intros _].
    apply preserves_ret, keeps_refl.
  - apply unless_bind; [apply keeps_emit|intros _].
    destruct (get E (Feed.url a)) as [what|what|h chunks broken];
      try (apply unless_of_preserves, preserves_raise, keeps_refl).
    apply unless_then_never.
    { destruct h; apply unless_of_preserves;
        first [apply preserves_ret|apply preserves_raise]; apply keeps_refl. }
    intros total.
    apply only_bind; [now apply only_on_fs, only_call|intros _].
    apply only_bind; [|intros _; destruct broken;
                        first [apply only_ret|now apply only_raise]].
    intros w e H.
    enough (Hok : exists r, fst (receive cb c total chunks [] 0%Z w) = Ok r)
      by (destruct Hok as [r Hr]; congruence).
    clear H. generalize (@nil Byte.byte) 0%Z w.
    induction chunks as [|chunk tl IH]; intros written downloaded w0.
    + now exists tt.
    + destruct chunk as [|x chunk]; [apply IH|].
      rewrite FetchMore.receive_cons. apply IH.
Qed.

Section Transfer.
Variables (E : env) (a : Feed.asset) (install_dir : path) (cb : option callback).

(** From the creation of the scratch folder on. *)
Lemma unless_scratch P (except : path -> Prop) usable remote_size :
  (forall t, unless P (keeps (fun q => except q \/ is_prefix t q))
               (transfer E a install_dir cb (DOWNLOADS_DIR E ++ [Feed.name a]) usable remote_size t)) ->
  unless P (keeps except)
    (temp_dir <- mkdtemp E ;;
     finally (transfer E a install_dir cb (DOWNLOADS_DIR E ++ [Feed.name a]) usable remote_size temp_dir)
             (cleanup temp_dir)).
Proof.
  intros Htr w e. unfold bind.
  assert (Hk := keeps_mkdtemp except E w).
  destruct (mkdtemp E w) as [[t|e1] w1] eqn:Hmk; cbn [fst snd] in *;
    [|intros _ _; exact Hk].
  destruct (mkdtemp_ok _ _ Hmk) as (Hfresh & _).
  intros H HP q data Hq Hex.
  assert (Hfin := @unless_finally (fun q => except q \/ is_prefix t q) P _
                    (transfer E a install_dir cb (DOWNLOADS_DIR E ++ [Feed.name a]) usable remote_size t)
                    (cleanup t) (Htr t)
                    (fun w => @keeps_cleanup _ t w (fun q Hq => or_intror Hq))
                    w1 e H HP).
  apply Hfin; [now apply Hk|].
  intros [Hx|Hx]; [contradiction|].
  exact (fresh_not_prefix _ Hfresh Hq Hx).
Qed.

Lemma unless_download P (except : path -> Prop) :
  (forall usable remote_size t,
      unless P (keeps (fun q => except q \/ is_prefix t q))
        (transfer E a install_dir cb (DOWNLOADS_DIR E ++ [Feed.name a]) usable remote_size t)) ->
  unless P (keeps except) (download_and_extract E a install_dir cb).
Proof.
  intros Htr. unfold download_and_extract.
  destruct (unspecified install_dir);
    [apply unless_of_preserves, preserves_raise, keeps_refl|].
  apply unless_bind; [apply keeps_makedirs|intros _].
  apply unless_bind; [apply keeps_makedirs|intros _].
  apply unless_bind; [|intros remote_size].
  { unfold remote_size_of.
    apply preserves_bind; [apply keeps_trans|apply keeps_emit|intros _].
    apply preserves_ret, keeps_refl. }
  apply unless_bind; [apply keeps_read|intros fs0].
  cbv zeta. apply unless_scratch. apply Htr.
Qed.

(** X20.  A download or an extraction that fails changes no file: when
    [download_and_extract] raises an error of the request, of the
    stream or of an extractor, every file that existed, the cached
    archive apart, holds the same bytes as before. *)
Theorem failure_before_merge_keeps_files (w : world) (e : exn) :
  fst (download_and_extract E a install_dir cb w) = Raise e ->
  before_merge e = true ->
  forall q data,
    lookup q (fs w) = Some (File data) -> q <> DOWNLOADS_DIR E ++ [Feed.name a] ->
    lookup q (fs (snd (download_and_extract E a install_dir cb w)))
    = Some (File data).
Proof.
  intros H Hb q data Hq Hne.
  refine (@unless_download before_merge (fun q => q = DOWNLOADS_DIR E ++ [Feed.name a]) _ w e H Hb q data Hq Hne).
  intros usable remote_size t. unfold transfer.
  apply unless_bind.
  - apply keeps_fetch. now left.
  - intros temp_file. apply unless_extract_and_merge. intros q' Hq'. now right.
Qed.

(** X21.  A request that is answered with an error status, or with a
    length that is not a number, costs nothing: every file that
    existed, the cached archive too, holds the same bytes as before. *)
Theorem refused_download_keeps_cache (w : world) (e : exn) :
  fst (download_and_extract E a install_dir cb w) = Raise e ->
  refused e = true ->
  forall q data,
    lookup q (fs w) = Some (File data) ->
    lookup q (fs (snd (download_and_extract E a install_dir cb w)))
    = Some (File data).
Proof.
  intros H Hb q data Hq.
  refine (@unless_download refused nowhere _ w e H Hb q data Hq (fun x => x)).
  intros usable remote_size t. unfold transfer.
  apply unless_then_never.
  - apply unless_refused_fetch.
  - intros temp_file. apply only_extract_and_merge.
Qed.

End Transfer.

Lemma grows_on_fs A (m : M node A) :
  preserves extends m -> preserves (fun w w' => extends (fs w) (fs w')) (on_fs m).
Proof.
  intros Hm w. unfold on_fs. specialize (Hm (fs w)).
  now destruct (m (fs w)) as [r fs'].
Qed.

Lemma grows_makedirs e p :
  preserves (fun w w' => extends (fs w) (fs w')) (on_fs (call e (makedirs p))).
Proof.
  apply grows_on_fs, preserves_call; [apply extends_refl|].
  intros fs fs'. apply makedirs_extends.
Qed.

(** From the creation of the scratch folder on, nothing that existed is
    lost: the scratch folder is new, and only what is in it is removed. *)
Lemma grows_scratch E a install_dir cb c usable remote_size w :
  extends (fs w)
    (fs (snd ((temp_dir <- mkdtemp E ;;
               finally (transfer E a install_dir cb c usable remote_size temp_dir)
                       (cleanup temp_dir)) w))).
Proof.
  unfold bind.
  destruct (mkdtemp E w) as [[t|e1] w1] eqn:Hmk; cbn [fst snd].
  2:{ destruct (mkdtemp_raise _ _ Hmk) as [-> _]. apply extends_refl. }
  destruct (mkdtemp_ok _ _ Hmk) as (Hfresh & _ & _ & Hext & _).
  unfold finally.
  assert (Hfr := frame_transfer E a install_dir cb c usable remote_size t w1).
  destruct (transfer E a install_dir cb c usable remote_size t w1) as [r w2].
  cbn [fst snd] in *. destruct Hfr as [_ Hout].
  assert (Hclean : extends_outside t (fs w2) (fs (cleanup t w2))).
  { unfold cleanup. destruct (rmtree t (fs w2)) as [fs'|] eqn:Hrm;
      [eapply rmtree_outside, Hrm|apply outside_refl]. }
  intros q n Hq.
  assert (Hnp : ~ is_prefix t q) by exact (fresh_not_prefix _ Hfresh Hq).
  destruct (Hext q n Hq) as (n1 & H1 & K1).
  destruct (Hout q n1) as (n2 & H2 & K2); [|exact H1|].
  { intros Hx. apply Hnp. eapply prefix_of_longer, Hx. }
  destruct (Hclean q n2 Hnp H2) as (n3 & H3 & K3).
  exists n3. split; [exact H3|].
  eapply same_kind_trans; [|exact K3]. eapply same_kind_trans; eassumption.
Qed.

(** X22.  An update removes nothing: whatever path existed before
    [download_and_extract] exists after it, a file still a file and a
    folder still a folder, whether the call returns or raises.  What
    the call removes is in the scratch folder it has made. *)
Theorem update_removes_nothing (E : env) (a : Feed.asset) (install_dir : path)
    (cb : option callback) (w : world) (q : path) (n : node) :
  lookup q (fs w) = Some n ->
  exists n',
    lookup q (fs (snd (download_and_extract E a install_dir cb w))) = Some n'
    /\ same_kind n n'.
Proof.
  revert q n. change (extends (fs w)
                        (fs (snd (download_and_extract E a install_dir cb w)))).
  revert w. change (preserves (fun w w' => extends (fs w) (fs w'))
                      (download_and_extract E a install_dir cb)).
  assert (Hrefl : forall w : world, extends (fs w) (fs w))
    by (intros w; apply extends_refl).
  assert (Htrans : forall a b c : world, extends (fs a) (fs b) ->
            extends (fs b) (fs c) -> extends (fs a) (fs c))
    by (intros x y z; apply extends_trans).
  unfold download_and_extract.
  destruct (unspecified install_dir); [now apply preserves_raise|].
  apply preserves_bind; [exact Htrans|apply grows_makedirs|intros _].
  apply preserves_bind; [exact Htrans|apply grows_makedirs|intros _].
  apply preserves_bind; [exact Htrans| |intros remote_size].
  { intros w. apply extends_refl. }
  apply preserves_bind; [exact Htrans| |intros fs0].
  { intros w. apply extends_refl. }
  cbv zeta. intros w. apply grows_scratch.
Qed.

Lemma update_removes_nothing_witness :
  exists n',
    lookup (Sample.install_dir ++ ["user.cfg"]%string)
      (fs (snd (download_and_extract (Sample.env_ok well_behaved true)
                  Sample.weekly_asset Sample.install_dir None
                  (Sample.world_of Sample.disk NoVersionFile))))
    = Some n'
    /\ same_kind (File Sample.old_bytes) n'.
Proof.
  exact (@update_removes_nothing (Sample.env_ok well_behaved true)
           Sample.weekly_asset Sample.install_dir None
           (Sample.world_of Sample.disk NoVersionFile)
           (Sample.install_dir ++ ["user.cfg"]%string) (File Sample.old_bytes)
           eq_refl).
Defined.

Lemma failure_before_merge_keeps_files_witness :
  lookup (Sample.install_dir ++ ["user.cfg"]%string)
    (fs (snd (download_and_extract
                (Sample.env_fallback (ToolExit "") NoAutomation)
                Sample.weekly_asset Sample.install_dir None
                (Sample.world_of Sample.disk NoVersionFile))))
  = Some (File Sample.old_bytes).
Proof.
  refine (@failure_before_merge_keeps_files
            (Sample.env_fallback (ToolExit "") NoAutomation)
            Sample.weekly_asset Sample.install_dir None
            (Sample.world_of Sample.disk NoVersionFile) _ _ _
            (Sample.install_dir ++ ["user.cfg"]%string) Sample.old_bytes eq_refl _);
    [vm_compute; reflexivity|reflexivity|discriminate].
Defined.

Lemma refused_download_keeps_cache_witness :
  lookup Sample.cache_file
    (fs (snd (download_and_extract Trees.env_refused Sample.weekly_asset
                Sample.install_dir None
                (Sample.world_of Trees.disk_stale NoVersionFile))))
  = Some (File [Sample.b 55; Sample.b 122]).
Proof.
  refine (@refused_download_keeps_cache Trees.env_refused Sample.weekly_asset
            Sample.install_dir None
            (Sample.world_of Trees.disk_stale NoVersionFile) _ _ _
            Sample.cache_file [Sample.b 55; Sample.b 122] eq_refl);
    [vm_compute; reflexivity|reflexivity].
Defined.

End FailureFacts.
(* ================================================================== *)
(** ** InstallSync: when a merge returns *)

Module MergeReturns.
Import Fs Update Props FsFacts MergeFacts Clash.


(** [os.makedirs] makes no file. *)
Lemma makedirs_no_new_file p : forall fs fs' q data,
  makedirs p fs = Some fs' ->
  lookup q fs' = Some (File data) -> lookup q fs = Some (File data).
Proof.
  induction p as [|c p IH]; intros [d|es] fs' q data H Hq; simpl in H;
    try discriminate.
  - now injection H as <-.
  - destruct (makedirs p _) as [m'|] eqn:Hm; [|discriminate].
    injection H as <-. destruct q as [|c' q]; [discriminate|].
    cbn [lookup] in Hq |- *.
    destruct (String.eqb c' c) eqn:Hcc.
    + apply String.eqb_eq in Hcc; subst c'. rewrite assoc_set_same in Hq.
      specialize (IH _ _ _ _ Hm Hq).
      destruct (assoc c es) as [m|]; [exact IH|].
      destruct q; discriminate.
    + apply String.eqb_neq in Hcc. now rewrite (assoc_set_other _ _ Hcc) in Hq.
Qed.







Section Invariant.
Variables (top : node) (dest0 : path).




Hypothesis top_ok : well_formed top.


End Invariant.




End MergeReturns.
(* ================================================================== *)
(** ** The order of the events of a download *)

Module OrderFacts.
Import Fs Update Props FsFacts WorldFacts PipelineFacts FetchFacts ScratchFacts Order.

Local Open Scope Z_scope.

Lemma quiet_extract E temp_file extract_dir :
  preserves (quiet extract_event) (extract E temp_file extract_dir).
Proof.
  apply (frame_quiet (p := extract_dir)). unfold extract.
  apply preserves_bind; [apply frame_trans|now apply frame_emit|intros _].
  destruct (native E temp_file) as [content|why]; [apply frame_unpack|].
  apply preserves_bind; [apply frame_trans|apply frame_read|intros fs1].
  destruct (locate_7z E fs1) as [seven|].
  - apply preserves_bind; [apply frame_trans|now apply frame_emit|intros _].
    destruct (tool E seven temp_file);
      first [apply frame_unpack|apply preserves_raise, frame_refl].
  - apply preserves_bind; [apply frame_trans|now apply frame_emit|intros _].
    destruct (shell E temp_file); try (apply preserves_raise, frame_refl).
    apply preserves_bind; [apply frame_trans|apply frame_unpack|intros _].
    apply preserves_bind; [apply frame_trans|apply frame_read|intros fs2].
    destruct (listdir extract_dir fs2) as [[|x l]|];
      first [apply preserves_ret|apply preserves_raise]; apply frame_refl.
Qed.

Lemma quiet_extract_and_merge E install_dir temp_dir temp_file :
  preserves (quiet extract_event)
    (extract_and_merge E install_dir temp_dir temp_file).
Proof.
  unfold extract_and_merge. cbv zeta.
  apply preserves_bind; [apply quiet_trans| |intros _].
  { apply (frame_quiet (p := [])), frame_call. intros fs fs'. apply makedirs_extends. }
  apply preserves_bind; [apply quiet_trans|apply quiet_extract|intros _].
  apply preserves_bind; [apply quiet_trans| |intros fs1].
  { apply (frame_quiet (p := [])), frame_read. }
  destruct (listdir _ fs1) as [names|]; [|apply preserves_raise, quiet_refl].
  apply (frame_quiet (p := [])), frame_on_fs. intros fs.
  apply extends_is_outside, copy_contents_extends.
Qed.

(** The events of a fetch. *)
Lemma fetch_events E a cb c usable remote_size w :
  (usable = true -> remote_size <> 0) ->
  exists pre,
    trace (snd (fetch E a cb c usable remote_size w)) = trace w ++ pre
    /\ fetched (Feed.url a) remote_size pre
    /\ (usable = false -> exists rest, pre = StreamRequest (Feed.url a) :: rest).
Proof.
  intros Hne. destruct usable.
  - specialize (Hne eq_refl). unfold fetch. destruct cb as [f|].
    + exists [Progress remote_size remote_size]. split; [|split].
      * unfold bind. cbn [report]. unfold bind, emit. cbn [fst snd].
        now destruct (f remote_size remote_size).
      * left. split; [exact Hne|now right].
      * discriminate.
    + exists []. split; [cbn; now rewrite app_nil_r|]. split; [|discriminate].
      left. split; [exact Hne|now left].
  - set (w0 := with_event w (StreamRequest (Feed.url a))).
    assert (Hq : quiet progress_event w0
                   (snd (fetch E a cb c false remote_size w))).
    { unfold fetch. unfold bind at 1. cbn [emit fst snd]. fold w0.
      destruct (get E (Feed.url a)) as [what|what|h chunks broken];
        try apply quiet_refl.
      apply (frame_quiet (p := [])).
      apply preserves_bind; [apply frame_trans| |intros total].
      { destruct h; first [apply preserves_ret|apply preserves_raise];
          apply frame_refl. }
      apply preserves_bind; [apply frame_trans| |intros _].
      { apply frame_call. intros fs fs'. apply write_file_extends. }
      apply preserves_bind; [apply frame_trans| |intros _].
      { apply frame_receive. intros; exact I. }
      destruct broken; first [apply preserves_ret|apply preserves_raise];
        apply frame_refl. }
    destruct Hq as (_ & _ & rest & Ht & Hall).
    exists (StreamRequest (Feed.url a) :: rest). split; [|split].
    + rewrite Ht. cbn. now rewrite <- app_assoc.
    + right. now exists rest.
    + intros _. now exists rest.
Qed.

Lemma cleanup_trace t w : trace (cleanup t w) = trace w.
Proof. unfold cleanup. now destruct (rmtree t (fs w)). Qed.

Lemma call_trace e f w : trace (snd (on_fs (call e f) w)) = trace w.
Proof. unfold on_fs, call. now destruct (f (fs w)). Qed.

(** The events of one call, with the size the HEAD request gave. *)
Lemma download_events E a install_dir cb w :
  exists evs,
    trace (snd (download_and_extract E a install_dir cb w)) = trace w ++ evs
    /\ in_order (Feed.url a) (reported_size (head E (Feed.url a))) evs
    /\ (reported_size (head E (Feed.url a)) = 0 ->
        forall t, In (ScratchCreated t) evs -> In (StreamRequest (Feed.url a)) evs).
Proof.
  assert (Hnone : forall w1 : world, trace w1 = trace w ->
            exists evs, trace w1 = trace w ++ evs
              /\ in_order (Feed.url a) (reported_size (head E (Feed.url a))) evs
              /\ (reported_size (head E (Feed.url a)) = 0 ->
                  forall t, In (ScratchCreated t) evs ->
                            In (StreamRequest (Feed.url a)) evs)).
  { intros w1 H. exists []. rewrite app_nil_r. split; [exact H|].
    split; [now left|]. intros _ t []. }
  unfold download_and_extract.
  destruct (unspecified install_dir); [now apply Hnone|].
  unfold bind at 1.
  pose proof (call_trace (OSError install_dir) (makedirs install_dir) w) as H1.
  destruct (on_fs (call (OSError install_dir) (makedirs install_dir)) w)
    as [[[]|e1] w1]; cbn [fst snd] in *; [|now apply Hnone].
  unfold bind at 1.
  pose proof (call_trace (OSError (DOWNLOADS_DIR E)) (makedirs (DOWNLOADS_DIR E)) w1)
    as H2.
  destruct (on_fs (call (OSError (DOWNLOADS_DIR E)) (makedirs (DOWNLOADS_DIR E))) w1)
    as [[[]|e2] w2]; cbn [fst snd] in *; [|apply Hnone; congruence].
  unfold bind at 1. unfold remote_size_of at 1. unfold bind at 1.
  cbn [emit ret fst snd].
  set (w3 := with_event w2 (HeadRequest (Feed.url a))).
  replace (match head E (Feed.url a) with
           | HeadFails => 0
           | HeadOk Absent => 0
           | HeadOk Malformed => 0
           | HeadOk (Length n) => n
           end) with (reported_size (head E (Feed.url a)))
    by (destruct (head E (Feed.url a)) as [|[| |n]]; reflexivity).
  set (size := reported_size (head E (Feed.url a))).
  assert (H3 : trace w3 = trace w ++ [HeadRequest (Feed.url a)]).
  { unfold w3. cbn. congruence. }
  unfold bind at 1. cbn [on_fs read fst snd].
  replace (with_fs w3 (fs w3)) with w3 by now destruct w3.
  unfold bind at 1.
  destruct (mkdtemp E w3) as [[t|e3] w4] eqn:Hmk; cbn [fst snd].
  2:{ destruct (mkdtemp_raise _ _ Hmk) as [_ Ht].
      exists [HeadRequest (Feed.url a)]. split; [congruence|].
      split; [right; now left|].
      intros _ t [H|[]]. discriminate. }
  destruct (mkdtemp_ok _ _ Hmk) as (_ & _ & _ & _ & H4).
  unfold finally, transfer.
  set (c := DOWNLOADS_DIR E ++ [Feed.name a]).
  (* the cache is judged on the tree before the scratch folder is made *)
  match goal with
  | |- context [fetch E a cb c ?u size] => set (usable := u)
  end.
  unfold bind.
  assert (Hknown : usable = true -> size <> 0).
  { intros Hu. apply use_cached_iff in Hu. now destruct Hu as (data & _ & _ & Hne). }
  destruct (@fetch_events E a cb c usable size w4 Hknown) as (pre & Hpt & Hpf & Hp0).
  assert (Hshape : forall post w',
            trace w' = trace (snd (fetch E a cb c usable size w4)) ++ post ->
            Forall extract_event post ->
            exists evs,
              trace (cleanup t w') = trace w ++ evs
              /\ in_order (Feed.url a) size evs
              /\ (size = 0 -> forall t0, In (ScratchCreated t0) evs ->
                              In (StreamRequest (Feed.url a)) evs)).
  { intros post w' Hw' Hpost.
    exists (HeadRequest (Feed.url a) :: ScratchCreated t :: pre ++ post).
    split; [|split].
    - rewrite cleanup_trace, Hw', Hpt, H4, H3, <- !app_assoc. reflexivity.
    - right. right. now exists t, pre, post.
    - intros H0 t0 _. destruct usable; [now destruct Hknown|].
      destruct (Hp0 eq_refl) as [rest ->]. right. right. now left. }
  destruct (fetch E a cb c usable size w4) as [[temp_file|e4] w5] eqn:Hf;
    cbn [fst snd] in *.
  - assert (Hq := quiet_extract_and_merge E install_dir t temp_file w5).
    destruct (extract_and_merge E install_dir t temp_file w5) as [r w6].
    cbn [fst snd] in *. destruct Hq as (_ & _ & post & Ht & Hall).
    now apply (Hshape post).
  - apply (Hshape []); [now rewrite app_nil_r|constructor].
Qed.

(** X24.  The events of [download_and_extract] come in one order.  A
    call adds no event at all; or the HEAD request alone; or the HEAD
    request, the creation of the scratch folder, the events of the fetch
    (the cached archive reused, with at most one report of its size, or
    the streamed request followed by the reports of the download), and
    only then the attempts to extract. *)
Theorem download_events_in_order (E : env) (a : Feed.asset) (install_dir : path)
    (cb : option callback) (w : world) :
  exists evs,
    trace (snd (download_and_extract E a install_dir cb w)) = trace w ++ evs
    /\ in_order (Feed.url a) (reported_size (head E (Feed.url a))) evs.
Proof.
  destruct (download_events E a install_dir cb w) as (evs & Ht & Ho & _).
  now exists evs.
Qed.

(** X25.  Without a size from the HEAD request (it failed, or gave no
    length, a malformed one or 0) the cached archive is never reused: a
    call that gets as far as its scratch folder requests the archive
    again, whatever the cache holds. *)
Theorem unknown_size_downloads_again (E : env) (a : Feed.asset)
    (install_dir : path) (cb : option callback) (w : world) :
  reported_size (head E (Feed.url a)) = 0 ->
  exists evs,
    trace (snd (download_and_extract E a install_dir cb w)) = trace w ++ evs
    /\ forall t, In (ScratchCreated t) evs -> In (StreamRequest (Feed.url a)) evs.
Proof.
  intros H0.
  destruct (download_events E a install_dir cb w) as (evs & Ht & _ & Hs).
  exists evs. split; [exact Ht|]. now apply Hs.
Qed.

Lemma unknown_size_downloads_again_witness :
  exists evs,
    trace (snd (download_and_extract Trees.env_no_size Sample.weekly_asset
                  Sample.install_dir None
                  (Sample.world_of Sample.disk_cached NoVersionFile)))
    = [] ++ evs
    /\ forall t, In (ScratchCreated t) evs ->
                 In (StreamRequest (Feed.url Sample.weekly_asset)) evs.
Proof.
  exact (@unknown_size_downloads_again Trees.env_no_size Sample.weekly_asset
           Sample.install_dir None
           (Sample.world_of Sample.disk_cached NoVersionFile) eq_refl).
Defined.

End OrderFacts.
(* ================================================================== *)
(** ** From the archive to the installation *)

Module InstallFacts.
Import Fs Update Props FsFacts WorldFacts MergeFacts ScratchFacts.

(** A folder that [os.makedirs] had to make is empty. *)
Lemma makedirs_new_is_empty p : forall fs fs',
  lookup p fs = None -> makedirs p fs = Some fs' -> lookup p fs' = Some (Dir []).
Proof.
  induction p as [|c p IH]; intros [d|es] fs' Hn H; simpl in H; try discriminate.
  cbn [lookup] in Hn.
  destruct (makedirs p _) as [m'|] eqn:Hm; [|discriminate].
  injection H as <-. cbn [lookup]. rewrite assoc_set_same.
  destruct (assoc c es) as [m|]; [now apply (IH m)|].
  destruct p as [|c' p]; [cbn in Hm; now injection Hm as <-|].
  now apply (IH (Dir [])).
Qed.

(** What an extractor leaves in its folder. *)
Lemma put_all_lookup p content : forall fs es,
  lookup p fs = Some (Dir es) ->
  lookup p (put_all p content fs) = Some (Dir (put_entries content es)).
Proof.
  induction p as [|c p IH]; intros [d|es0] es H; cbn [lookup] in H;
    try discriminate.
  - injection H as ->. reflexivity.
  - destruct (assoc c es0) as [m|] eqn:Hc; [|discriminate].
    cbn [put_all]. rewrite Hc. cbn [lookup]. rewrite assoc_set_same.
    now apply IH.
Qed.

(** An extractor makes no folder outside its own. *)
Lemma put_all_no_new_dir p content : forall fs q,
  ~ is_prefix p q -> isdir q (put_all p content fs) = true -> isdir q fs = true.
Proof.
  unfold isdir.
  induction p as [|c p IH]; intros [d|es] q Hp Hq; cbn [put_all] in Hq;
    try exact Hq.
  - destruct Hp. apply prefix_nil.
  - destruct (assoc c es) as [m|] eqn:Hc; [|exact Hq].
    destruct q as [|c' q]; [reflexivity|]. cbn [lookup] in Hq |- *.
    destruct (String.eqb c' c) eqn:Hcc.
    + apply String.eqb_eq in Hcc; subst c'. rewrite assoc_set_same in Hq.
      rewrite Hc. apply IH; [|exact Hq].
      intros Hpre. apply Hp. now apply prefix_cons.
    + apply String.eqb_neq in Hcc. now rewrite (assoc_set_other _ _ Hcc) in Hq.
Qed.

(** What has something below it is a folder. *)
Lemma above_is_dir q r fs n :
  lookup (q ++ r) fs = Some n -> r <> [] -> isdir q fs = true.
Proof.
  intros H Hr. rewrite lookup_app in H. unfold isdir.
  destruct (lookup q fs) as [[d|es]|]; try discriminate; [|reflexivity].
  destruct r; [congruence|discriminate].
Qed.

(** X26.  A build that the archive wraps in one top-level folder is
    installed unwrapped.  When py7zr extracts a single folder into the
    empty scratch folder and [extract_and_merge] returns, every folder
    of the wrapped content is a folder of the installation, and every
    file of it is at the same relative place with its bytes, unless a
    folder was at that place before; paths in the scratch folder
    apart. *)
Theorem wrapped_build_is_installed (E : env) (install_dir t temp_file : path)
    (w w' : world) (top : string) (inner : entries) :
  native E temp_file = Extracted [(top, Dir inner)] ->
  lookup t (fs w) = Some (Dir []) ->
  well_formed (Dir inner) ->
  extract_and_merge E install_dir t temp_file w = (Ok tt, w') ->
  (forall rel es, lookup rel (Dir inner) = Some (Dir es) ->
     isdir (install_dir ++ rel) (fs w') = true)
  /\ (forall rel data, lookup rel (Dir inner) = Some (File data) ->
        ~ is_prefix t (install_dir ++ rel) ->
        isdir (install_dir ++ rel) (fs w) = false ->
        lookup (install_dir ++ rel) (fs w') = Some (File data)).
Proof.
  intros Hnat Ht Hwf. unfold extract_and_merge. cbv zeta.
  set (xd := t ++ ["extracted"%string]).
  assert (Hfresh : lookup xd (fs w) = None).
  { unfold xd. rewrite lookup_app, Ht. reflexivity. }
  unfold bind at 1. unfold on_fs at 1, call at 1.
  destruct (makedirs xd (fs w)) as [fs1|] eqn:Hmk; [|discriminate].
  assert (Hx1 : lookup xd fs1 = Some (Dir [])).
  { eapply makedirs_new_is_empty; eauto. }
  unfold bind at 1. unfold extract at 1. unfold bind at 1.
  cbn [emit fst snd]. rewrite Hnat. cbn [unpack fst snd].
  unfold bind at 1. cbn [on_fs read fst snd fs with_fs with_event].
  set (fs2 := put_all xd [(top, Dir inner)] fs1).
  assert (Hx2 : lookup xd fs2 = Some (Dir [(top, Dir inner)])).
  { unfold fs2. now rewrite (@put_all_lookup _ _ _ _ Hx1). }
  unfold listdir. rewrite Hx2. cbn [map fst].
  assert (Hroot : lookup (xd ++ [top]) fs2 = Some (Dir inner)).
  { rewrite lookup_app, Hx2. cbn. now rewrite String.eqb_refl. }
  assert (Hisdir : isdir (xd ++ [top]) fs2 = true)
    by (unfold isdir; now rewrite Hroot).
  unfold choose_root. rewrite Hisdir. cbn [List.length Nat.eqb andb].
  unfold on_fs. cbn [fs with_fs].
  destruct (copy_contents (xd ++ [top]) install_dir fs2) as [r fs3] eqn:Hcp.
  intros H. injection H as -> <-. cbn [fs with_fs].
  unfold copy_contents in Hcp. rewrite Hroot in Hcp.
  split.
  - intros rel es. eapply walk_dirs, Hcp.
  - intros rel data Hrel Hout Hdir.
    eapply walk_files; [exact Hwf|exact Hcp| |exact Hrel|].
    { intros ->. discriminate. }
    (* no folder has appeared at that place *)
    destruct (isdir (install_dir ++ rel) fs2) eqn:Hd2; [|reflexivity].
    rewrite <- Hdir. symmetry.
    assert (Hnx : ~ is_prefix xd (install_dir ++ rel)).
    { intros Hp. apply Hout. eapply prefix_of_longer, Hp. }
    apply (@put_all_no_new_dir _ _ _ _ Hnx) in Hd2.
    destruct (classic_prefix (install_dir ++ rel) xd) as [[x Hx]|Hnp].
    + destruct x as [|c x].
      { rewrite app_nil_r in Hx. destruct Hnx. exists []. now rewrite app_nil_r. }
      destruct (exists_last (l := c :: x)) as (x' & y & Hxy); [discriminate|].
      rewrite Hxy in Hx. unfold xd in Hx. rewrite app_assoc in Hx.
      apply app_inj_tail in Hx as [Hx _].
      destruct x' as [|c' x'].
      { rewrite app_nil_r in Hx. destruct Hout. exists []. now rewrite app_nil_r. }
      eapply above_is_dir; [rewrite <- Hx; exact Ht|discriminate].
    + eapply makedirs_no_new_dir; eauto.
Qed.

Lemma wrapped_build_is_installed_witness :
  let w' := snd (extract_and_merge (Sample.env_ok well_behaved true)
                   Sample.install_dir Sample.scratch Sample.cache_file
                   (Sample.world_of Trees.disk_scratch NoVersionFile)) in
  (forall rel es, lookup rel (Dir Trees.wrapped) = Some (Dir es) ->
     isdir (Sample.install_dir ++ rel) (fs w') = true)
  /\ (forall rel data, lookup rel (Dir Trees.wrapped) = Some (File data) ->
        ~ is_prefix Sample.scratch (Sample.install_dir ++ rel) ->
        isdir (Sample.install_dir ++ rel) Trees.disk_scratch = false ->
        lookup (Sample.install_dir ++ rel) (fs w') = Some (File data)).
Proof.
  refine (@wrapped_build_is_installed (Sample.env_ok well_behaved true)
            Sample.install_dir Sample.scratch Sample.cache_file
            (Sample.world_of Trees.disk_scratch NoVersionFile) _
            "FreeCAD_weekly" Trees.wrapped eq_refl eq_refl _ _).
  - unfold Trees.wrapped. MergeMore.tree_ok.
  - vm_compute. reflexivity.
Defined.

End InstallFacts.
(* ================================================================== *)
(** ** The cache from one run to the next *)

Module CacheFacts.
Import Fs Update Props FsFacts WorldFacts PipelineFacts FetchFacts ScratchFacts.
Import MergeFacts Keeping Order.

Local Open Scope Z_scope.

(** Whether the cache is usable depends on the cached file alone. *)
Lemma use_cached_same_file c size fs fs' :
  (forall data, lookup c fs = Some (File data) <-> lookup c fs' = Some (File data)) ->
  use_cached c size fs' = use_cached c size fs.
Proof.
  intros H. unfold use_cached, isfile, getsize.
  destruct (lookup c fs) as [[d|es]|] eqn:Hl.
  - now rewrite (proj1 (H d) eq_refl).
  - destruct (lookup c fs') as [[d'|es']|] eqn:Hl'; try reflexivity.
    now discriminate (proj2 (H d') eq_refl).
  - destruct (lookup c fs') as [[d'|es']|] eqn:Hl'; try reflexivity.
    now discriminate (proj2 (H d') eq_refl).
Qed.

Lemma use_cached_makedirs c size p fs fs' :
  makedirs p fs = Some fs' -> use_cached c size fs' = use_cached c size fs.
Proof.
  intros H. apply use_cached_same_file. intros data. split.
  - eapply makedirs_keeps_file, H.
  - eapply MergeReturns.makedirs_no_new_file, H.
Qed.

(** A call of [download_and_extract] stops early, before its scratch
    folder exists, or runs the transfer and then removes the folder. *)
Lemma download_run E a install_dir cb w r w' :
  download_and_extract E a install_dir cb w = (r, w') ->
  ((exists e, r = Raise e)
   /\ (trace w' = trace w \/ trace w' = trace w ++ [HeadRequest (Feed.url a)]))
  \/ exists fs1 fs2 t w4,
       makedirs install_dir (fs w) = Some fs1
       /\ makedirs (DOWNLOADS_DIR E) fs1 = Some fs2
       /\ mkdtemp E (with_event (with_fs (with_fs w fs1) fs2)
                       (HeadRequest (Feed.url a))) = (Ok t, w4)
       /\ finally (transfer E a install_dir cb (DOWNLOADS_DIR E ++ [Feed.name a])
                     (use_cached (DOWNLOADS_DIR E ++ [Feed.name a])
                        (reported_size (head E (Feed.url a))) fs2)
                     (reported_size (head E (Feed.url a))) t)
                  (cleanup t) w4 = (r, w').
Proof.
  unfold download_and_extract.
  destruct (unspecified install_dir).
  { intros H. injection H as <- <-. left. split; [now eexists|now left]. }
  unfold bind at 1. unfold on_fs at 1, call at 1.
  destruct (makedirs install_dir (fs w)) as [fs1|] eqn:H1.
  2:{ intros H. injection H as <- <-. left. split; [now eexists|now left]. }
  unfold bind at 1. unfold on_fs at 1, call at 1. cbn [fs with_fs].
  destruct (makedirs (DOWNLOADS_DIR E) fs1) as [fs2|] eqn:H2.
  2:{ intros H. injection H as <- <-. left. split; [now eexists|now left]. }
  unfold bind at 1. unfold remote_size_of at 1. unfold bind at 1.
  cbn [emit ret fst snd].
  replace (match head E (Feed.url a) with
           | HeadFails => 0
           | HeadOk Absent => 0
           | HeadOk Malformed => 0
           | HeadOk (Length n) => n
           end) with (reported_size (head E (Feed.url a)))
    by (destruct (head E (Feed.url a)) as [|[| |n]]; reflexivity).
  unfold bind at 1. cbn [on_fs read fst snd fs with_fs with_event].
  set (w3 := with_event (with_fs (with_fs w fs1) fs2) (HeadRequest (Feed.url a))).
  change (with_fs w3 fs2) with w3.
  unfold bind at 1.
  destruct (mkdtemp E w3) as [[t|e3] w4] eqn:Hmk.
  - intros H. right. exists fs1, fs2, t, w4. repeat split; assumption.
  - intros H. injection H as <- <-. left. split; [now eexists|]. right.
    destruct (mkdtemp_raise _ _ Hmk) as [_ ->]. reflexivity.
Qed.

(** A merge changes no file outside its destination. *)
Lemma walk_keeps_outside src : forall root dest fs q data,
  lookup q fs = Some (File data) -> ~ is_prefix dest q ->
  lookup q (snd (walk src root dest fs)) = Some (File data).
Proof.
  induction src as [d|es IH] using node_induction;
    intros root dest fs q data Hq Hout; [exact Hq|].
  rewrite walk_dir. unfold bind at 1. unfold call.
  destruct (makedirs dest fs) as [fs1|] eqn:Hmk; [|exact Hq].
  assert (Hq1 := makedirs_keeps_file _ _ _ Hmk Hq).
  unfold bind.
  destruct (copy_files es root dest fs1) as [r2 fs2] eqn:Hcf.
  assert (Hq2 : lookup q fs2 = Some (File data)).
  { change fs2 with (snd (r2, fs2)). rewrite <- Hcf.
    apply copy_files_frame; [exact Hq1|].
    intros f d Hin. split; intros ->; apply Hout; now eexists. }
  destruct r2 as [[]|e]; [|exact Hq2].
  clear Hcf Hq Hq1 Hmk fs fs1.
  revert fs2 Hq2. induction IH as [|[k v] tl Hv _ IHl]; intros fs Hq; [exact Hq|].
  cbn [walk_all]. unfold bind.
  destruct (walk v (root ++ [k]) (dest ++ [k]) fs) as [r3 fs3] eqn:Hw.
  assert (Hq3 : lookup q fs3 = Some (File data)).
  { change fs3 with (snd (r3, fs3)). rewrite <- Hw.
    apply Hv; [exact Hq|]. intros Hp. apply Hout. eapply prefix_of_longer, Hp. }
  destruct r3 as [[]|e]; [|exact Hq3].
  now apply IHl.
Qed.

Lemma keeps_copy_contents (except : path -> Prop) src_dir dst_dir :
  (forall q, is_prefix dst_dir q -> except q) ->
  preserves (keeps except) (on_fs (copy_contents src_dir dst_dir)).
Proof.
  intros Hd w q data Hq Hex. unfold on_fs, copy_contents.
  destruct (lookup src_dir (fs w)) as [src|]; [|exact Hq].
  assert (H := @walk_keeps_outside src src_dir dst_dir (fs w) q data Hq
                 (fun Hp => Hex (Hd _ Hp))).
  destruct (walk src src_dir dst_dir (fs w)) as [r fs']. exact H.
Qed.

(** The extraction and the merge change no file outside the scratch
    folder and the installation. *)
Lemma keeps_extract_and_merge (except : path -> Prop) E install_dir t temp_file :
  (forall q, is_prefix t q -> except q) ->
  (forall q, is_prefix install_dir q -> except q) ->
  preserves (keeps except) (extract_and_merge E install_dir t temp_file).
Proof.
  intros Ht Hd. unfold extract_and_merge. cbv zeta.
  assert (Hx : forall q, is_prefix (t ++ ["extracted"%string]) q -> except q).
  { intros q Hq. apply Ht. eapply prefix_of_longer, Hq. }
  apply preserves_bind; [apply FailureFacts.keeps_trans| |intros _].
  { apply FailureFacts.keeps_makedirs. }
  apply preserves_bind; [apply FailureFacts.keeps_trans| |intros _].
  { now apply FailureFacts.keeps_extract. }
  apply preserves_bind; [apply FailureFacts.keeps_trans| |intros fs1].
  { apply FailureFacts.keeps_read. }
  destruct (listdir _ fs1) as [names|];
    [|apply preserves_raise, FailureFacts.keeps_refl].
  now apply keeps_copy_contents.
Qed.

(** With a usable cache no archive is requested. *)
Lemma reuse_requests_nothing E a install_dir cb w :
  use_cached (DOWNLOADS_DIR E ++ [Feed.name a])
    (reported_size (head E (Feed.url a))) (fs w) = true ->
  exists evs,
    trace (snd (download_and_extract E a install_dir cb w)) = trace w ++ evs
    /\ forall u, ~ In (StreamRequest u) evs.
Proof.
  intros Hu.
  destruct (download_and_extract E a install_dir cb w) as [r w'] eqn:Hrun.
  cbn [snd].
  destruct (@download_run _ _ _ _ _ _ _ Hrun)
    as [(_ & [Ht|Ht])|(fs1 & fs2 & t & w4 & H1 & H2 & Hmk & Hfin)].
  - exists []. rewrite app_nil_r. split; [exact Ht|]. intros u [].
  - exists [HeadRequest (Feed.url a)]. split; [exact Ht|].
    intros u [H|[]]. discriminate.
  - rewrite (@use_cached_makedirs _ _ _ _ _ H2), (@use_cached_makedirs _ _ _ _ _ H1), Hu
      in Hfin.
    destruct (mkdtemp_ok _ _ Hmk) as (_ & _ & _ & _ & H4).
    cbn [trace with_event with_fs] in H4.
    unfold finally, transfer, fetch in Hfin. unfold bind in Hfin.
    set (size := reported_size (head E (Feed.url a))) in *.
    set (c := DOWNLOADS_DIR E ++ [Feed.name a]) in *.
    assert (Hpre : exists pre,
              trace (snd (report cb size size w4)) = trace w4 ++ pre
              /\ forall u, ~ In (StreamRequest u) pre).
    { destruct cb as [f|].
      - exists [Progress size size]. split; [apply report_trace|].
        intros u [H|[]]. discriminate.
      - exists []. split; [cbn; now rewrite app_nil_r|]. intros u []. }
    destruct Hpre as (pre & Hpt & Hpn).
    assert (Hok := report_ok cb size size w4).
    destruct (report cb size size w4) as [r5 w5]. cbn [fst snd] in *. subst r5.
    cbn [ret] in Hfin.
    assert (Hq := OrderFacts.quiet_extract_and_merge E install_dir t c w5).
    destruct (extract_and_merge E install_dir t c w5) as [r6 w6].
    cbn [snd] in Hq. destruct Hq as (_ & _ & post & Ht6 & Hpost).
    injection Hfin as _ <-.
    exists (HeadRequest (Feed.url a) :: ScratchCreated t :: pre ++ post). split.
    + rewrite OrderFacts.cleanup_trace, Ht6, Hpt, H4, <- !app_assoc. reflexivity.
    + intros u [H|[H|H]]; [discriminate|discriminate|].
      apply in_app_or in H. destruct H as [H|H]; [exact (Hpn u H)|].
      rewrite Forall_forall in Hpost. exact (Hpost _ H).
Qed.

(** A fetch that returns has reused the cached file or has been sent
    the whole archive. *)
Lemma fetch_ok_content E a cb c usable remote_size w p w1 :
  fetch E a cb c usable remote_size w = (Ok p, w1) ->
  (usable = true /\ fs w1 = fs w)
  \/ (usable = false
      /\ (exists fs1, write_file c [] (fs w) = Some fs1)
      /\ exists h chunks,
           get E (Feed.url a) = GetOk h chunks None
           /\ lookup c (fs w1) = Some (File (List.concat chunks))).
Proof.
  destruct usable.
  - intros H. left. split; [reflexivity|].
    unfold fetch, bind in H.
    assert (Hf := report_fs cb remote_size remote_size w).
    destruct (report cb remote_size remote_size w) as [[[]|e] w0];
      [|discriminate].
    injection H as _ <-. exact Hf.
  - intros H. right. split; [reflexivity|].
    destruct (get E (Feed.url a)) as [what|what|h chunks broken] eqn:Hget;
      try (unfold fetch, bind in H; cbn in H; rewrite Hget in H; discriminate).
    assert (Hh : h <> Malformed).
    { intros ->. unfold fetch, bind in H. cbn in H. rewrite Hget in H.
      discriminate. }
    destruct (write_file c [] (fs w)) as [fs1|] eqn:Hopen.
    2:{ unfold fetch, bind, on_fs, call in H. cbn in H. rewrite Hget in H.
        destruct h; cbn in H; try rewrite Hopen in H; discriminate. }
    rewrite (@FetchMore.fetch_opened E a cb c remote_size w h chunks broken fs1
               Hget Hh Hopen) in H.
    destruct broken as [what|]; [discriminate|].
    injection H as _ <-. split; [now exists fs1|]. exists h, chunks.
    split; [reflexivity|].
    apply (@receive_spec cb c (Reports.announced h remote_size) chunks [] 0
             (with_fs (with_event w (StreamRequest (Feed.url a))) fs1)
             (write_file_lookup _ _ _ Hopen)).
Qed.

(** What a call that returns leaves at the cache path. *)
Lemma run_leaves_archive E a install_dir cb w w1 :
  download_and_extract E a install_dir cb w = (Ok tt, w1) ->
  ~ is_prefix install_dir (DOWNLOADS_DIR E ++ [Feed.name a]) ->
  exists data,
    lookup (DOWNLOADS_DIR E ++ [Feed.name a]) (fs w1) = Some (File data)
    /\ ((Z.of_nat (List.length data) = reported_size (head E (Feed.url a))
         /\ reported_size (head E (Feed.url a)) <> 0)
        \/ exists h chunks,
             get E (Feed.url a) = GetOk h chunks None
             /\ data = List.concat chunks).
Proof.
  intros Hrun Hout.
  destruct (@download_run _ _ _ _ _ _ _ Hrun)
    as [([e He] & _)|(fs1 & fs2 & t & w4 & H1 & H2 & Hmk & Hfin)];
    [discriminate|].
  set (size := reported_size (head E (Feed.url a))) in *.
  set (c := DOWNLOADS_DIR E ++ [Feed.name a]) in *.
  destruct (mkdtemp_ok _ _ Hmk) as (Hfresh & _ & Hdir & _ & _).
  cbn [fs with_fs with_event] in Hfresh.
  assert (Hk4 := FailureFacts.keeps_mkdtemp nowhere E
                   (with_event (with_fs (with_fs w fs1) fs2)
                      (HeadRequest (Feed.url a)))).
  rewrite Hmk in Hk4. cbn [snd] in Hk4.
  unfold finally in Hfin.
  destruct (transfer E a install_dir cb c (use_cached c size fs2) size t w4)
    as [r5 w5] eqn:Htr.
  injection Hfin as -> <-.
  unfold transfer, bind in Htr.
  destruct (fetch E a cb c (use_cached c size fs2) size w4) as [[p|e] wf] eqn:Hf;
    [|discriminate].
  (* the cache file after the fetch *)
  assert (Hcache : exists data,
            lookup c (fs wf) = Some (File data)
            /\ ~ is_prefix t c
            /\ ((Z.of_nat (List.length data) = size /\ size <> 0)
                \/ exists h chunks,
                     get E (Feed.url a) = GetOk h chunks None
                     /\ data = List.concat chunks)).
  { destruct (@fetch_ok_content _ _ _ _ _ _ _ _ _ Hf)
      as [[Hu Hsame]|(Hu & [fs3 Hopen] & h & chunks & Hget & Hl)].
    - apply use_cached_iff in Hu. destruct Hu as (data & Hl & Hlen & Hne).
      exists data. split; [|split].
      + rewrite Hsame. apply Hk4; [exact Hl|intros []].
      + eapply fresh_not_prefix; eauto.
      + left. now split.
    - exists (List.concat chunks). split; [exact Hl|]. split.
      + intros [q Hq]. destruct q as [|x q].
        * rewrite app_nil_r in Hq.
          assert (Hopen' : write_file t [] (fs w4) = Some fs3)
            by (rewrite <- Hq; exact Hopen).
          rewrite (write_file_dir _ _ _ Hdir) in Hopen'. discriminate.
        * assert (Hp : is_prefix t (DOWNLOADS_DIR E))
            by (eapply prefix_of_parent; [exact Hq|discriminate]).
          assert (Hd := @makedirs_isdir _ _ _ H2).
          destruct (isdir_exists _ _ Hd) as [n Hn].
          exact (fresh_not_prefix _ Hfresh Hn Hp).
      + right. now exists h, chunks. }
  destruct Hcache as (data & Hl & Hnt & Hprop).
  exists data. split; [|exact Hprop].
  assert (Hkeep := @keeps_extract_and_merge
                     (fun q => is_prefix t q \/ is_prefix install_dir q)
                     E install_dir t p (fun q H => or_introl H)
                     (fun q H => or_intror H) wf).
  rewrite Htr in Hkeep. cbn [snd] in Hkeep.
  apply (@FailureFacts.keeps_cleanup
           (fun q => is_prefix t q \/ is_prefix install_dir q) t w5
           (fun q H => or_introl H)).
  - apply Hkeep; [exact Hl|]. intros [H|H]; contradiction.
  - intros [H|H]; contradiction.
Qed.

(** X27.  The cache works from one run to the next.  After a call of
    [download_and_extract] that returned, a second call requests no
    archive, provided the HEAD request reports a size, the server sends
    as many bytes as it reports, and the cache is not inside the
    installation folder. *)
Theorem second_run_requests_nothing (E : env) (a : Feed.asset)
    (install_dir : path) (cb cb' : option callback) (w w1 : world) :
  download_and_extract E a install_dir cb w = (Ok tt, w1) ->
  ~ is_prefix install_dir (DOWNLOADS_DIR E ++ [Feed.name a]) ->
  reported_size (head E (Feed.url a)) <> 0 ->
  (forall h chunks,
     get E (Feed.url a) = GetOk h chunks None ->
     Z.of_nat (List.length (List.concat chunks))
     = reported_size (head E (Feed.url a))) ->
  exists evs,
    trace (snd (download_and_extract E a install_dir cb' w1)) = trace w1 ++ evs
    /\ forall u, ~ In (StreamRequest u) evs.
Proof.
  intros Hrun Hout Hsize Hsent.
  destruct (@run_leaves_archive _ _ _ _ _ _ Hrun Hout) as (data & Hl & Hprop).
  apply reuse_requests_nothing. apply use_cached_iff.
  exists data. split; [exact Hl|]. split; [|exact Hsize].
  destruct Hprop as [[Hlen _]|(h & chunks & Hget & ->)]; [exact Hlen|].
  eapply Hsent, Hget.
Qed.

Lemma second_run_requests_nothing_witness :
  let E := Sample.env_ok well_behaved true in
  let w1 := snd (download_and_extract E Sample.weekly_asset Sample.install_dir
                   (Some well_behaved)
                   (Sample.world_of Sample.disk NoVersionFile)) in
  exists evs,
    trace (snd (download_and_extract E Sample.weekly_asset Sample.install_dir
                  (Some well_behaved) w1))
    = trace w1 ++ evs
    /\ forall u, ~ In (StreamRequest u) evs.
Proof.
  cbv zeta.
  refine (@second_run_requests_nothing (Sample.env_ok well_behaved true)
            Sample.weekly_asset Sample.install_dir (Some well_behaved)
            (Some well_behaved) (Sample.world_of Sample.disk NoVersionFile)
            _ _ _ _ _).
  - vm_compute. reflexivity.
  - intros [r Hr]. discriminate.
  - discriminate.
  - intros h chunks H. injection H as _ <-. reflexivity.
Defined.

End CacheFacts.
